(** * ResurrectJS: a shallow embedding of the object-graph codec

    The development follows [Resurrect.stringify] and [Resurrect.resurrect]
    of the JavaScript source.  Objects with identity live in a store indexed
    by address; the records the codec creates and never aliases (reference
    records, builder records, parsed JSON children) are carried by value.

    Conventions of the embedding:
    - a finite Number is carried as an integer payload; the non-finite
      numbers have their own constructors;
    - a JSON text is represented by its syntax tree: printing (with the
      [space] argument) and reading a text are the host's; [JSON_parse] is
      the value [JSON.parse] builds from the tree;
    - property lists are kept in enumeration order and a property name is a
      plain data key: the own-property tests and the assignments of the
      codec are those of objects without an own key [hasOwnProperty] or
      [__proto__], and every object is extensible;
    - the prefix is a text no object inherits a property under, as the
      default [#] is: the test [prefix in object] is a test of the own
      properties;
    - a function is an ordinary function, one that
      [Object.prototype.toString] tags [[object Function]]: async and
      generator functions, which [Resurrect.isFunction] does not recognise,
      are not values of the model;
    - the global namespace holds the constructors [handleAtom] names, and a
      pattern handed to [RegExp] is one the host accepts under the flags
      handed with it. *)

From Stdlib Require Import ZArith Lia Bool Ascii String DecimalString DecimalZ.
From stdpp Require Import base list strings.

Set Warnings "-register-all".
Local Open Scope string_scope.
Local Open Scope Z_scope.

(** ** Values *)

Inductive value : Type :=
  | VUndef
  | VNull
  | VBool (b : bool)
  | VNum (n : Z)                       (* finite Number *)
  | VNaN
  | VInf (negative : bool)             (* Infinity, -Infinity *)
  | VStr (s : string)
  | VBigInt (z : Z)
  | VDate (t : option Z)               (* time value in ms; None: Invalid Date *)
  | VRegExp (source flags : string)
  | VFun                               (* ordinary function *)
  | VNode (markup : string)            (* DOM node, by its serialisation *)
  | VRef (a : nat)                     (* object or array with identity *)
  | VRec (fields : list (string * value))   (* fresh record, by value *)
  | VList (items : list value).             (* fresh array, by value *)

Inductive proto : Type :=
  | ProtoObject
  | ProtoArray
  | ProtoClass (name : string) (uid : nat).

Record obj : Type := Obj {
  o_proto : proto;
  o_items : list value;                (* indexed elements of an array *)
  o_props : list (string * value)      (* named own properties, in order *)
}.

Inductive json : Type :=
  | JNull
  | JBool (b : bool)
  | JNum (n : Z)
  | JStr (s : string)
  | JArr (items : list json)
  | JObj (fields : list (string * json)).

Inductive res (A : Type) : Type :=
  | Ok (a : A)
  | Throw (msg : string)
  | OutOfFuel
  | Stuck.                             (* dangling address: not a JS state *)
Arguments Ok {A} a.
Arguments Throw {A} msg.
Arguments OutOfFuel {A}.
Arguments Stuck {A}.

Definition res_bind {A B} (r : res A) (k : A -> res B) : res B :=
  match r with
  | Ok a => k a
  | Throw m => Throw m
  | OutOfFuel => OutOfFuel
  | Stuck => Stuck
  end.

(** ** Own properties *)

Fixpoint get_prop (k : string) (ps : list (string * value)) : option value :=
  match ps with
  | [] => None
  | (k', v) :: ps' => if String.eqb k' k then Some v else get_prop k ps'
  end.

(** [object[k] = v]: an existing key keeps its place, a new one is appended. *)
Fixpoint set_prop (k : string) (v : value) (ps : list (string * value))
  : list (string * value) :=
  match ps with
  | [] => [(k, v)]
  | (k', v') :: ps' =>
      if String.eqb k' k then (k, v) :: ps' else (k', v') :: set_prop k v ps'
  end.

(** [delete object[k]] *)
Fixpoint del_prop (k : string) (ps : list (string * value))
  : list (string * value) :=
  match ps with
  | [] => []
  | (k', v') :: ps' =>
      if String.eqb k' k then del_prop k ps' else (k', v') :: del_prop k ps'
  end.

Definition has_prop (k : string) (ps : list (string * value)) : bool :=
  match get_prop k ps with Some _ => true | None => false end.

(** [object[k]], [undefined] when the key is missing. *)
Definition read_prop (k : string) (ps : list (string * value)) : value :=
  match get_prop k ps with Some v => v | None => VUndef end.

Definition obj_set (k : string) (v : value) (o : obj) : obj :=
  Obj (o_proto o) (o_items o) (set_prop k v (o_props o)).

Definition obj_del (k : string) (o : obj) : obj :=
  Obj (o_proto o) (o_items o) (del_prop k (o_props o)).

Definition obj_push (v : value) (o : obj) : obj :=
  Obj (o_proto o) (o_items o ++ [v]) (o_props o).

(** ** Type tests ([Resurrect.is]) *)

Definition isArray_obj (o : obj) : bool :=
  match o_proto o with ProtoArray => true | _ => false end.

(** [Resurrect.isAtom]: neither [[object Object]] nor [[object Array]]. *)
Definition isAtom (v : value) : bool :=
  match v with
  | VRef _ | VRec _ | VList _ => false
  | _ => true
  end.

Definition isFunction (v : value) : bool :=
  match v with VFun => true | _ => false end.

Definition isDate (v : value) : bool :=
  match v with VDate _ => true | _ => false end.

Definition isRegExp (v : value) : bool :=
  match v with VRegExp _ _ => true | _ => false end.

Definition isNumber (v : value) : bool :=
  match v with VNum _ | VNaN | VInf _ => true | _ => false end.

Definition isBigInt (v : value) : bool :=
  match v with VBigInt _ => true | _ => false end.

Definition isNode (v : value) : bool :=
  match v with VNode _ => true | _ => false end.

(** ** Host conversions used by the typed atoms *)

(** [BigInt.prototype.toString] and [BigInt(string)] on decimal numerals. *)
Definition bigint_toString (z : Z) : string :=
  NilZero.string_of_int (Z.to_int z).

Definition bigint_parse (s : string) : option Z :=
  match NilZero.int_of_string s with
  | Some d => Some (Z.of_int d)
  | None => None
  end.

Definition is_line_terminator (c : ascii) : bool :=
  Ascii.eqb c "010"%char || Ascii.eqb c "013"%char.

Definition is_slash (c : ascii) : bool := Ascii.eqb c "/"%char.

Definition is_gimy (c : ascii) : bool :=
  Ascii.eqb c "g"%char || Ascii.eqb c "i"%char ||
  Ascii.eqb c "m"%char || Ascii.eqb c "y"%char.

(** Longest prefix matched by a greedy [.]-run. *)
Fixpoint dot_run (s : string) : string :=
  match s with
  | EmptyString => EmptyString
  | String c s' =>
      if is_line_terminator c then EmptyString else String c (dot_run s')
  end.

(** Splits at the last slash: [s = a ++ "/" ++ b] with [b] free of slashes. *)
Fixpoint split_last_slash (s : string) : option (string * string) :=
  match s with
  | EmptyString => None
  | String c s' =>
      match split_last_slash s' with
      | Some (a, b) => Some (String c a, b)
      | None => if is_slash c then Some (EmptyString, s') else None
      end
  end.

Fixpoint take_gimy (s : string) : string :=
  match s with
  | EmptyString => EmptyString
  | String c s' => if is_gimy c then String c (take_gimy s') else EmptyString
  end.

(** One attempt, right after the opening slash, of the rest of the pattern
    (a greedy nonempty dot-run, a slash, then the longest run of the letters
    g, i, m, y): the dot-run backtracks to its last slash, which must leave
    it a character. *)
Definition regexp_attempt (s : string) : option (string * string) :=
  match split_last_slash (dot_run s) with
  | Some (String c a, b) => Some (String c a, take_gimy b)
  | _ => None
  end.

(** [text.match(...)] with the pattern of [handleAtom]: the two groups of
    the leftmost match. *)
Fixpoint regexp_literal_match (s : string) : option (string * string) :=
  match s with
  | EmptyString => None
  | String c s' =>
      match (if is_slash c then regexp_attempt s' else None) with
      | Some r => Some r
      | None => regexp_literal_match s'
      end
  end.

(** [RegExp.prototype.toString] *)
Definition regexp_toString (source flags : string) : string :=
  "/" ++ source ++ "/" ++ flags.

Definition is_flag (c : ascii) : bool :=
  existsb (Ascii.eqb c)
    ["d"; "g"; "i"; "m"; "s"; "u"; "v"; "y"]%char.

Fixpoint valid_flags (s : string) : bool :=
  match s with
  | EmptyString => true
  | String c s' =>
      is_flag c && negb (existsb (Ascii.eqb c) (list_ascii_of_string s'))
      && valid_flags s'
  end.

(** Calendar arithmetic of [Date.prototype.toISOString] and of the date
    constructor on the texts it prints (proleptic Gregorian, UTC). *)
Definition ms_per_day : Z := 86400000.
Definition max_time : Z := 8640000000000000.

Definition civil_from_days (z0 : Z) : Z * Z * Z :=
  let z := z0 + 719468 in
  let era := z / 146097 in
  let doe := z - era * 146097 in
  let yoe := (doe - doe / 1460 + doe / 36524 - doe / 146096) / 365 in
  let doy := doe - (365 * yoe + yoe / 4 - yoe / 100) in
  let mp := (5 * doy + 2) / 153 in
  let d := doy - (153 * mp + 2) / 5 + 1 in
  let m := if mp <? 10 then mp + 3 else mp - 9 in
  let y := yoe + era * 400 in
  (if m <=? 2 then y + 1 else y, m, d).

Definition days_from_civil (y0 m d : Z) : Z :=
  let y := if m <=? 2 then y0 - 1 else y0 in
  let era := y / 400 in
  let yoe := y - era * 400 in
  let doy := (153 * (if 2 <? m then m - 3 else m + 9) + 2) / 5 + d - 1 in
  let doe := yoe * 365 + yoe / 4 - yoe / 100 + doy in
  era * 146097 + doe - 719468.

Definition digit_char (n : Z) : ascii := ascii_of_nat (48 + Z.to_nat n).

Fixpoint pad_digits (w : nat) (n : Z) : string :=
  match w with
  | O => EmptyString
  | S w' => pad_digits w' (n / 10) ++ String (digit_char (n mod 10)) EmptyString
  end.

Definition year_text (y : Z) : string :=
  if (0 <=? y) && (y <=? 9999) then pad_digits 4 y
  else if y <? 0 then "-" ++ pad_digits 6 (- y)
  else "+" ++ pad_digits 6 y.

(** [None]: the time value is out of range or invalid, where the host raises
    a RangeError. *)
Definition date_toISOString (t : option Z) : option string :=
  match t with
  | Some ms =>
      if (- max_time <=? ms) && (ms <=? max_time) then
        let '(y, m, d) := civil_from_days (ms / ms_per_day) in
        let r := ms mod ms_per_day in
        Some (year_text y ++ "-" ++ pad_digits 2 m ++ "-" ++ pad_digits 2 d
              ++ "T" ++ pad_digits 2 (r / 3600000)
              ++ ":" ++ pad_digits 2 (r / 60000 mod 60)
              ++ ":" ++ pad_digits 2 (r / 1000 mod 60)
              ++ "." ++ pad_digits 3 (r mod 1000) ++ "Z")
      else None
  | None => None
  end.

Definition digit_value (c : ascii) : option Z :=
  let n := nat_of_ascii c in
  if (48 <=? n)%nat && (n <=? 57)%nat then Some (Z.of_nat n - 48) else None.

Fixpoint read_digits (w : nat) (acc : Z) (s : string) : option (Z * string) :=
  match w with
  | O => Some (acc, s)
  | S w' =>
      match s with
      | String c s' =>
          match digit_value c with
          | Some d => read_digits w' (10 * acc + d) s'
          | None => None
          end
      | EmptyString => None
      end
  end.

Definition expect (c : ascii) (s : string) : option string :=
  match s with
  | String c' s' => if Ascii.eqb c c' then Some s' else None
  | EmptyString => None
  end.

Definition read_year (s : string) : option (Z * string) :=
  match s with
  | String "+" s' => read_digits 6 0 s'
  | String "-" s' =>
      match read_digits 6 0 s' with
      | Some (y, r) => Some (- y, r)
      | None => None
      end
  | _ => read_digits 4 0 s
  end.

(** The time value of a text in the format above; other texts give an
    invalid date. *)
Definition date_parse (s : string) : option Z :=
  '(y, s) ← read_year s; s ← expect "-" s;
  '(m, s) ← read_digits 2 0 s; s ← expect "-" s;
  '(d, s) ← read_digits 2 0 s; s ← expect "T" s;
  '(hh, s) ← read_digits 2 0 s; s ← expect ":" s;
  '(mm, s) ← read_digits 2 0 s; s ← expect ":" s;
  '(ss, s) ← read_digits 2 0 s; s ← expect "." s;
  '(ms, s) ← read_digits 3 0 s; s ← expect "Z" s;
  let t := days_from_civil y m d * ms_per_day
           + hh * 3600000 + mm * 60000 + ss * 1000 + ms in
  if (String.eqb s EmptyString) && (1 <=? m) && (m <=? 12) && (1 <=? d)
     && (d <=? 31) && (hh <=? 23) && (mm <=? 59) && (ss <=? 59)
     && (- max_time <=? t) && (t <=? max_time)
  then Some t else None.

(** ** The codec object and its options *)

(** [scope] is the object the default [NamespaceResolver] looks
    constructors up in: [scope name] is [scope[name].prototype]. *)
Record Resurrect : Type := {
  prefix : string;
  cleanup : bool;
  revive : bool;
  scope : string -> option proto
}.

Definition refcode (R : Resurrect) : string := prefix R ++ "id".
Definition origcode (R : Resurrect) : string := prefix R ++ "original".
Definition buildcode (R : Resurrect) : string := prefix R ++ ".".
Definition valuecode (R : Resurrect) : string := prefix R ++ "v".

(** [new Resurrect()] with a resolver scope. *)
Definition default_options (sc : string -> option proto) : Resurrect :=
  {| prefix := "#"; cleanup := false; revive := true; scope := sc |}.

(** *** NamespaceResolver *)

Definition getPrototype (R : Resurrect) (name : string) : res proto :=
  match scope R name with
  | Some p => Ok p
  | None => Throw ("Unknown constructor: " ++ name)
  end.

Definition constructor_name (p : proto) : string :=
  match p with
  | ProtoObject => "Object"
  | ProtoArray => "Array"
  | ProtoClass name _ => name
  end.

Definition getName (object : obj) : res (option string) :=
  let constructor := constructor_name (o_proto object) in
  if String.eqb constructor "" then
    Throw "Can't serialize objects with anonymous constructors."
  else if String.eqb constructor "Object" || String.eqb constructor "Array"
  then Ok None
  else Ok (Some constructor).

Definition proto_eqb (p q : proto) : bool :=
  match p, q with
  | ProtoObject, ProtoObject => true
  | ProtoArray, ProtoArray => true
  | ProtoClass n i, ProtoClass m j => String.eqb n m && Nat.eqb i j
  | _, _ => false
  end.

(** *** Tags and reference codes *)

Definition _hasTag (R : Resurrect) (o : obj) : bool :=
  has_prop (prefix R) (o_props o).
Definition _getTag (R : Resurrect) (o : obj) : value :=
  read_prop (prefix R) (o_props o).
Definition _setTag (R : Resurrect) (v : value) (o : obj) : obj :=
  obj_set (prefix R) v o.
Definition _getRefcode (R : Resurrect) (o : obj) : value :=
  read_prop (refcode R) (o_props o).
Definition _setRefcode (R : Resurrect) (v : value) (o : obj) : obj :=
  obj_set (refcode R) v o.
Definition _deleteRefcode (R : Resurrect) (o : obj) : obj :=
  obj_del (refcode R) o.
Definition _setRefcodeNull (R : Resurrect) (o : obj) : obj :=
  obj_set (refcode R) VNull o.

(** [x != null] *)
Definition not_nullish (v : value) : bool :=
  match v with VNull | VUndef => false | _ => true end.

Definition isTagged (R : Resurrect) (o : obj) : bool :=
  not_nullish (_getRefcode R o).

(** [ref(object)]; [None] is the call [ref(undefined)].  The fresh record
    receives its single key through [_setTag]. *)
Definition ref (R : Resurrect) (object : option obj) : value :=
  VRec [(prefix R,
         match object with
         | None => VNum (-1)
         | Some o => _getRefcode R o
         end)].

(** [builder(name, value)]: a fresh record with the two code keys, which
    differ in their last character. *)
Definition builder (R : Resurrect) (name : string) (v : value) : value :=
  VRec [(buildcode R, VStr name); (valuecode R, v)].

(** [Number.prototype.toString] on the non-finite numbers. *)
Definition number_toString (v : value) : string :=
  match v with
  | VNaN => "NaN"
  | VInf false => "Infinity"
  | VInf true => "-Infinity"
  | _ => ""
  end.

(** [handleAtom]: the branches test disjoint kinds of value. *)
Definition handleAtom (R : Resurrect) (atom : value) : res value :=
  match atom with
  | VFun => Throw "Can't serialize functions."
  | VNode markup => Ok (builder R "Resurrect.Node" (VList [VStr markup]))
  | VDate t =>
      match date_toISOString t with
      | Some s => Ok (builder R "Date" (VList [VStr s]))
      | None => Throw "RangeError: Invalid time value"
      end
  | VRegExp source flags =>
      match regexp_literal_match (regexp_toString source flags) with
      | Some (a, b) => Ok (builder R "RegExp" (VList [VStr a; VStr b]))
      | None => Throw "TypeError: match is null"
      end
  | VUndef => Ok (ref R None)
  | VNaN | VInf _ => Ok (builder R "Number" (VList [VStr (number_toString atom)]))
  | VBigInt z => Ok (builder R "BigInt" (VList [VStr (bigint_toString z)]))
  | _ => Ok atom
  end.

(** ** The replacer *)

(** A replacer function receives [this], the key and the value. *)
Definition ReplacerFn : Type := value -> string -> value -> value.

Inductive Replacer : Type :=
  | RNull
  | RFn (f : ReplacerFn)
  | RKeys (acceptKeys : list value).

(** The function [stringify] hands to the traversal: its result and the
    calls of the user's function it made. *)
Definition call : Type := (value * string * value)%type.
Definition closure : Type := value -> string -> value -> value * list call.

(** [replacerWrapper(replacer)]: [skip] is the escaped prefix anchored at the
    start of the key, a test for the keys that start with the prefix. *)
Definition replacerWrapper (R : Resurrect) (replacer : ReplacerFn) : closure :=
  fun this k v =>
    if String.prefix (prefix R) k then (v, [])
    else (replacer this k v, [(this, k, v)]).

Definition is_key (k : string) (v : value) : bool :=
  match v with VStr s => String.eqb s k | _ => false end.

(** [acceptKeys.indexOf(k) >= 0 ? v : undefined] *)
Definition acceptKeys_fn (acceptKeys : list value) : closure :=
  fun _ k v => (if existsb (is_key k) acceptKeys then v else VUndef, []).

Definition normalize_replacer (R : Resurrect) (replacer : Replacer)
  : option closure :=
  match replacer with
  | RFn f => Some (replacerWrapper R f)
  | RKeys ks => Some (acceptKeys_fn ks)
  | RNull => None
  end.

(** ** State of a run

    [heap] holds the caller's objects, [table] is [this.table]: the copies
    under construction, a copy being aliased by its table position.  The two
    logs record the calls a run makes to the replacer. *)
Record state : Type := State {
  heap : list obj;
  table : list obj;
  invoked : list call;       (* calls of the replacer made by [visit] *)
  user_calls : list call     (* calls of the user's replacer function *)
}.

Definition M (A : Type) : Type := state -> res (A * state).

Definition ret {A} (a : A) : M A := fun s => Ok (a, s).

Definition bind {A B} (m : M A) (k : A -> M B) : M B :=
  fun s =>
    match m s with
    | Ok (a, s') => k a s'
    | Throw e => Throw e
    | OutOfFuel => OutOfFuel
    | Stuck => Stuck
    end.

Notation "'do' x <- m ; k" := (bind m (fun x => k))
  (at level 10, x name, m at level 100, k at level 200).

Definition lift {A} (r : res A) : M A :=
  fun s => res_bind r (fun a => Ok (a, s)).

Definition throw {A} (msg : string) : M A := fun _ => Throw msg.

Definition load (a : nat) : M obj :=
  fun s => match heap s !! a with Some o => Ok (o, s) | None => Stuck end.

Definition update (a : nat) (f : obj -> obj) : M unit :=
  fun s =>
    match heap s !! a with
    | Some _ =>
        Ok (tt, State (alter f a (heap s)) (table s) (invoked s) (user_calls s))
    | None => Stuck
    end.

Definition load_copy (i : nat) : M obj :=
  fun s => match table s !! i with Some o => Ok (o, s) | None => Stuck end.

Definition update_copy (i : nat) (f : obj -> obj) : M unit :=
  fun s =>
    match table s !! i with
    | Some _ =>
        Ok (tt, State (heap s) (alter f i (table s)) (invoked s) (user_calls s))
    | None => Stuck
    end.

Definition table_length : M nat := fun s => Ok (length (table s), s).

Definition log_invoked (c : call) : M unit :=
  fun s => Ok (tt, State (heap s) (table s) (invoked s ++ [c]) (user_calls s)).

Definition log_user (cs : list call) : M unit :=
  fun s => Ok (tt, State (heap s) (table s) (invoked s) (user_calls s ++ cs)).

Fixpoint for_each {A} (body : A -> M unit) (l : list A) : M unit :=
  match l with
  | [] => ret tt
  | x :: l' => do _ <- body x; for_each body l'
  end.

(** The address of a composite; a fresh record or array (one a replacer
    returned) receives its identity here. *)
Definition locate (root : value) : M nat :=
  fun s =>
    let fresh o :=
      Ok (length (heap s),
          State (heap s ++ [o]) (table s) (invoked s) (user_calls s)) in
    match root with
    | VRef a => Ok (a, s)
    | VRec fs => fresh (Obj ProtoObject [] fs)
    | VList xs => fresh (Obj ProtoArray xs [])
    | _ => Stuck
    end.

(** ** Encoding *)

(** [tag(object)]: the object is pushed to the table under the next
    identifier. *)
Definition tag (R : Resurrect) (object : obj) : M value :=
  do object <-
    (if revive R then
       do constructor <- lift (getName object);
       match constructor with
       | Some name =>
           do p <- lift (getPrototype R name);
           if negb (proto_eqb p (o_proto object))
           then throw "Constructor mismatch!"
           else ret (_setTag R (VStr name) object)
       | None => ret object
       end
     else ret object);
  fun s =>
    let refcode := VNum (Z.of_nat (length (table s))) in
    Ok (refcode,
        State (heap s) (table s ++ [_setRefcode R refcode object])
              (invoked s) (user_calls s)).

Definition isUndefined (v : value) : bool :=
  match v with VUndef => true | _ => false end.

(** The body of the loop over the elements of an array: [recur] is the
    recursive call of [visit], [copy] the position of the copy. *)
Definition visit_element (recur : value -> M value) (copy : nat) (x : value)
  : M unit :=
  do v <- recur x;
  update_copy copy (obj_push v).

(** The guarded call of the replacer in the loop over the keys: the value
    to encode, or [None] when the field is omitted.  [a] is the address of
    [root], the [this] of the call. *)
Definition call_replacer (replacer : option closure) (a : nat) (key : string)
    (val : value) : M (option value) :=
  match replacer with
  | Some rep =>
      if isUndefined val then ret (Some val)
      else
        let '(v, ucs) := rep (VRef a) key val in
        do _ <- log_invoked (VRef a, key, val);
        do _ <- log_user ucs;
        ret (if isUndefined v then None else Some v)
  | None => ret (Some val)
  end.

(** The body of the [for (key in root)] loop, for a [root] whose method
    [hasOwnProperty] is the inherited one and a [key] other than
    [__proto__]. *)
Definition visit_property (recur : value -> M value)
    (replacer : option closure) (a copy : nat) (key : string) : M unit :=
  do o <- load a;
  let value := read_prop key (o_props o) in
  if has_prop key (o_props o) then
    do value <- call_replacer replacer a key value;
    match value with
    | Some value =>
        do v <- recur value;
        update_copy copy (obj_set key v)
    | None => ret tt                                   (* continue *)
    end
  else ret tt.

Fixpoint visit (R : Resurrect) (f : value -> res value)
    (replacer : option closure) (fuel : nat) (root : value) : M value :=
  match fuel with
  | O => fun _ => OutOfFuel
  | S fuel' =>
      if isAtom root then lift (f root)
      else
        do a <- locate root;
        do o <- load a;
        if negb (isTagged R o) then
          do copy <- table_length;      (* the copy is [table[copy]] *)
          do _ <-
            (if isArray_obj o then
               do id <- tag R (Obj ProtoArray [] []);
               do _ <- update a (_setRefcode R id);
               for_each (visit_element (visit R f replacer fuel') copy)
                        (o_items o)
             else
               do id <- tag R (Obj (o_proto o) [] []);
               do _ <- update a (_setRefcode R id);
               do o1 <- load a;
               for_each
                 (visit_property (visit R f replacer fuel') replacer a copy)
                 (map fst (o_props o1)));
          do _ <- update_copy copy (obj_set (origcode R) (VRef a));
          do c <- load_copy copy;
          ret (ref R (Some c))
        else ret (ref R (Some o))
  end.

(** ** The host's JSON *)

Definition index_key (i : nat) : string :=
  NilZero.string_of_uint (Nat.to_uint i).

(** [Date.prototype.toJSON] is the only [toJSON] a value of the model has. *)
Definition toJSON (v : value) : value :=
  match v with
  | VDate t =>
      match date_toISOString t with Some s => VStr s | None => VNull end
  | _ => v
  end.

(** [SerializeJSONObject]: the members of an object, [recur] serialising
    the property of a key; a property without a JSON form is left out. *)
Fixpoint ser_fields (recur : string -> value -> M (option json))
    (fs : list (string * value)) : M (list (string * json)) :=
  match fs with
  | [] => ret []
  | (k, x) :: fs' =>
      do j <- recur k x;
      do js <- ser_fields recur fs';
      ret (match j with Some j => (k, j) :: js | None => js end)
  end.

(** [SerializeJSONArray]: an element without a JSON form is [null]. *)
Fixpoint ser_items (recur : string -> value -> M (option json)) (i : nat)
    (xs : list value) : M (list json) :=
  match xs with
  | [] => ret []
  | x :: xs' =>
      do j <- recur (index_key i) x;
      do js <- ser_items recur (S i) xs';
      ret (match j with Some j => j | None => JNull end :: js)
  end.

(** [SerializeJSONProperty(key, holder)] where [holder[key]] is [v];
    [None] is the result [undefined]. *)
Fixpoint json_ser (rep : option closure) (fuel : nat)
    (holder : value) (key : string) (v : value) : M (option json) :=
  match fuel with
  | O => fun _ => OutOfFuel
  | S fuel' =>
      do v <-
        (match rep with
         | Some r =>
             let '(x, ucs) := r holder key (toJSON v) in
             do _ <- log_user ucs; ret x
         | None => ret (toJSON v)
         end);
      match v with
      | VNull => ret (Some JNull)
      | VBool b => ret (Some (JBool b))
      | VNum n => ret (Some (JNum n))
      | VNaN | VInf _ => ret (Some JNull)
      | VStr s => ret (Some (JStr s))
      | VBigInt _ => throw "TypeError: Do not know how to serialize a BigInt"
      | VUndef | VFun => ret None
      | VDate _ | VRegExp _ _ | VNode _ => ret (Some (JObj []))
      | VRec fs =>
          do js <- ser_fields (json_ser rep fuel' v) fs; ret (Some (JObj js))
      | VList xs =>
          do js <- ser_items (json_ser rep fuel' v) 0%nat xs;
          ret (Some (JArr js))
      | VRef a =>
          do o <- load a;
          if isArray_obj o
          then do js <- ser_items (json_ser rep fuel' v) 0%nat (o_items o);
               ret (Some (JArr js))
          else do js <- ser_fields (json_ser rep fuel' v) (o_props o);
               ret (Some (JObj js))
      end
  end.

(** [JSON.stringify(value, replacer, space)]: the document, or [None] for
    the result [undefined]. *)
Definition JSON_stringify (fuel : nat) (v : value) (rep : option closure)
  : M (option json) :=
  json_ser rep fuel (VRec [("", v)]) "" v.

(** The object [JSON.parse] builds from the members of the text, one
    [CreateDataProperty] per member: a name that comes again keeps its first
    place and takes the later value. *)
Definition object_of (members : list (string * value))
  : list (string * value) :=
  fold_left (fun fs p => set_prop (fst p) (snd p) fs) members [].

Fixpoint JSON_parse (j : json) : value :=
  match j with
  | JNull => VNull
  | JBool b => VBool b
  | JNum n => VNum n
  | JStr s => VStr s
  | JArr js => VList (map JSON_parse js)
  | JObj fs => VRec (object_of (map (fun p => (fst p, JSON_parse (snd p))) fs))
  end.

(** ** [stringify] *)

(** A table entry as the value [JSON.stringify] walks. *)
Definition entry_value (o : obj) : value :=
  if isArray_obj o then VList (o_items o) else VRec (o_props o).

(** One turn of the loop over the table that ends [stringify]. *)
Definition release (R : Resurrect) (i : nat) : M unit :=
  do c <- load_copy i;
  match read_prop (origcode R) (o_props c) with
  | VRef a =>
      do _ <- update a (if cleanup R then _deleteRefcode R
                        else _setRefcodeNull R);
      do _ <- update_copy i (_deleteRefcode R);
      update_copy i (obj_del (origcode R))
  | _ => throw "TypeError: cannot set properties"
  end.

(** [stringify(object, replacer, space)] on the caller's heap [h]: the
    document and the heap the call leaves. *)
Definition stringify_run (R : Resurrect) (fuel : nat) (object : value)
    (replacer : Replacer) : M (option json) :=
  let replacer := normalize_replacer R replacer in
  if isAtom object then
    do atom <- lift (handleAtom R object);
    JSON_stringify fuel atom replacer
  else
    do _ <- visit R (handleAtom R) replacer fuel object;
    do n <- table_length;
    do _ <- for_each (release R) (seq 0 n);
    fun s => JSON_stringify fuel (VList (map entry_value (table s))) None s.

Definition stringify (R : Resurrect) (fuel : nat) (h : list obj)
    (object : value) (replacer : Replacer) : res (option json * list obj) :=
  res_bind (stringify_run R fuel object replacer (State h [] [] []))
    (fun r => Ok (fst r, heap (snd r))).

(** ** Decoding *)

(** An element of the parsed table: a composite has an identity, its
    position in the table. *)
Inductive entry : Type :=
  | EAtom (v : value)
  | EObj (o : obj).

Definition entry_of (v : value) : entry :=
  match v with
  | VRec fs => EObj (Obj ProtoObject [] fs)
  | VList xs => EObj (Obj ProtoArray xs [])
  | _ => EAtom v
  end.

(** The value [this.table[i]] evaluates to. *)
Definition entry_ref (i : nat) (e : entry) : value :=
  match e with
  | EAtom v => v
  | EObj _ => VRef i
  end.

(** The array index a property key denotes, if any: a string is one when
    it is the decimal text of a number, without leading zeros. *)
Definition table_index (t : value) : option nat :=
  match t with
  | VNum n => if 0 <=? n then Some (Z.to_nat n) else None
  | VStr s =>
      match NilZero.uint_of_string s with
      | Some u =>
          if String.eqb (index_key (Nat.of_uint u)) s
          then Some (Nat.of_uint u) else None
      | None => None
      end
  | _ => None
  end.

(** What a property key names in an array: a position, [length], or a
    name the array holds nothing under. *)
Inductive array_key : Type :=
  | KIndex (i : nat)
  | KLength
  | KOther.

(** [ToPropertyKey] of an identifier read from JSON.  A number and a string
    name themselves.  An array is joined with commas: with one element it
    names what that element names ([null] giving the empty text), with
    another number of elements its text is no position.  [null], a boolean
    and an object ([[object Object]]) give texts that are no position. *)
Fixpoint key_of (t : value) : array_key :=
  match t with
  | VNum _ | VStr _ =>
      match table_index t with
      | Some i => KIndex i
      | None => if is_key "length" t then KLength else KOther
      end
  | VList [x] => key_of x
  | _ => KOther
  end.

(** The conversion to a text ends in a TypeError on an object with an own
    property [toString]: read from JSON it is no function, and the
    inherited [valueOf] answers no primitive. *)
Fixpoint stringable (t : value) : bool :=
  match t with
  | VRec fs => negb (has_prop "toString" fs)
  | VList xs => forallb stringable xs
  | _ => true
  end.

(** [deref(ref)]: [this.table[ref[prefix]]]; a key that is no position of
    the table reads [undefined].  Of the names an array inherits a member
    under, [length] apart ([constructor], [map] and the other methods,
    which differ from host to host), none is modelled: they are taken for
    names the table holds nothing under. *)
Definition deref (R : Resurrect) (table : list entry)
    (ref : list (string * value)) : res value :=
  let t := read_prop (prefix R) ref in
  if stringable t then
    Ok match key_of t with
       | KIndex i =>
           match table !! i with
           | Some e => entry_ref i e
           | None => VUndef
           end
       | KLength => VNum (Z.of_nat (length table))
       | KOther => VUndef
       end
  else Throw "TypeError: Cannot convert object to primitive value".

(** The constructors [build] can reach by name, applied to the arguments,
    with the unwrapping of boxed primitives done.  The namespace is closed
    over the names [handleAtom] emits; any other name finds no constructor
    and the call on it raises a TypeError.  [RegExp] checks the flags; the
    source is taken for a pattern the host accepts under them, which it is
    when the flags are those of the RegExp the source was read from. *)
Definition construct (name : string) (args : list value) : res value :=
  if String.eqb name "Number" then
    match args with
    | VStr "NaN" :: _ => Ok VNaN
    | VStr "Infinity" :: _ => Ok (VInf false)
    | VStr "-Infinity" :: _ => Ok (VInf true)
    | VStr s :: _ =>
        match bigint_parse s with Some n => Ok (VNum n) | None => Ok VNaN end
    | VNum n :: _ => Ok (VNum n)
    | VInf b :: _ => Ok (VInf b)
    | [] => Ok (VNum 0)
    | _ => Ok VNaN
    end
  else if String.eqb name "BigInt" then
    match args with
    | VStr s :: _ =>
        match bigint_parse s with
        | Some z => Ok (VBigInt z)
        | None => Throw "SyntaxError: Cannot convert to a BigInt"
        end
    | VNum n :: _ => Ok (VBigInt n)
    | VBigInt z :: _ => Ok (VBigInt z)
    | _ => Throw "TypeError: Cannot convert to a BigInt"
    end
  else if String.eqb name "Date" then
    match args with
    | VStr s :: _ => Ok (VDate (date_parse s))
    | VNum n :: _ =>
        Ok (VDate (if (- max_time <=? n) && (n <=? max_time)
                   then Some n else None))
    | _ => Ok (VDate None)
    end
  else if String.eqb name "RegExp" then
    match args with
    | VStr source :: rest =>
        let flags := match rest with VStr fl :: _ => fl | _ => "" end in
        if valid_flags flags then Ok (VRegExp source flags)
        else Throw "SyntaxError: Invalid flags"
    | _ => Throw "SyntaxError: Invalid regular expression"
    end
  else if String.eqb name "Resurrect.Node" then
    match args with
    | VStr html :: _ => Ok (VNode html)
    | _ => Ok VNull
    end
  else Throw "TypeError: type is undefined".

(** [build(ref)] *)
Definition build (R : Resurrect) (ref : list (string * value)) : res value :=
  match read_prop (buildcode R) ref with
  | VStr name =>
      let args :=
        match read_prop (valuecode R) ref with
        | VList xs => xs                      (* [concat] spreads an array *)
        | v => [v]
        end in
      construct name args
  | _ => Throw "TypeError: split is not a function"
  end.

(** [decode(ref)] on a child that is not an atom.  An array has neither
    code among its keys. *)
Definition decode (R : Resurrect) (table : list entry) (ref : value)
  : res value :=
  match ref with
  | VRec fs =>
      if has_prop (prefix R) fs then deref R table fs
      else if has_prop (buildcode R) fs then build R fs
      else Throw "Unknown encoding."
  | VList _ => Throw "Unknown encoding."
  | _ => Stuck
  end.

(** [fixPrototype(object)]; an object read from JSON inherits
    [__proto__], so the prototype is set in place. [_deleteTag] only
    touches [tagMap]: the tag stays on the object. *)
Definition fixPrototype (R : Resurrect) (e : entry) : res entry :=
  match e with
  | EAtom _ => Throw "TypeError: cannot use 'in' on a primitive"
  | EObj o =>
      if _hasTag R o then
        match _getTag R o with
        | VStr name =>
            res_bind (getPrototype R name)
              (fun p => Ok (EObj (Obj p (o_items o) (o_props o))))
        | _ => Throw "Unknown constructor"
        end
      else Ok e
  end.

Definition decode_child (R : Resurrect) (table : list entry) (v : value)
  : res value :=
  if isAtom v then Ok v else decode R table v.

Fixpoint decode_items (R : Resurrect) (table : list entry) (xs : list value)
  : res (list value) :=
  match xs with
  | [] => Ok []
  | x :: xs' =>
      res_bind (decode_child R table x) (fun y =>
      res_bind (decode_items R table xs') (fun ys => Ok (y :: ys)))
  end.

Fixpoint decode_props (R : Resurrect) (table : list entry)
    (ps : list (string * value)) : res (list (string * value)) :=
  match ps with
  | [] => Ok []
  | (k, x) :: ps' =>
      res_bind (decode_child R table x) (fun y =>
      res_bind (decode_props R table ps') (fun ys => Ok ((k, y) :: ys)))
  end.

(** The inner loop of [resurrect] over the own keys of one entry. *)
Definition resolve_entry (R : Resurrect) (table : list entry) (e : entry)
  : res entry :=
  match e with
  | EAtom v => Ok e
  | EObj o =>
      res_bind (decode_items R table (o_items o)) (fun items =>
      res_bind (decode_props R table (o_props o)) (fun props =>
      Ok (EObj (Obj (o_proto o) items props))))
  end.

Fixpoint fix_all (R : Resurrect) (es : list entry) : res (list entry) :=
  match es with
  | [] => Ok []
  | e :: es' =>
      res_bind (fixPrototype R e) (fun e' =>
      res_bind (fix_all R es') (fun r => Ok (e' :: r)))
  end.

Fixpoint resolve_from (R : Resurrect) (idx : list nat) (table : list entry)
  : res (list entry) :=
  match idx with
  | [] => Ok table
  | i :: idx' =>
      match table !! i with
      | Some e =>
          res_bind (resolve_entry R table e) (fun e' =>
          resolve_from R idx' (<[i := e']> table))
      | None => Stuck
      end
  end.

(** [resurrect(string)]: the decoded value and the objects it lives in
    (the table the call built). *)
Definition resurrect (R : Resurrect) (string : json)
  : res (value * list entry) :=
  match JSON_parse string with
  | VList xs =>
      let table := map entry_of xs in
      res_bind (if revive R then fix_all R table else Ok table) (fun table =>
      res_bind (resolve_from R (seq 0 (length table)) table) (fun table =>
      Ok (match table !! 0%nat with
          | Some e => entry_ref 0 e
          | None => VUndef
          end, table)))
  | VRec fs => res_bind (decode R [] (VRec fs)) (fun v => Ok (v, []))
  | data => Ok (data, [])
  end.

(** * Vocabulary of the specification *)

Local Open Scope list_scope.
Local Open Scope nat_scope.

(** A relation between the state before and after a computation that every
    successful run of [m] establishes. *)
Definition keeps (P : state -> state -> Prop) {A} (m : M A) : Prop :=
  forall s a s', m s = Ok (a, s') -> P s s'.

(** The caller's view of the heap: every own property but the reference
    code the encoder stamps on the nodes it visits. *)
Definition user_view (R : Resurrect) (h : list obj) : list obj :=
  map (_deleteRefcode R) h.

(** The heap keeps the caller's view of its objects; objects may be added
    (the fresh records a replacer returned). *)
Definition heap_frame (R : Resurrect) (s s' : state) : Prop :=
  exists ext, user_view R (heap s') = user_view R (heap s) ++ ext.

(** ** The graph the encoder walks *)

(** The value [visit] recurses on for the field [k] of the object at [a];
    [None] when the replacer omits the field.  The replacer is not asked
    about a field whose value is [undefined]. *)
Definition replaced (rep : option closure) (a : nat) (k : string) (v : value)
  : option value :=
  match rep with
  | Some r =>
      if isUndefined v then Some v
      else let v' := fst (r (VRef a) k v) in
           if isUndefined v' then None else Some v'
  | None => Some v
  end.

Fixpoint replaced_fields (rep : option closure) (a : nat)
    (ps : list (string * value)) : list (string * value) :=
  match ps with
  | [] => []
  | (k, v) :: ps' =>
      match replaced rep a k v with
      | Some v' => (k, v') :: replaced_fields rep a ps'
      | None => replaced_fields rep a ps'
      end
  end.

(** The children of a node, in the order they are visited. *)
Definition kids (rep : option closure) (a : nat) (o : obj) : list value :=
  if isArray_obj o then o_items o
  else map snd (replaced_fields rep a (o_props o)).

(** The calls of the user's function made for the fields of one object. *)
Definition field_calls (rep : option closure) (a : nat)
    (ps : list (string * value)) : list call :=
  match rep with
  | Some r =>
      flat_map (fun p => if isUndefined (snd p) then []
                         else snd (r (VRef a) (fst p) (snd p))) ps
  | None => []
  end.

Definition node_calls (rep : option closure) (G : list obj) (a : nat)
  : list call :=
  match G !! a with
  | Some o => if isArray_obj o then [] else field_calls rep a (o_props o)
  | None => []
  end.

(** ** Identifiers and encoded entries *)

Fixpoint index_of (a : nat) (ord : list nat) : option nat :=
  match ord with
  | [] => None
  | b :: ord' =>
      if Nat.eqb a b then Some 0%nat
      else match index_of a ord' with Some i => Some (S i) | None => None end
  end.

(** The reference record [{prefix: id}]. *)
Definition ref_to (R : Resurrect) (id : Z) : value := VRec [(prefix R, VNum id)].

(** The child stored for [v] when the visited nodes are [ord], a node's
    identifier being its position in [ord]. *)
Definition enc (R : Resurrect) (ord : list nat) (v : value) : value :=
  match v with
  | VRef b =>
      ref_to R (match index_of b ord with Some i => Z.of_nat i | None => -1 end)
  | _ => match handleAtom R v with Ok x => x | _ => VUndef end
  end.

Definition enc_field (R : Resurrect) (ord : list nat) (p : string * value)
  : string * value := (fst p, enc R ord (snd p)).

(** The table entry of the node [a] with (caller-visible) content [o]. *)
Definition encode_node (R : Resurrect) (rep : option closure)
    (ord : list nat) (a : nat) (o : obj) : obj :=
  if isArray_obj o then Obj ProtoArray (map (enc R ord) (o_items o)) []
  else Obj (o_proto o) []
         (map (enc_field R ord) (replaced_fields rep a (o_props o))).

(** The copy as [visit] leaves it: the entry with its two bookkeeping
    keys. *)
Definition copy_node (R : Resurrect) (rep : option closure)
    (ord : list nat) (id : nat) (a : nat) (o : obj) : obj :=
  let e := encode_node R rep ord a o in
  Obj (o_proto e) (o_items e)
      ((refcode R, VNum (Z.of_nat id)) :: o_props e ++ [(origcode R, VRef a)]).

(** The heap after the nodes [new] were given the identifiers from [k]. *)
Fixpoint stamp (R : Resurrect) (k : nat) (new : list nat) (h : list obj)
  : list obj :=
  match new with
  | [] => h
  | a :: new' =>
      stamp R (S k) new' (alter (_setRefcode R (VNum (Z.of_nat k))) a h)
  end.

(** ** Well-formed graphs *)

(** A value [visit] can encode: an atom [handleAtom] accepts or the address
    of an object of the heap. *)
Definition visitable (R : Resurrect) (n : nat) (v : value) : bool :=
  match v with
  | VRef a => (a <? n)%nat
  | VRec _ | VList _ => false
  | _ => match handleAtom R v with Ok _ => true | _ => false end
  end.

Definition plain (o : obj) : bool :=
  match o_proto o with ProtoClass _ _ => false | _ => true end.

Fixpoint nodup_keys (ps : list (string * value)) : bool :=
  match ps with
  | [] => true
  | (k, _) :: ps' => negb (has_prop k ps') && nodup_keys ps'
  end.

Definition free_key (R : Resurrect) (p : string * value) : bool :=
  negb (String.prefix (prefix R) (fst p)).

(** A node of a graph of plain objects and arrays whose keys keep clear
    of the prefix (as the options require), seen without its reference
    code. *)
Definition wf_content (R : Resurrect) (rep : option closure) (n a : nat)
    (o : obj) : bool :=
  plain o
  && nodup_keys (o_props o)
  && forallb (free_key R) (o_props o)
  && (if isArray_obj o then match o_props o with [] => true | _ => false end
      else match o_items o with [] => true | _ => false end)
  && forallb (visitable R n) (kids rep a o).

Definition wf_node (R : Resurrect) (rep : option closure) (n a : nat)
    (o : obj) : bool :=
  nodup_keys (o_props o)
  && negb (isTagged R o)
  && wf_content R rep n a (_deleteRefcode R o).

Fixpoint wf_nodes (R : Resurrect) (rep : option closure) (n a : nat)
    (h : list obj) : bool :=
  match h with
  | [] => true
  | o :: h' => wf_node R rep n a o && wf_nodes R rep n (S a) h'
  end.

(** Every object of the heap is well formed and carries no identifier. *)
Definition wf_heap (R : Resurrect) (rep : option closure) (h : list obj)
  : bool :=
  wf_nodes R rep (length h) 0 h.

(** ** The invariant of the traversal: [ord] lists the visited nodes in the
    order of their identifiers, [G] is the caller's view of the heap. *)
Record inv (R : Resurrect) (rep : option closure) (G : list obj)
    (ord : list nat) (s : state) : Prop := {
  inv_view : user_view R (heap s) = G;
  inv_len : length (table s) = length ord;
  inv_nodup : NoDup ord;
  inv_tag : forall i a, ord !! i = Some a ->
    exists o, heap s !! a = Some o /\ _getRefcode R o = VNum (Z.of_nat i);
  inv_untag : forall a o, heap s !! a = Some o ->
    isTagged R o = true -> a ∈ ord;
  inv_keys : forall a o, heap s !! a = Some o ->
    nodup_keys (o_props o) = true;
  inv_wf : forall a o, G !! a = Some o ->
    wf_content R rep (length G) a o = true
}.

(** The entries [newT] are the finished copies of the nodes [new], whose
    identifiers start at [base], and every child of these nodes is
    visited. *)
Definition finished (R : Resurrect) (rep : option closure) (G : list obj)
    (ord : list nat) (base : nat) (new : list nat) (newT : list obj) : Prop :=
  length newT = length new /\
  forall j a, new !! j = Some a ->
    exists o, G !! a = Some o
      /\ newT !! j = Some (copy_node R rep ord (base + j) a o)
      /\ forall b, VRef b ∈ kids rep a o -> b ∈ ord.

(** The closure treats the reference code like the two closures
    [stringify] builds: it is passed through or dropped, without a call of
    the user's function. *)
Definition passes_refcode (R : Resurrect) (rep : option closure) : Prop :=
  forall r this v, rep = Some r ->
    r this (refcode R) v = (v, []) \/ r this (refcode R) v = (VUndef, []).

(** The nodes a depth-first walk from [v] discovers, in order, when the
    nodes [ord] are already visited. *)
Fixpoint discover (rep : option closure) (fuel : nat) (G : list obj)
    (ord : list nat) (v : value) : list nat :=
  match fuel with
  | O => []
  | S fuel' =>
      match v with
      | VRef a =>
          match index_of a ord, G !! a with
          | None, Some o =>
              a :: fold_left
                     (fun nw x => nw ++ discover rep fuel' G (ord ++ a :: nw) x)
                     (kids rep a o) []
          | _, _ => []
          end
      | _ => []
      end
  end.

(** What a successful [visit] of [v] establishes: [new] are the nodes it
    discovered, in order, and [newT] their finished copies. *)
Definition visit_post (R : Resurrect) (rep : option closure) (G : list obj)
    (fuel : nat) (ord : list nat) (v : value) (s : state) (r : value)
    (s' : state) (new : list nat) (newT : list obj) : Prop :=
  new = discover rep fuel G ord v /\
  heap s' = stamp R (length ord) new (heap s) /\
  table s' = table s ++ newT /\
  inv R rep G (ord ++ new) s' /\
  r = enc R (ord ++ new) v /\
  (forall b, v = VRef b -> b ∈ ord ++ new) /\
  finished R rep G (ord ++ new) (length ord) new newT /\
  user_calls s' ≡ₚ user_calls s ++ flat_map (node_calls rep G) new.

(** [visit] with [fuel] succeeds on every well-formed state that leaves
    it at most [fuel - 1] nodes to discover. *)
Definition visit_ok (R : Resurrect) (rep : option closure) (G : list obj)
    (fuel : nat) : Prop :=
  forall v s ord,
    inv R rep G ord s ->
    visitable R (length G) v = true ->
    length G < fuel + length ord ->
    exists r s' new newT,
      visit R (handleAtom R) rep fuel v s = Ok (r, s') /\
      visit_post R rep G fuel ord v s r s' new newT.

(** ** The emitted table *)

(** The document of a value made of JSON data. *)
Fixpoint to_json (v : value) : json :=
  match v with
  | VBool b => JBool b
  | VNum n => JNum n
  | VStr s => JStr s
  | VRec fs => JObj (map (fun p => (fst p, to_json (snd p))) fs)
  | VList xs => JArr (map to_json xs)
  | _ => JNull
  end.

Definition entry_json (o : obj) : json := to_json (entry_value o).

(** The table of a run that visited the nodes [ord]. *)
Definition node_entry (R : Resurrect) (rep : option closure) (G : list obj)
    (ord : list nat) (a : nat) : obj :=
  match G !! a with
  | Some o => encode_node R rep ord a o
  | None => Obj ProtoObject [] []
  end.

Definition encode_table (R : Resurrect) (rep : option closure) (G : list obj)
    (ord : list nat) : list obj :=
  map (node_entry R rep G ord) ord.

Definition table_json (R : Resurrect) (rep : option closure) (G : list obj)
    (ord : list nat) : json :=
  JArr (map entry_json (encode_table R rep G ord)).

(** What the loop that ends [stringify] does to a visited node. *)
Definition released (R : Resurrect) (o : obj) : obj :=
  if cleanup R then _deleteRefcode R o else _setRefcodeNull R o.

(** The heap [stringify] leaves when it visited the nodes [ord]. *)
Definition release_heap (R : Resurrect) (ord : list nat) (h : list obj)
  : list obj :=
  imap (fun a o => if bool_decide (a ∈ ord) then released R o else o) h.

(** The order in which [stringify] discovers the nodes of the graph. *)
Definition visit_order (R : Resurrect) (replacer : Replacer) (fuel : nat)
    (h : list obj) (root : value) : list nat :=
  discover (normalize_replacer R replacer) fuel (user_view R h) [] root.

(** ** Encoded children *)

Definition is_string (v : value) : bool :=
  match v with VStr _ => true | _ => false end.

(** The shapes [visit] stores in a copy: a JSON atom, a reference record or
    a builder record with string arguments. *)
Definition encoded (v : value) : bool :=
  match v with
  | VNull | VBool _ | VNum _ | VStr _ => true
  | VRec [(_, VNum _)] => true
  | VRec [(k, VStr _); (k', VList args)] =>
      negb (String.eqb k k') && forallb is_string args
  | _ => false
  end.

(** An entry all of whose children are encoded. *)
Definition encoded_entry (e : obj) : bool :=
  match o_proto e with
  | ProtoArray =>
      forallb encoded (o_items e)
      && match o_props e with [] => true | _ => false end
  | ProtoObject =>
      forallb (fun p => encoded (snd p)) (o_props e)
      && match o_items e with [] => true | _ => false end
  | ProtoClass _ _ => false
  end.

(** ** Decoded graphs *)

(** An atom through [handleAtom] and [decode]. *)
Definition roundtrip_atom (R : Resurrect) (v : value) : res value :=
  res_bind (handleAtom R v) (decode_child R []).

Definition decodable (R : Resurrect) (v : value) : bool :=
  match v with
  | VRef _ => true
  | _ => match roundtrip_atom R v with Ok _ => true | _ => false end
  end.

(** The decoded form of a child [v] of the graph: a node becomes the table
    position of its identifier. *)
Definition back (R : Resurrect) (ord : list nat) (v : value) : value :=
  match v with
  | VRef b => VRef (match index_of b ord with Some i => i | None => 0 end)
  | _ => match roundtrip_atom R v with Ok x => x | _ => VUndef end
  end.

Definition back_field (R : Resurrect) (ord : list nat) (p : string * value)
  : string * value := (fst p, back R ord (snd p)).

(** The decoded object of the node [a] with content [o]. *)
Definition decode_node (R : Resurrect) (rep : option closure)
    (ord : list nat) (a : nat) (o : obj) : obj :=
  if isArray_obj o then Obj ProtoArray (map (back R ord) (o_items o)) []
  else Obj (o_proto o) []
         (map (back_field R ord) (replaced_fields rep a (o_props o))).

Definition node_image (R : Resurrect) (rep : option closure) (G : list obj)
    (ord : list nat) (a : nat) : entry :=
  match G !! a with
  | Some o => EObj (decode_node R rep ord a o)
  | None => EAtom VUndef
  end.

(** The heap [resurrect] builds from the table of a run that visited
    [ord]. *)
Definition decode_table (R : Resurrect) (rep : option closure) (G : list obj)
    (ord : list nat) : list entry :=
  map (node_image R rep G ord) ord.

(** Every child the encoder visits decodes. *)
Definition decodable_node (R : Resurrect) (rep : option closure) (a : nat)
    (o : obj) : bool :=
  forallb (decodable R) (kids rep a (_deleteRefcode R o)).

Fixpoint decodable_nodes (R : Resurrect) (rep : option closure) (a : nat)
    (h : list obj) : bool :=
  match h with
  | [] => true
  | o :: h' => decodable_node R rep a o && decodable_nodes R rep (S a) h'
  end.

Definition decodable_heap (R : Resurrect) (rep : option closure)
    (h : list obj) : bool :=
  decodable_nodes R rep 0 h.

(** The table of [resurrect] when the entries before [i] are resolved. *)
Definition partly_resolved (R : Resurrect) (rep : option closure)
    (G : list obj) (ord : list nat) (i : nat) : list entry :=
  imap (fun j a => if decide (j < i) then node_image R rep G ord a
                   else EObj (node_entry R rep G ord a)) ord.

(** The facts [stringify] establishes about the nodes it visited, for a
    graph every child of which decodes. *)
Definition closed_graph (R : Resurrect) (rep : option closure) (G : list obj)
    (ord : list nat) : Prop :=
  forall a, a ∈ ord -> exists o,
    G !! a = Some o /\
    wf_content R rep (length G) a o = true /\
    forallb (decodable R) (kids rep a o) = true /\
    forall b, VRef b ∈ kids rep a o -> b ∈ ord.

(** ** Graphs and their copies *)

(** The nodes the traversal can reach from [root]. *)
Inductive reach (rep : option closure) (G : list obj) (root : nat)
  : nat -> Prop :=
  | reach_root : reach rep G root root
  | reach_step a o b :
      reach rep G root a -> G !! a = Some o -> VRef b ∈ kids rep a o ->
      reach rep G root b.

(** The table position of a visited node. *)
Definition node_index (ord : list nat) (a : nat) : nat :=
  match index_of a ord with Some i => i | None => 0 end.

(** The values the codec reproduces as they are (dates and patterns are
    treated apart). *)
Definition exact_value (v : value) : bool :=
  match v with
  | VUndef | VNull | VBool _ | VNum _ | VStr _ | VNaN | VInf _ | VBigInt _
  | VNode _ | VRef _ => true
  | _ => false
  end.

Definition exact_node (R : Resurrect) (o : obj) : bool :=
  forallb exact_value (o_items o)
  && forallb (fun p => exact_value (snd p)) (del_prop (refcode R) (o_props o)).

Definition exact_heap (R : Resurrect) (h : list obj) : bool :=
  forallb (exact_node R) h.

(** A value, an object with its addresses renamed by [phi]. *)
Definition rename (phi : nat -> nat) (v : value) : value :=
  match v with VRef b => VRef (phi b) | _ => v end.

Definition rename_obj (phi : nat -> nat) (o : obj) : obj :=
  Obj (o_proto o) (map (rename phi) (o_items o))
      (map (fun p => (fst p, rename phi (snd p))) (o_props o)).

(** The fuel a run needs on a heap: the depth of the walk is bounded by the
    number of objects, the depth of the document by five. *)
Definition enough_fuel (h : list obj) (fuel : nat) : Prop :=
  length h < fuel /\ 5 <= fuel.

(** ** Sample inputs *)

(** A codec with the default options ([prefix] ["#"], [cleanup] unset,
    [revive] set) and a resolver over an empty scope. *)
Definition necromancer : Resurrect := default_options (fun _ => None).

(** [[x, x]] with [x = {n: 1}]: the array is at address 0, [x] at 1. *)
Definition shared_pair : list obj :=
  [Obj ProtoArray [VRef 1; VRef 1] []; Obj ProtoObject [] [("n", VNum 1)]].

(** [a] with [a.self = a]. *)
Definition self_loop : list obj :=
  [Obj ProtoObject [] [("self", VRef 0); ("n", VNum 7)]].

(** [{u: undefined, n: null, x: 1}]. *)
Definition sparse_record : list obj :=
  [Obj ProtoObject [] [("u", VUndef); ("n", VNull); ("x", VNum 1)]].

(** [{a: 1, b: 2}] and a replacer that omits the key [b]. *)
Definition two_fields : list obj :=
  [Obj ProtoObject [] [("a", VNum 1); ("b", VNum 2)]].

Definition omit_b : ReplacerFn :=
  fun _ k v => if String.eqb k "b" then VUndef else v.

(** ** The calls a replacer function receives *)

(** One call per own field of the object at [a] whose value is not
    [undefined] and whose key does not start with the prefix. *)
Definition expected_calls (R : Resurrect) (a : nat)
    (ps : list (string * value)) : list call :=
  flat_map (fun p => if isUndefined (snd p) || String.prefix (prefix R) (fst p)
                     then [] else [(VRef a, fst p, snd p)]) ps.

(** The calls for the node [a] of the graph [G]: none for an array. *)
Definition expected_node_calls (R : Resurrect) (G : list obj) (a : nat)
  : list call :=
  match G !! a with
  | Some o => if isArray_obj o then [] else expected_calls R a (o_props o)
  | None => []
  end.

(** ** Failures of the decoder *)

(** The children of a table entry: the values its own keys hold. *)
Definition children (e : entry) : list value :=
  match e with
  | EObj o => o_items o ++ map snd (o_props o)
  | EAtom _ => []
  end.

(** A child shaped like neither a reference nor a builder. *)
Definition malformed (R : Resurrect) (v : value) : bool :=
  match v with
  | VRec fs => negb (has_prop (prefix R) fs) && negb (has_prop (buildcode R) fs)
  | VList _ => true
  | _ => false
  end.

(** An entry tagged with a type name the resolver's scope does not have. *)
Definition unknown_type (R : Resurrect) (e : entry) : bool :=
  match e with
  | EObj o =>
      match get_prop (prefix R) (o_props o) with
      | Some (VStr name) =>
          match scope R name with None => true | Some _ => false end
      | _ => false
      end
  | EAtom _ => false
  end.

(** The values [JSON.parse] produces. *)
Definition parsed (v : value) : bool :=
  match v with
  | VNull | VBool _ | VNum _ | VStr _ | VRec _ | VList _ => true
  | _ => false
  end.

(** The call raised an exception; the call returned or raised one. *)
Definition throws {A} (r : res A) : bool :=
  match r with Throw _ => true | _ => false end.

Definition decided {A} (r : res A) : bool :=
  match r with Ok _ | Throw _ => true | _ => false end.

(** ** Further sample inputs *)

(** The same codec with the option [cleanup] set. *)
Definition tidy_necromancer : Resurrect :=
  {| prefix := "#"; cleanup := true; revive := true; scope := fun _ => None |}.

(** A text without line terminators, as the source of a RegExp is. *)
Definition single_line (s : string) : bool :=
  forallb (fun c => negb (is_line_terminator c)) (list_ascii_of_string s).

(** A scope with one constructor, [Foo]; the codec with that scope, with
    the default options and with [revive] unset; and [new Foo()] with two
    fields. *)
Definition foo_scope : string -> option proto :=
  fun name => if String.eqb name "Foo" then Some (ProtoClass "Foo" 1) else None.

Definition foo_necromancer : Resurrect := default_options foo_scope.

Definition plain_necromancer : Resurrect :=
  {| prefix := "#"; cleanup := false; revive := false; scope := foo_scope |}.

Definition a_foo : list obj :=
  [Obj (ProtoClass "Foo" 1) [] [("x", VNum 1); ("u", VUndef)]].

(** The heap [resurrect] leaves: the objects of its table, at their
    positions. *)
Definition entry_heap (D : list entry) : list obj :=
  map (fun e => match e with EObj o => o | EAtom _ => Obj ProtoObject [] [] end)
      D.

(** A replacer that doubles the numbers. *)
Definition double_numbers : ReplacerFn :=
  fun _ _ v => match v with VNum n => VNum (2 * n) | _ => v end.

(** A child the codec gives back as it was: a node, or an atom whose
    encoding decodes to the atom itself. *)
Definition reproduced (R : Resurrect) (v : value) : Prop :=
  match v with VRef _ => True | _ => roundtrip_atom R v = Ok v end.

(** [{when: new Date(1700000000123), re: /a+/gi, big: 2n ** 70n}]. *)
Definition dated_record : list obj :=
  [Obj ProtoObject []
     [("when", VDate (Some 1700000000123%Z)); ("re", VRegExp "a+" "gi");
      ("big", VBigInt (2 ^ 70)%Z)]].

(** ** Keys the walk does not carry

    [visit] asks [root.hasOwnProperty(key)] and assigns [copy[key]]: an own
    key named [hasOwnProperty] shadows the method it calls, and an own key
    named [__proto__] reaches the inherited setter instead of becoming a
    property of the copy.  The embedding takes every key for a data key; the
    graphs it is exact for are those without these two names. *)
Definition ordinary_key (p : string * value) : bool :=
  negb (String.eqb (fst p) "__proto__")
  && negb (String.eqb (fst p) "hasOwnProperty").

Definition ordinary_keys (h : list obj) : bool :=
  forallb (fun o => forallb ordinary_key (o_props o)) h.

(** * Checks of the host conversions on concrete inputs *)

Local Open Scope Z_scope.

Example date_epoch_text :
  date_toISOString (Some 0) = Some "1970-01-01T00:00:00.000Z".
Proof. reflexivity. Qed.

Example date_text_2024 :
  date_toISOString (Some 1709210096789) = Some "2024-02-29T12:34:56.789Z"
  /\ date_parse "2024-02-29T12:34:56.789Z" = Some 1709210096789.
Proof. split; vm_compute; reflexivity. Qed.

Example date_text_negative_year :
  date_toISOString (Some (-62167219200001)) = Some "-000001-12-31T23:59:59.999Z"
  /\ date_parse "-000001-12-31T23:59:59.999Z" = Some (-62167219200001).
Proof. split; vm_compute; reflexivity. Qed.

Example regexp_match_plain :
  regexp_literal_match (regexp_toString "a\/b" "gi") = Some ("a\/b", "gi").
Proof. reflexivity. Qed.

Local Close Scope Z_scope.

(** * Reasoning about runs *)

(** ** The monad *)

Lemma bind_ok {A B} (m : M A) (k : A -> M B) s a s' :
  m s = Ok (a, s') -> bind m k s = k a s'.
Proof. intros H. unfold bind. rewrite H. reflexivity. Qed.

Lemma bind_assoc {A B C} (m : M A) (k1 : A -> M B) (k2 : B -> M C) s :
  bind (bind m k1) k2 s = bind m (fun x => bind (k1 x) k2) s.
Proof. unfold bind. destruct (m s) as [[a s']| | |]; reflexivity. Qed.

Lemma call_replacer_spec rep a k v sc :
  exists il,
    call_replacer rep a k v sc =
    Ok (replaced rep a k v,
        State (heap sc) (table sc) (invoked sc ++ il)
              (user_calls sc ++ field_calls rep a [(k, v)])).
Proof.
  unfold call_replacer, replaced, field_calls. destruct rep as [r|]; simpl.
  - destruct (isUndefined v) eqn:E.
    + exists []. unfold ret. rewrite !app_nil_r. destruct sc; reflexivity.
    + destruct (r (VRef a) k v) as [v' ucs] eqn:Er. simpl.
      exists [(VRef a, k, v)]. unfold bind, log_invoked, log_user, ret. simpl.
      rewrite app_nil_r. reflexivity.
  - exists []. unfold ret. rewrite !app_nil_r. destruct sc; reflexivity.
Qed.


(** ** Relations every step of a run preserves *)

Section Keeps.
Variable P : state -> state -> Prop.
Hypothesis P_refl : forall s, P s s.
Hypothesis P_trans : forall s1 s2 s3, P s1 s2 -> P s2 s3 -> P s1 s3.

Lemma keeps_ret {A} (a : A) : keeps P (ret a).
Proof. intros s b s' H. inversion H; subst. apply P_refl. Qed.

Lemma keeps_lift {A} (r : res A) : keeps P (lift r).
Proof.
  intros s b s' H. unfold lift in H. destruct r; simpl in H; try discriminate.
  inversion H; subst. apply P_refl.
Qed.

Lemma keeps_throw {A} (msg : string) : keeps P (@throw A msg).
Proof. intros s b s' H. discriminate. Qed.

Lemma keeps_bind {A B} (m : M A) (k : A -> M B) :
  keeps P m -> (forall a, keeps P (k a)) -> keeps P (bind m k).
Proof.
  intros Hm Hk s b s' H. unfold bind in H.
  destruct (m s) as [[a s1]| | |] eqn:E; try discriminate.
  eapply P_trans; [eapply Hm; eauto | eapply Hk; eauto].
Qed.

Lemma keeps_for_each {A} (body : A -> M unit) (l : list A) :
  (forall x, keeps P (body x)) -> keeps P (for_each body l).
Proof.
  intros Hb. induction l as [|x l IH]; simpl.
  - apply keeps_ret.
  - apply keeps_bind; [apply Hb | intros _; apply IH].
Qed.

Lemma keeps_load a : keeps P (load a).
Proof.
  intros s o s' H. unfold load in H.
  destruct (heap s !! a); inversion H; subst. apply P_refl.
Qed.

Lemma keeps_load_copy i : keeps P (load_copy i).
Proof.
  intros s o s' H. unfold load_copy in H.
  destruct (table s !! i); inversion H; subst. apply P_refl.
Qed.

Lemma keeps_table_length : keeps P table_length.
Proof. intros s o s' H. inversion H; subst. apply P_refl. Qed.
End Keeps.

(** ** Every step of the encoder preserves a relation its primitives do *)

Section KeepsRun.
Variable R : Resurrect.
Variable P : state -> state -> Prop.
Hypothesis P_refl : forall s, P s s.
Hypothesis P_trans : forall s1 s2 s3, P s1 s2 -> P s2 s3 -> P s1 s3.
Hypothesis P_update : forall a f,
  (forall o, _deleteRefcode R (f o) = _deleteRefcode R o) ->
  keeps P (update a f).
Hypothesis P_update_copy : forall i f, keeps P (update_copy i f).
Hypothesis P_log_user : forall cs, keeps P (log_user cs).
Hypothesis P_call_replacer : forall rep a k v,
  keeps P (call_replacer rep a k v).
Hypothesis P_locate : forall v, keeps P (locate v).
Hypothesis P_push : forall s c,
  P s (State (heap s) (table s ++ [c]) (invoked s) (user_calls s)).

Local Ltac keep :=
  lazymatch goal with
  | |- keeps _ (bind _ _) => apply keeps_bind; [assumption | keep | intros ?; keep]
  | |- keeps _ (ret _) => apply keeps_ret; assumption
  | |- keeps _ (lift _) => apply keeps_lift; assumption
  | |- keeps _ (throw _) => apply keeps_throw
  | |- keeps _ (load _) => apply keeps_load; assumption
  | |- keeps _ (load_copy _) => apply keeps_load_copy; assumption
  | |- keeps _ table_length => apply keeps_table_length; assumption
  | |- keeps _ (update_copy _ _) => apply P_update_copy
  | |- keeps _ (log_user _) => apply P_log_user
  | |- keeps _ (call_replacer _ _ _ _) => apply P_call_replacer
  | |- keeps _ (locate _) => apply P_locate
  | |- keeps _ (for_each _ _) => apply keeps_for_each; try assumption; intros ?; keep
  | |- keeps _ (match ?x with _ => _ end) => destruct x; keep
  | |- _ => idtac
  end.

Lemma keeps_tag (object : obj) : keeps P (tag R object).
Proof.
  unfold tag. keep.
  intros s v s' H. inversion H; subst. apply P_push.
Qed.

Lemma del_set_prop k v ps : del_prop k (set_prop k v ps) = del_prop k ps.
Proof.
  induction ps as [|[k' v'] ps IH]; simpl.
  - rewrite String.eqb_refl. reflexivity.
  - destruct (String.eqb k' k) eqn:E; simpl.
    + rewrite String.eqb_refl. reflexivity.
    + rewrite E, IH. reflexivity.
Qed.

Lemma del_del_prop k ps : del_prop k (del_prop k ps) = del_prop k ps.
Proof.
  induction ps as [|[k' v'] ps IH]; simpl; auto.
  destruct (String.eqb k' k) eqn:E; simpl; auto. rewrite E, IH. reflexivity.
Qed.

Lemma strip_setRefcode v o :
  _deleteRefcode R (_setRefcode R v o) = _deleteRefcode R o.
Proof.
  unfold _deleteRefcode, _setRefcode, obj_del, obj_set. simpl.
  rewrite del_set_prop. reflexivity.
Qed.

Lemma strip_setRefcodeNull o :
  _deleteRefcode R (_setRefcodeNull R o) = _deleteRefcode R o.
Proof. apply strip_setRefcode. Qed.

Lemma strip_deleteRefcode o :
  _deleteRefcode R (_deleteRefcode R o) = _deleteRefcode R o.
Proof.
  unfold _deleteRefcode, obj_del. simpl. rewrite del_del_prop. reflexivity.
Qed.

Lemma keeps_visit f replacer fuel :
  forall root, keeps P (visit R f replacer fuel root).
Proof.
  induction fuel as [|fuel IH]; intros root; simpl.
  - intros s a s' H. discriminate.
  - unfold visit_element, visit_property.
    keep; try apply keeps_tag; try apply IH;
      apply P_update; intros; apply strip_setRefcode.
Qed.

Lemma keeps_release i : keeps P (release R i).
Proof.
  unfold release. keep.
  apply P_update. intros o. destruct (cleanup R).
  - apply strip_deleteRefcode.
  - apply strip_setRefcodeNull.
Qed.

Lemma keeps_ser_fields recur fs :
  (forall k x, keeps P (recur k x)) -> keeps P (ser_fields recur fs).
Proof.
  intros H. induction fs as [|[k x] fs IH]; simpl; keep; auto.
Qed.

Lemma keeps_ser_items recur xs :
  (forall k x, keeps P (recur k x)) -> forall i, keeps P (ser_items recur i xs).
Proof.
  intros H. induction xs as [|x xs IH]; intros i; simpl; keep; auto.
Qed.

Lemma keeps_json_ser rep fuel :
  forall holder key v, keeps P (json_ser rep fuel holder key v).
Proof.
  induction fuel as [|fuel IH]; intros holder key v; simpl.
  - intros s a s' H. discriminate.
  - keep; try apply keeps_ser_fields; try apply keeps_ser_items; auto.
Qed.

Lemma keeps_stringify_run fuel object replacer :
  keeps P (stringify_run R fuel object replacer).
Proof.
  unfold stringify_run. destruct (isAtom object); keep.
  - apply keeps_json_ser.
  - apply keeps_visit.
  - apply keeps_release.
  - intros s a2 s' H. eapply keeps_json_ser; eauto.
Qed.

End KeepsRun.

(** ** The encoder only touches the reference code of the caller's objects *)

Lemma map_alter_same {A B} (g : A -> B) (f : A -> A) (i : nat) (l : list A) :
  (forall x, g (f x) = g x) -> map g (alter f i l) = map g l.
Proof.
  intros Hg. revert i. induction l as [|x l IH]; intros [|i]; cbn; auto.
  - rewrite Hg. reflexivity.
  - f_equal. apply IH.
Qed.

Lemma heap_frame_refl R s : heap_frame R s s.
Proof. exists []. rewrite app_nil_r. reflexivity. Qed.

Lemma heap_frame_same R s s' : heap s' = heap s -> heap_frame R s s'.
Proof. intros E. exists []. rewrite E, app_nil_r. reflexivity. Qed.

Lemma heap_frame_trans R s1 s2 s3 :
  heap_frame R s1 s2 -> heap_frame R s2 s3 -> heap_frame R s1 s3.
Proof.
  intros [e1 H1] [e2 H2]. exists (e1 ++ e2).
  rewrite H2, H1, app_assoc. reflexivity.
Qed.

Lemma stringify_run_frame R fuel object replacer :
  keeps (heap_frame R) (stringify_run R fuel object replacer).
Proof.
  apply keeps_stringify_run.
  - apply heap_frame_refl.
  - apply heap_frame_trans.
  - intros a f Hf s [] s' H. unfold update in H.
    destruct (heap s !! a); inversion H; subst; simpl.
    exists []. unfold user_view. simpl.
    rewrite map_alter_same by exact Hf. rewrite app_nil_r. reflexivity.
  - intros i f s [] s' H. unfold update_copy in H.
    destruct (table s !! i); inversion H; subst. apply heap_frame_same; auto.
  - intros cs s [] s' H. inversion H; subst. apply heap_frame_same; auto.
  - intros rep a k v s x s' H.
    destruct (call_replacer_spec rep a k v s) as [il E].
    rewrite E in H. inversion H; subst. apply heap_frame_same; auto.
  - intros v s a s' H. unfold locate in H.
    destruct v; inversion H; subst; simpl; try apply heap_frame_refl.
    + eexists. unfold user_view. simpl. rewrite map_app. reflexivity.
    + eexists. unfold user_view. simpl. rewrite map_app. reflexivity.
  - intros s c. apply heap_frame_same; auto.
Qed.

(** ** Property lists *)

Lemma get_set_prop_eq k v ps : get_prop k (set_prop k v ps) = Some v.
Proof.
  induction ps as [|[k' v'] ps IH]; simpl.
  - rewrite String.eqb_refl. reflexivity.
  - destruct (String.eqb k' k) eqn:E; simpl.
    + rewrite String.eqb_refl. reflexivity.
    + rewrite E. exact IH.
Qed.

Lemma get_set_prop_ne k k' v ps :
  k' <> k -> get_prop k' (set_prop k v ps) = get_prop k' ps.
Proof.
  intros Hne. induction ps as [|[k2 v2] ps IH]; simpl.
  - destruct (String.eqb k k') eqn:E; auto.
    apply String.eqb_eq in E. congruence.
  - destruct (String.eqb k2 k) eqn:E; simpl.
    + apply String.eqb_eq in E. subst k2.
      destruct (String.eqb k k') eqn:E2; auto.
      apply String.eqb_eq in E2. congruence.
    + rewrite IH. reflexivity.
Qed.

Lemma set_prop_fresh k v ps :
  get_prop k ps = None -> set_prop k v ps = ps ++ [(k, v)].
Proof.
  induction ps as [|[k' v'] ps IH]; simpl; auto.
  destruct (String.eqb k' k); [discriminate|].
  intros H. rewrite IH by exact H. reflexivity.
Qed.

Lemma get_prop_app k ps qs :
  get_prop k (ps ++ qs) =
  match get_prop k ps with Some v => Some v | None => get_prop k qs end.
Proof.
  induction ps as [|[k' v'] ps IH]; simpl; auto.
  destruct (String.eqb k' k); auto.
Qed.

Lemma get_prop_map_enc (g : string * value -> string * value) k ps :
  (forall p, fst (g p) = fst p) ->
  get_prop k ps = None -> get_prop k (map g ps) = None.
Proof.
  intros Hg. induction ps as [|[k' v'] ps IH]; simpl; auto.
  specialize (Hg (k', v')). destruct (g (k', v')) as [k2 v2]. simpl in Hg.
  subst k2. destruct (String.eqb k' k); [discriminate | exact IH].
Qed.

Lemma del_prop_fresh k ps : get_prop k ps = None -> del_prop k ps = ps.
Proof.
  induction ps as [|[k' v'] ps IH]; simpl; auto.
  destruct (String.eqb k' k); [discriminate|].
  intros H. rewrite IH by exact H. reflexivity.
Qed.

Lemma del_prop_app k ps qs :
  del_prop k (ps ++ qs) = del_prop k ps ++ del_prop k qs.
Proof.
  induction ps as [|[k' v'] ps IH]; simpl; auto.
  destruct (String.eqb k' k); simpl; rewrite IH; reflexivity.
Qed.

Lemma get_del_prop_eq k ps : get_prop k (del_prop k ps) = None.
Proof.
  induction ps as [|[k' v'] ps IH]; simpl; auto.
  destruct (String.eqb k' k) eqn:E; simpl; auto. rewrite E. exact IH.
Qed.

Lemma get_del_prop_ne k k' ps :
  k' <> k -> get_prop k' (del_prop k ps) = get_prop k' ps.
Proof.
  intros Hne. induction ps as [|[k2 v2] ps IH]; simpl; auto.
  destruct (String.eqb k2 k) eqn:E; simpl.
  - apply String.eqb_eq in E. subst k2.
    destruct (String.eqb k k') eqn:E2; auto.
    apply String.eqb_eq in E2. congruence.
  - rewrite IH. reflexivity.
Qed.

Lemma has_prop_false k ps : has_prop k ps = false <-> get_prop k ps = None.
Proof. unfold has_prop. destruct (get_prop k ps); split; congruence. Qed.

Lemma has_prop_true k ps :
  has_prop k ps = true <-> exists v, get_prop k ps = Some v.
Proof.
  unfold has_prop. destruct (get_prop k ps); split; try congruence; eauto.
  intros [v H]. discriminate.
Qed.

Lemma nodup_keys_set k v ps :
  nodup_keys ps = true -> nodup_keys (set_prop k v ps) = true.
Proof.
  induction ps as [|[k' v'] ps IH]; simpl; auto.
  intros H. apply andb_true_iff in H as [H1 H2].
  destruct (String.eqb k' k) eqn:E; simpl.
  - apply String.eqb_eq in E. subst k'. rewrite H1, H2. reflexivity.
  - rewrite IH by exact H2. rewrite andb_true_r.
    apply negb_true_iff, has_prop_false.
    apply negb_true_iff, has_prop_false in H1.
    rewrite get_set_prop_ne; auto.
    intros ->. rewrite String.eqb_refl in E. discriminate.
Qed.


(** ** The code keys *)

Lemma append_inj_l (p a b : string) : (p ++ a = p ++ b)%string -> a = b.
Proof. induction p; simpl; intros H; [auto | inversion H; auto]. Qed.

Lemma prefix_append (p a : string) : String.prefix p (p ++ a)%string = true.
Proof.
  induction p as [|c p IH]; simpl.
  - destruct a; reflexivity.
  - destruct (Ascii.ascii_dec c c); [exact IH | congruence].
Qed.

Lemma prefix_self (p : string) : String.prefix p p = true.
Proof.
  induction p as [|c p IH]; simpl; auto.
  destruct (Ascii.ascii_dec c c); [exact IH | congruence].
Qed.

Lemma refcode_origcode R : refcode R <> origcode R.
Proof. intros H. apply append_inj_l in H. discriminate. Qed.

Lemma append_self (p a : string) : (p ++ a)%string = p -> a = EmptyString.
Proof. induction p; simpl; intros H; [auto | inversion H; auto]. Qed.

Lemma refcode_prefix R : refcode R <> prefix R.
Proof. intros H. apply append_self in H. discriminate. Qed.

Lemma buildcode_prefix R : buildcode R <> prefix R.
Proof. intros H. apply append_self in H. discriminate. Qed.

Lemma valuecode_prefix R : valuecode R <> prefix R.
Proof. intros H. apply append_self in H. discriminate. Qed.

Lemma buildcode_valuecode R : buildcode R <> valuecode R.
Proof. intros H. apply append_inj_l in H. discriminate. Qed.

Lemma free_key_not_code R k v (x : string) :
  free_key R (k, v) = true -> k <> (prefix R ++ x)%string.
Proof.
  unfold free_key. simpl. intros H ->. rewrite prefix_append in H.
  discriminate.
Qed.

Lemma free_key_not_prefix R k v : free_key R (k, v) = true -> k <> prefix R.
Proof.
  unfold free_key. simpl. intros H ->. rewrite prefix_self in H.
  discriminate.
Qed.

(** ** Identifiers *)

Lemma index_of_lookup a ord i : index_of a ord = Some i -> ord !! i = Some a.
Proof.
  revert i. induction ord as [|b ord IH]; simpl; intros i H; [discriminate|].
  destruct (Nat.eqb a b) eqn:E.
  - apply Nat.eqb_eq in E. inversion H; subst. reflexivity.
  - destruct (index_of a ord) as [j|]; inversion H; subst. simpl. auto.
Qed.

Lemma index_of_elem a ord : a ∈ ord -> exists i, index_of a ord = Some i.
Proof.
  induction ord as [|b ord IH]; intros H.
  - inversion H.
  - simpl. destruct (Nat.eqb a b) eqn:E; eauto.
    apply Nat.eqb_neq in E.
    apply elem_of_cons in H as [H|H]; [congruence|].
    destruct (IH H) as [i Hi]. rewrite Hi. eauto.
Qed.

Lemma index_of_None a ord : index_of a ord = None -> a ∉ ord.
Proof.
  intros H Hin. apply index_of_elem in Hin as [i Hi]. congruence.
Qed.

Lemma index_of_fresh a ord : a ∉ ord -> index_of a ord = None.
Proof.
  intros H. destruct (index_of a ord) as [i|] eqn:E; auto.
  exfalso. apply H. eapply list_elem_of_lookup_2, index_of_lookup; eauto.
Qed.

Lemma index_of_app_l a ord more i :
  index_of a ord = Some i -> index_of a (ord ++ more) = Some i.
Proof.
  revert i. induction ord as [|b ord IH]; simpl; intros i H; [discriminate|].
  destruct (Nat.eqb a b); auto.
  destruct (index_of a ord) as [j|]; inversion H; subst.
  rewrite (IH j); auto.
Qed.

Lemma index_of_app_fresh a ord more :
  a ∉ ord -> index_of a (ord ++ a :: more) = Some (length ord).
Proof.
  induction ord as [|b ord IH]; simpl; intros H.
  - rewrite Nat.eqb_refl. reflexivity.
  - apply not_elem_of_cons in H as [H1 H2].
    apply Nat.eqb_neq in H1. rewrite H1, IH; auto.
Qed.

Lemma index_of_nodup a ord i :
  NoDup ord -> ord !! i = Some a -> index_of a ord = Some i.
Proof.
  intros Hnd. revert i. induction Hnd as [|b ord Hb Hnd IH]; intros i H.
  - discriminate.
  - destruct i as [|i]; simpl in *.
    + inversion H; subst. rewrite Nat.eqb_refl. reflexivity.
    + destruct (Nat.eqb a b) eqn:E.
      * apply Nat.eqb_eq in E. subst. exfalso. apply Hb.
        eapply list_elem_of_lookup_2; eauto.
      * rewrite (IH i); auto.
Qed.

Lemma enc_stable R ord more v :
  (forall b, v = VRef b -> b ∈ ord) -> enc R (ord ++ more) v = enc R ord v.
Proof.
  intros H. destruct v; simpl; auto.
  destruct (index_of_elem a ord (H a eq_refl)) as [i Hi].
  rewrite Hi, (index_of_app_l _ _ _ _ Hi). reflexivity.
Qed.

Lemma map_enc_stable R ord more vs :
  (forall b, VRef b ∈ vs -> b ∈ ord) ->
  map (enc R (ord ++ more)) vs = map (enc R ord) vs.
Proof.
  intros H. induction vs as [|v vs IH]; simpl; auto.
  rewrite enc_stable, IH; auto.
  - intros b Hb. apply H. right. exact Hb.
  - intros b ->. apply H. left.
Qed.

Lemma map_enc_field_stable R ord more ps :
  (forall b, VRef b ∈ map snd ps -> b ∈ ord) ->
  map (enc_field R (ord ++ more)) ps = map (enc_field R ord) ps.
Proof.
  intros H. induction ps as [|[k v] ps IH]; simpl; auto.
  unfold enc_field at 1 3. simpl. rewrite enc_stable, IH; auto.
  - intros b Hb. apply H. simpl. right. exact Hb.
  - intros b ->. apply H. simpl. left.
Qed.

Lemma copy_node_stable R rep ord more id a o :
  (forall b, VRef b ∈ kids rep a o -> b ∈ ord) ->
  copy_node R rep (ord ++ more) id a o = copy_node R rep ord id a o.
Proof.
  intros H. unfold copy_node, encode_node, kids in *.
  destruct (isArray_obj o); simpl.
  - rewrite map_enc_stable; auto.
  - rewrite map_enc_field_stable; auto.
Qed.

Lemma finished_mono R rep G ord more base new newT :
  finished R rep G ord base new newT ->
  finished R rep G (ord ++ more) base new newT.
Proof.
  intros [Hl H]. split; [exact Hl|]. intros j a Hj.
  destruct (H j a Hj) as (o & Ho & Hc & Hk).
  exists o. split; [exact Ho|]. split.
  - rewrite copy_node_stable; auto.
  - intros b Hb. apply elem_of_app. left. auto.
Qed.

Lemma finished_app R rep G ord base n1 t1 n2 t2 :
  finished R rep G ord base n1 t1 ->
  finished R rep G ord (base + length n1) n2 t2 ->
  finished R rep G ord base (n1 ++ n2) (t1 ++ t2).
Proof.
  intros [L1 H1] [L2 H2]. split.
  - rewrite !length_app. lia.
  - intros j a Hj. apply lookup_app_Some in Hj as [Hj|[Hge Hj]].
    + destruct (H1 j a Hj) as (o & Ho & Hc & Hk). exists o.
      repeat split; auto. rewrite lookup_app_l; auto.
      rewrite L1. eapply lookup_lt_Some; eauto.
    + destruct (H2 _ a Hj) as (o & Ho & Hc & Hk). exists o.
      repeat split; auto. rewrite lookup_app_r by lia.
      rewrite L1. rewrite Hc. do 2 f_equal. lia.
Qed.

(** ** Stamping *)

Lemma length_stamp R k new h : length (stamp R k new h) = length h.
Proof.
  revert k h. induction new as [|a new IH]; intros k h; simpl; auto.
  rewrite IH, length_alter. reflexivity.
Qed.

Lemma stamp_app R k n1 n2 h :
  stamp R k (n1 ++ n2) h = stamp R (k + length n1) n2 (stamp R k n1 h).
Proof.
  revert k h. induction n1 as [|a n1 IH]; intros k h; simpl.
  - rewrite Nat.add_0_r. reflexivity.
  - rewrite IH. f_equal. lia.
Qed.

Lemma stamp_lookup_other R k new h a :
  a ∉ new -> stamp R k new h !! a = h !! a.
Proof.
  revert k h. induction new as [|b new IH]; intros k h H; simpl; auto.
  apply not_elem_of_cons in H as [H1 H2].
  rewrite IH by exact H2. apply list_lookup_alter_ne. congruence.
Qed.

(** ** The invariant *)

Lemma getRefcode_setRefcode R v o : _getRefcode R (_setRefcode R v o) = v.
Proof.
  unfold _getRefcode, _setRefcode, obj_set, read_prop. simpl.
  rewrite get_set_prop_eq. reflexivity.
Qed.

Lemma inv_same R rep G ord s s' :
  inv R rep G ord s -> heap s' = heap s ->
  length (table s') = length (table s) -> inv R rep G ord s'.
Proof.
  intros [] Hh Ht. constructor; rewrite ?Hh, ?Ht; auto.
Qed.

Lemma inv_bound R rep G ord s a :
  inv R rep G ord s -> a ∈ ord -> a < length (heap s).
Proof.
  intros Hi Ha. apply list_elem_of_lookup in Ha as [i Ha].
  destruct (inv_tag _ _ _ _ _ Hi i a Ha) as (o & Ho & _).
  eapply lookup_lt_Some; eauto.
Qed.

Lemma inv_length R rep G ord s :
  inv R rep G ord s -> length ord <= length (heap s).
Proof.
  intros Hi.
  assert (H : ord ⊆+ seq 0 (length (heap s))).
  { apply NoDup_submseteq; [eapply inv_nodup; eauto|].
    intros a Ha. apply elem_of_seq. split; [lia|].
    simpl. eapply inv_bound; eauto. }
  apply submseteq_length in H. rewrite length_seq in H. exact H.
Qed.

Lemma inv_tagged R rep G ord s a o :
  inv R rep G ord s -> heap s !! a = Some o -> isTagged R o = true ->
  exists i, index_of a ord = Some i /\ _getRefcode R o = VNum (Z.of_nat i).
Proof.
  intros Hi Ho Ht.
  pose proof (inv_untag _ _ _ _ _ Hi a o Ho Ht) as Ha.
  destruct (index_of_elem a ord Ha) as [i Hidx]. exists i. split; auto.
  destruct (inv_tag _ _ _ _ _ Hi i a (index_of_lookup _ _ _ Hidx))
    as (o' & Ho' & Hr).
  congruence.
Qed.

Lemma inv_untagged_fresh R rep G ord s a o :
  inv R rep G ord s -> heap s !! a = Some o -> isTagged R o = false ->
  a ∉ ord.
Proof.
  intros Hi Ho Ht Ha. apply list_elem_of_lookup in Ha as [i Ha].
  destruct (inv_tag _ _ _ _ _ Hi i a Ha) as (o' & Ho' & Hr).
  assert (o' = o) by congruence. subst o'.
  unfold isTagged in Ht. rewrite Hr in Ht. discriminate.
Qed.

Lemma inv_view_lookup R rep G ord s a o :
  inv R rep G ord s -> heap s !! a = Some o ->
  G !! a = Some (_deleteRefcode R o).
Proof.
  intros Hi Ho. rewrite <- (inv_view _ _ _ _ _ Hi). unfold user_view.
  rewrite list_lookup_fmap, Ho. reflexivity.
Qed.

Lemma inv_visit_node R rep G ord s a o c :
  inv R rep G ord s -> heap s !! a = Some o -> isTagged R o = false ->
  inv R rep G (ord ++ [a])
    (State (alter (_setRefcode R (VNum (Z.of_nat (length (table s))))) a
              (heap s))
           (table s ++ [c]) (invoked s) (user_calls s)).
Proof.
  intros Hi Ho Ht.
  pose proof (inv_untagged_fresh _ _ _ _ _ _ _ Hi Ho Ht) as Hfresh.
  destruct Hi as [Hv Hl Hnd Htag Hun Hk Hwf]. constructor; simpl.
  - unfold user_view. rewrite map_alter_same; auto.
    intros. apply strip_setRefcode.
  - rewrite !length_app. simpl. lia.
  - apply NoDup_app. repeat split; auto.
    + intros x Hx Hx'. apply list_elem_of_singleton in Hx'. subst. auto.
    + apply NoDup_singleton.
  - intros i b Hb. apply lookup_app_Some in Hb as [Hb|[Hge Hb]].
    + destruct (Htag i b Hb) as (o' & Ho' & Hr). exists o'. split; auto.
      rewrite list_lookup_alter_ne; auto. intros ->. apply Hfresh.
      eapply list_elem_of_lookup_2; eauto.
    + apply list_lookup_singleton_Some in Hb as [Hz ->].
      exists (_setRefcode R (VNum (Z.of_nat (length (table s)))) o). split.
      * rewrite list_lookup_alter_eq, Ho. reflexivity.
      * rewrite getRefcode_setRefcode. do 2 f_equal. lia.
  - intros b o' Hb Htb. destruct (decide (b = a)) as [->|Hne].
    + apply elem_of_app. right. left.
    + rewrite list_lookup_alter_ne in Hb by congruence.
      apply elem_of_app. left. eauto.
  - intros b o' Hb. destruct (decide (b = a)) as [->|Hne].
    + rewrite list_lookup_alter_eq, Ho in Hb. inversion Hb; subst. simpl.
      apply nodup_keys_set. eauto.
    + rewrite list_lookup_alter_ne in Hb by congruence. eauto.
  - exact Hwf.
Qed.

(** ** Loops that make progress *)

Lemma for_each_inv {A} (body : A -> M unit)
    (I : list A -> state -> Prop) (l : list A) (s : state) :
  I [] s ->
  (forall pre x post s1, l = pre ++ x :: post -> I pre s1 ->
     exists s2, body x s1 = Ok (tt, s2) /\ I (pre ++ [x]) s2) ->
  exists s', for_each body l s = Ok (tt, s') /\ I l s'.
Proof.
  revert I s. induction l as [|x l IH]; intros I s H0 Hstep; simpl.
  - exists s. split; auto.
  - destruct (Hstep [] x l s eq_refl H0) as (s2 & Hb & Hi).
    unfold bind. rewrite Hb.
    destruct (IH (fun pre => I (x :: pre)) s2 Hi) as (s' & Hf & Hi').
    + intros pre y post s1 -> Hpre.
      apply (Hstep (x :: pre) y post s1 eq_refl Hpre).
    + exists s'. split; auto.
Qed.

Lemma for_each_map {A B} (g : A -> B) (body : B -> M unit) (l : list A) :
  for_each body (map g l) = for_each (fun x => body (g x)) l.
Proof. induction l as [|x l IH]; simpl; [auto | rewrite IH; auto]. Qed.

(** ** Steps of [visit] *)

Lemma tag_plain R c s :
  plain c = true ->
  tag R c s =
  Ok (VNum (Z.of_nat (length (table s))),
      State (heap s)
            (table s ++ [_setRefcode R (VNum (Z.of_nat (length (table s)))) c])
            (invoked s) (user_calls s)).
Proof.
  intros Hp. unfold tag, bind, getName, plain in *.
  destruct (revive R); simpl; [|reflexivity].
  destruct (o_proto c); simpl; try reflexivity. discriminate.
Qed.

Lemma nodup_keys_mid pre k v post :
  nodup_keys (pre ++ (k, v) :: post) = true ->
  get_prop k (pre ++ (k, v) :: post) = Some v /\ get_prop k pre = None.
Proof.
  induction pre as [|[k' v'] pre IH]; simpl; intros H.
  - rewrite String.eqb_refl. auto.
  - apply andb_true_iff in H as [H1 H2].
    apply negb_true_iff, has_prop_false in H1.
    destruct (String.eqb k' k) eqn:E.
    + apply String.eqb_eq in E. subst k'.
      rewrite get_prop_app in H1. destruct (get_prop k pre); [discriminate|].
      simpl in H1. rewrite String.eqb_refl in H1. discriminate.
    + apply IH. exact H2.
Qed.

Lemma replaced_fields_app rep a ps qs :
  replaced_fields rep a (ps ++ qs) =
  replaced_fields rep a ps ++ replaced_fields rep a qs.
Proof.
  induction ps as [|[k v] ps IH]; simpl; auto.
  destruct (replaced rep a k v); simpl; rewrite IH; reflexivity.
Qed.

Lemma field_calls_app rep a ps qs :
  field_calls rep a (ps ++ qs) = field_calls rep a ps ++ field_calls rep a qs.
Proof.
  unfold field_calls. destruct rep; auto. apply flat_map_app.
Qed.

Lemma get_prop_replaced_fields rep a k ps :
  get_prop k ps = None -> get_prop k (replaced_fields rep a ps) = None.
Proof.
  induction ps as [|[k' v'] ps IH]; simpl; auto.
  destruct (String.eqb k' k) eqn:E; [discriminate|]. intros H.
  destruct (replaced rep a k' v'); simpl; auto. rewrite E. auto.
Qed.

Lemma get_prop_enc_fields R ord k ps :
  get_prop k ps = None -> get_prop k (map (enc_field R ord) ps) = None.
Proof. apply get_prop_map_enc. intros [k' v']. reflexivity. Qed.

Lemma get_prop_del_None k k' ps :
  get_prop k ps = None -> get_prop k (del_prop k' ps) = None.
Proof.
  induction ps as [|[k2 v2] ps IH]; simpl; auto.
  destruct (String.eqb k2 k) eqn:E; [discriminate|]. intros H.
  destruct (String.eqb k2 k'); simpl; auto. rewrite E. auto.
Qed.

Lemma get_prop_free R k ps :
  String.prefix (prefix R) k = true ->
  forallb (free_key R) ps = true -> get_prop k ps = None.
Proof.
  intros Hk. induction ps as [|[k' v'] ps IH]; simpl; auto.
  intros H. apply andb_true_iff in H as [H1 H2].
  destruct (String.eqb k' k) eqn:E; auto.
  apply String.eqb_eq in E. subst k'. unfold free_key in H1. simpl in H1.
  rewrite Hk in H1. discriminate.
Qed.

Lemma forallb_replaced_fields_keys R rep a ps :
  forallb (free_key R) ps = true ->
  forallb (free_key R) (replaced_fields rep a ps) = true.
Proof.
  induction ps as [|[k v] ps IH]; simpl; auto.
  intros H. apply andb_true_iff in H as [H1 H2].
  destruct (replaced rep a k v); simpl; auto.
  rewrite IH by exact H2. rewrite andb_true_r. exact H1.
Qed.

Lemma visit_atom R rep fuel v s x :
  isAtom v = true -> handleAtom R v = Ok x ->
  visit R (handleAtom R) rep (S fuel) v s = Ok (x, s).
Proof.
  intros Ha Hx. simpl. rewrite Ha. unfold lift. rewrite Hx. reflexivity.
Qed.

(** ** Unfolding one call of [visit] on an unvisited node *)

Lemma visit_node_unfold R rep fuel a o s :
  heap s !! a = Some o -> isTagged R o = false -> plain o = true ->
  let n := length (table s) in
  let id := VNum (Z.of_nat n) in
  let s1 := State (alter (_setRefcode R id) a (heap s))
                  (table s ++ [_setRefcode R id (Obj (o_proto o) [] [])])
                  (invoked s) (user_calls s) in
  visit R (handleAtom R) rep (S fuel) (VRef a) s =
  bind (if isArray_obj o
        then for_each (visit_element (visit R (handleAtom R) rep fuel) n)
                      (o_items o)
        else for_each
               (visit_property (visit R (handleAtom R) rep fuel) rep a n)
               (map fst (set_prop (refcode R) id (o_props o))))
       (fun _ =>
          do _ <- update_copy n (obj_set (origcode R) (VRef a));
          do c <- load_copy n;
          ret (ref R (Some c))) s1.
Proof.
  intros Ho Ht Hp n id s1. simpl.
  rewrite (bind_ok (locate (VRef a)) _ s a s) by reflexivity.
  rewrite (bind_ok (load a) _ s o s) by (unfold load; rewrite Ho; reflexivity).
  rewrite Ht. cbn [negb].
  rewrite (bind_ok table_length _ s n s) by reflexivity.
  destruct (isArray_obj o) eqn:Ha.
  - rewrite bind_assoc.
    erewrite bind_ok by (apply tag_plain; reflexivity).
    rewrite bind_assoc.
    erewrite bind_ok by (unfold update; simpl; rewrite Ho; reflexivity).
    unfold isArray_obj in Ha. destruct (o_proto o); try discriminate.
    reflexivity.
  - rewrite bind_assoc.
    erewrite bind_ok by (apply tag_plain; exact Hp).
    rewrite bind_assoc.
    erewrite bind_ok by (unfold update; simpl; rewrite Ho; reflexivity).
    rewrite bind_assoc.
    erewrite bind_ok
      by (unfold load; simpl; rewrite list_lookup_alter_eq, Ho; reflexivity).
    reflexivity.
Qed.

(** ** The traversal: correctness of [visit] *)

Ltac csplit := repeat match goal with |- _ /\ _ => split end.

Section Traversal.
Variable R : Resurrect.
Variable rep : option closure.
Variable G : list obj.
Hypothesis Hrep : passes_refcode R rep.

Lemma visit_post_nil fuel ord v s r :
  discover rep fuel G ord v = [] ->
  inv R rep G ord s -> r = enc R ord v -> (forall b, v = VRef b -> b ∈ ord) ->
  visit_post R rep G fuel ord v s r s [] [].
Proof.
  intros Hd Hi Hr Hb. unfold visit_post, finished. rewrite !app_nil_r. simpl.
  split; [symmetry; exact Hd|].
  split; [reflexivity|]. split; [reflexivity|]. split; [exact Hi|].
  split; [exact Hr|]. split; [exact Hb|]. split; [|reflexivity].
  split; [reflexivity|]. intros j a Hj. discriminate.
Qed.

Lemma update_copy_at n f T c T' h iv uc :
  n = length T ->
  update_copy n f (State h (T ++ c :: T') iv uc) =
  Ok (tt, State h (T ++ f c :: T') iv uc).
Proof.
  intros ->. unfold update_copy. simpl.
  rewrite lookup_app_r by lia. rewrite Nat.sub_diag. simpl.
  replace (length T) with (length T + 0) at 1 by lia.
  rewrite alter_app_r. reflexivity.
Qed.

Lemma isArray_proto o : isArray_obj o = true -> o_proto o = ProtoArray.
Proof. unfold isArray_obj. destruct (o_proto o); congruence. Qed.

Lemma visit_array fuel a o s ord :
  visit_ok R rep G fuel ->
  inv R rep G ord s -> heap s !! a = Some o ->
  isTagged R o = false -> isArray_obj o = true ->
  length G < S fuel + length ord ->
  exists r s' new newT,
    visit R (handleAtom R) rep (S fuel) (VRef a) s = Ok (r, s') /\
    visit_post R rep G (S fuel) ord (VRef a) s r s' new newT.
Proof.
  intros IH Hi Ho Ht Ha Hfuel.
  pose proof (inv_view_lookup _ _ _ _ _ _ _ Hi Ho) as HG.
  pose proof (inv_wf _ _ _ _ _ Hi _ _ HG) as Hwf.
  unfold wf_content in Hwf. rewrite !andb_true_iff in Hwf.
  destruct Hwf as ((((Hplain & Hnd) & Hfree) & Hshape) & Hkids).
  pose proof (inv_len _ _ _ _ _ Hi) as Hlen.
  pose proof (inv_untagged_fresh _ _ _ _ _ _ _ Hi Ho Ht) as Hfresh.
  assert (Hitems : kids rep a (_deleteRefcode R o) = o_items o)
    by (unfold kids, isArray_obj in *; simpl; rewrite Ha; reflexivity).
  rewrite Hitems in Hkids. rewrite forallb_forall in Hkids.
  rewrite visit_node_unfold with (o := o); auto.
  rewrite Ha, (isArray_proto o Ha).
  remember (length (table s)) as n eqn:Hn.
  set (id := VNum (Z.of_nat n)).
  set (s1 := State _ _ _ _).
  assert (Hi1 : inv R rep G (ord ++ [a]) s1).
  { subst s1 id n. rewrite <- (isArray_proto o Ha).
    eapply inv_visit_node; eauto. }
  set (I := fun (pre : list value) (sc : state) =>
    exists nw nT,
      nw = fold_left
             (fun nw x => nw ++ discover rep fuel G (ord ++ a :: nw) x)
             pre [] /\
      heap sc = stamp R (S n) nw (heap s1) /\
      table sc = table s ++
        Obj ProtoArray (map (enc R (ord ++ a :: nw)) pre) [(refcode R, id)]
        :: nT /\
      inv R rep G (ord ++ a :: nw) sc /\
      (forall b, VRef b ∈ pre -> b ∈ ord ++ a :: nw) /\
      finished R rep G (ord ++ a :: nw) (S n) nw nT /\
      user_calls sc ≡ₚ user_calls s ++ flat_map (node_calls rep G) nw).
  destruct (for_each_inv
              (visit_element (visit R (handleAtom R) rep fuel) n) I
              (o_items o) s1) as (s2 & Hloop & HI).
  { exists [], []. simpl. csplit; auto.
    - intros b Hb. inversion Hb.
    - split; [reflexivity|]. intros j b Hj. discriminate.
    - rewrite app_nil_r. reflexivity. }
  { intros pre x post sc Hsplit
      (nw & nT & Hnw & Hh & HT & Hinv & Hcl & Hfin & Huc).
    assert (Hvis : visitable R (length G) x = true)
      by (apply Hkids; rewrite Hsplit; apply in_elt).
    destruct (IH x sc (ord ++ a :: nw) Hinv Hvis)
      as (r & s3 & new & newT & Hv & Hpost).
    { rewrite length_app. simpl. lia. }
    destruct Hpost as (Hnew & Hh2 & HT2 & Hinv2 & Hr & Hb & Hfin2 & Huc2).
    unfold visit_element. rewrite (bind_ok _ _ _ _ _ Hv).
    destruct s3 as [h3 T3 iv3 uc3]. simpl in *.
    rewrite HT in HT2. rewrite <- app_assoc in HT2. simpl in HT2.
    subst T3. rewrite update_copy_at by exact Hn.
    eexists. split; [reflexivity|].
    exists (nw ++ new), (nT ++ newT). simpl.
    assert (Eord : ord ++ a :: nw ++ new = (ord ++ a :: nw) ++ new)
      by (rewrite <- app_assoc; reflexivity).
    rewrite Eord.
    split.
    { rewrite fold_left_app. simpl. rewrite <- Hnw, <- Hnew. reflexivity. }
    split.
    { rewrite Hh2, Hh, stamp_app. f_equal. rewrite length_app. simpl. lia. }
    split.
    { unfold obj_push. simpl. rewrite map_app. simpl.
      rewrite (map_enc_stable R (ord ++ a :: nw) new pre Hcl).
      subst r. reflexivity. }
    split; [eapply inv_same; eauto; simpl; rewrite !length_app; simpl; lia|].
    split.
    { intros b Hb'. apply elem_of_app in Hb' as [Hb'|Hb'].
      - apply elem_of_app. left. auto.
      - apply list_elem_of_singleton in Hb'. apply Hb. congruence. }
    split.
    { apply finished_app.
      - apply finished_mono. exact Hfin.
      - replace (S n + length nw) with (length (ord ++ a :: nw)).
        + exact Hfin2.
        + rewrite length_app. simpl. lia. }
    rewrite Huc2, Huc, flat_map_app, app_assoc. reflexivity. }
  destruct HI as (nw & nT & Hnw & Hh & HT & Hinv & Hcl & Hfin & Huc).
  rewrite (bind_ok _ _ _ _ _ Hloop).
  destruct s2 as [h2 T2 iv2 uc2]. simpl in *. subst T2.
  erewrite bind_ok by (apply update_copy_at; exact Hn).
  erewrite bind_ok
    by (unfold load_copy; simpl; rewrite lookup_app_r by lia;
        replace (n - length (table s)) with 0 by lia; reflexivity).
  do 2 eexists.
  exists (a :: nw),
    (Obj ProtoArray (map (enc R (ord ++ a :: nw)) (o_items o))
         [(refcode R, id); (origcode R, VRef a)] :: nT).
  split; [reflexivity|].
  assert (Eqb : String.eqb (refcode R) (origcode R) = false)
    by (apply String.eqb_neq, refcode_origcode).
  unfold visit_post, obj_set. cbn [heap table user_calls o_props o_items o_proto].
  cbn [set_prop]. rewrite Eqb. csplit.
  - cbn [discover]. rewrite (index_of_fresh a ord Hfresh), HG, Hitems, <- Hnw.
    reflexivity.
  - rewrite Hh, <- Hlen. reflexivity.
  - reflexivity.
  - eapply inv_same; [exact Hinv | reflexivity |].
    simpl. rewrite !length_app. reflexivity.
  - unfold ref, enc, ref_to, _getRefcode, read_prop. simpl.
    rewrite String.eqb_refl, index_of_app_fresh by exact Hfresh.
    rewrite <- Hlen. reflexivity.
  - intros b Hb. inversion Hb; subst. apply elem_of_app. right. left.
  - destruct Hfin as [Hfl Hf]. split; [simpl; congruence|].
    intros [|j] b Hj; simpl in Hj.
    + inversion Hj; subst b. exists (_deleteRefcode R o). csplit; auto.
      * simpl. unfold copy_node, encode_node.
        replace (isArray_obj (_deleteRefcode R o)) with true
          by (symmetry; exact Ha).
        simpl. rewrite <- Hlen, Nat.add_0_r. reflexivity.
      * rewrite Hitems. exact Hcl.
    + destruct (Hf j b Hj) as (o' & Ho' & Hc' & Hk'). exists o'. csplit; auto.
      simpl. rewrite Hc'. do 2 f_equal. lia.
  - simpl. unfold node_calls at 1. rewrite HG.
    replace (isArray_obj (_deleteRefcode R o)) with true
      by (symmetry; exact Ha).
    simpl. exact Huc.
Qed.

(** *** The loop over the keys of an object *)

Lemma replaced_refcode a v :
  isUndefined v = false ->
  (replaced rep a (refcode R) v = Some v \/ replaced rep a (refcode R) v = None)
  /\ field_calls rep a [(refcode R, v)] = [].
Proof.
  intros Hv. unfold replaced, field_calls. destruct rep as [r|] eqn:Er; auto.
  simpl. rewrite Hv.
  destruct (Hrep r (VRef a) v eq_refl) as [H|H]; rewrite H; simpl.
  - rewrite Hv. auto.
  - auto.
Qed.
Lemma field_step_facts a pre k v0 post id :
  nodup_keys (pre ++ (k, v0) :: post) = true ->
  get_prop (refcode R) (pre ++ (k, v0) :: post) = Some id ->
  isUndefined id = false ->
  (forall ord2, enc R ord2 id = id) ->
  let fs_pre := replaced_fields rep a (del_prop (refcode R) pre) in
  let fs_next :=
    replaced_fields rep a (del_prop (refcode R) (pre ++ [(k, v0)])) in
  field_calls rep a (del_prop (refcode R) (pre ++ [(k, v0)])) =
    field_calls rep a (del_prop (refcode R) pre) ++ field_calls rep a [(k, v0)]
  /\ match replaced rep a k v0 with
     | None => fs_next = fs_pre
     | Some val =>
         (forall ord2,
            set_prop k (enc R ord2 val)
              ((refcode R, id) :: map (enc_field R ord2) fs_pre) =
            (refcode R, id) :: map (enc_field R ord2) fs_next)
         /\ (forall b, VRef b ∈ map snd fs_next ->
               VRef b ∈ map snd fs_pre \/ val = VRef b)
         /\ ((val = id /\ fs_next = fs_pre) \/
             (map snd fs_next = map snd fs_pre ++ [val] /\
              In val (map snd (replaced_fields rep a
                        (del_prop (refcode R) (pre ++ (k, v0) :: post))))))
     end.
Proof.
  intros Hnd Hget Hid Henc fs_pre fs_next.
  destruct (nodup_keys_mid pre k v0 post Hnd) as [Hk Hpre].
  destruct (String.eqb k (refcode R)) eqn:Ek.
  - apply String.eqb_eq in Ek. subst k.
    assert (v0 = id) by congruence. subst v0.
    destruct (replaced_refcode a id Hid) as [Hr Hfc].
    assert (Enext : fs_next = fs_pre).
    { unfold fs_next, fs_pre. rewrite del_prop_app. simpl.
      rewrite String.eqb_refl, app_nil_r. reflexivity. }
    split.
    + rewrite Hfc, app_nil_r, del_prop_app. simpl.
      rewrite String.eqb_refl, app_nil_r. reflexivity.
    + destruct Hr as [Hr|Hr]; rewrite Hr; auto. rewrite Enext. csplit; auto.
      intros ord2. simpl. rewrite String.eqb_refl, Henc. reflexivity.
  - assert (Edel : del_prop (refcode R) (pre ++ [(k, v0)]) =
                   del_prop (refcode R) pre ++ [(k, v0)]).
    { rewrite del_prop_app. simpl. rewrite Ek. reflexivity. }
    split.
    + rewrite Edel, field_calls_app. reflexivity.
    + assert (Enext : fs_next = fs_pre ++ replaced_fields rep a [(k, v0)]).
      { unfold fs_next, fs_pre. rewrite Edel, replaced_fields_app.
        reflexivity. }
      simpl in Enext.
      destruct (replaced rep a k v0) as [val|] eqn:Hrp.
      * rewrite Enext. csplit.
        -- intros ord2. simpl.
           assert (E2 : String.eqb (refcode R) k = false).
           { apply String.eqb_neq. intros E. rewrite E in Ek.
             rewrite String.eqb_refl in Ek. discriminate. }
           rewrite E2. f_equal. rewrite map_app. simpl.
           apply set_prop_fresh. apply get_prop_enc_fields.
           apply get_prop_replaced_fields. apply get_prop_del_None.
           exact Hpre.
        -- intros b Hb. rewrite map_app in Hb. simpl in Hb.
           apply elem_of_app in Hb as [Hb|Hb]; auto.
           apply list_elem_of_singleton in Hb. auto.
        -- right. split; [rewrite map_app; reflexivity|].
           rewrite del_prop_app. simpl. rewrite Ek.
           rewrite replaced_fields_app. simpl. rewrite Hrp.
           rewrite map_app. simpl. apply in_elt.
      * rewrite Enext, app_nil_r. reflexivity.
Qed.

Lemma visit_object fuel a o s ord :
  visit_ok R rep G fuel ->
  inv R rep G ord s -> heap s !! a = Some o ->
  isTagged R o = false -> isArray_obj o = false ->
  length G < S fuel + length ord ->
  exists r s' new newT,
    visit R (handleAtom R) rep (S fuel) (VRef a) s = Ok (r, s') /\
    visit_post R rep G (S fuel) ord (VRef a) s r s' new newT.
Proof.
  intros IH Hi Ho Ht Ha Hfuel.
  pose proof (inv_view_lookup _ _ _ _ _ _ _ Hi Ho) as HG.
  pose proof (inv_wf _ _ _ _ _ Hi _ _ HG) as Hwf.
  unfold wf_content in Hwf. rewrite !andb_true_iff in Hwf.
  destruct Hwf as ((((Hplain & Hnd) & Hfree) & Hshape) & Hkids).
  pose proof (inv_len _ _ _ _ _ Hi) as Hlen.
  pose proof (inv_keys _ _ _ _ _ Hi _ _ Ho) as Hnd0.
  pose proof (inv_untagged_fresh _ _ _ _ _ _ _ Hi Ho Ht) as Hfresh.
  assert (Hitems : kids rep a (_deleteRefcode R o) =
            map snd (replaced_fields rep a (del_prop (refcode R) (o_props o))))
    by (unfold kids, isArray_obj in *; simpl; rewrite Ha; reflexivity).
  rewrite Hitems in Hkids. rewrite forallb_forall in Hkids.
  assert (Hnoitems : o_items o = []).
  { replace (isArray_obj (_deleteRefcode R o)) with false in Hshape
      by (symmetry; exact Ha).
    simpl in Hshape. destruct (o_items o); [reflexivity | discriminate]. }
  rewrite visit_node_unfold with (o := o); auto.
  rewrite Ha, for_each_map.
  remember (length (table s)) as n eqn:Hn.
  set (id := VNum (Z.of_nat n)).
  set (ps1 := set_prop (refcode R) id (o_props o)).
  set (s1 := State _ _ _ _).
  assert (Hnd1 : nodup_keys ps1 = true) by (apply nodup_keys_set; exact Hnd0).
  assert (Hget1 : get_prop (refcode R) ps1 = Some id)
    by apply get_set_prop_eq.
  assert (Hdel1 : del_prop (refcode R) ps1 = del_prop (refcode R) (o_props o))
    by apply del_set_prop.
  assert (Hi1 : inv R rep G (ord ++ [a]) s1).
  { subst s1 id n. eapply inv_visit_node; eauto. }
  set (I := fun (pre : list (string * value)) (sc : state) =>
    exists nw nT,
      nw = fold_left
             (fun nw x => nw ++ discover rep fuel G (ord ++ a :: nw) x)
             (map snd (replaced_fields rep a (del_prop (refcode R) pre)))
             [] /\
      heap sc = stamp R (S n) nw (heap s1) /\
      table sc = table s ++
        Obj (o_proto o) []
          ((refcode R, id) ::
           map (enc_field R (ord ++ a :: nw))
               (replaced_fields rep a (del_prop (refcode R) pre)))
        :: nT /\
      inv R rep G (ord ++ a :: nw) sc /\
      (forall b,
         VRef b ∈ map snd (replaced_fields rep a (del_prop (refcode R) pre)) ->
         b ∈ ord ++ a :: nw) /\
      finished R rep G (ord ++ a :: nw) (S n) nw nT /\
      user_calls sc ≡ₚ
        user_calls s ++ field_calls rep a (del_prop (refcode R) pre)
        ++ flat_map (node_calls rep G) nw).
  destruct (for_each_inv
              (fun p => visit_property (visit R (handleAtom R) rep fuel)
                          rep a n (fst p)) I ps1 s1) as (s2 & Hloop & HI).
  { exists [], []. simpl. csplit; auto.
    - intros b Hb. inversion Hb.
    - split; [reflexivity|]. intros j b Hj. discriminate.
    - unfold field_calls. destruct rep; simpl; rewrite app_nil_r; reflexivity. }
  { intros pre [k v0] post sc Hsplit
      (nw & nT & Hnw & Hh & HT & Hinv & Hcl & Hfin & Huc).
    rewrite Hsplit in Hnd1, Hget1, Hdel1.
    destruct (nodup_keys_mid pre k v0 post Hnd1) as [Hget Hpre].
    destruct (field_step_facts a pre k v0 post id Hnd1 Hget1 eq_refl)
      as [Hfc Hcase]; [reflexivity|].
    assert (Hanw : a ∉ nw).
    { pose proof (inv_nodup _ _ _ _ _ Hinv) as Hnd2.
      apply NoDup_app in Hnd2 as (_ & _ & Hnd2).
      apply NoDup_cons in Hnd2 as [Hnd2 _]. exact Hnd2. }
    assert (Hload : heap sc !! a = Some (_setRefcode R id o)).
    { rewrite Hh, stamp_lookup_other by exact Hanw. subst s1. simpl.
      rewrite list_lookup_alter_eq, Ho. reflexivity. }
    unfold visit_property. simpl fst.
    rewrite (bind_ok (load a) _ sc _ sc)
      by (unfold load; rewrite Hload; reflexivity).
    change (o_props (_setRefcode R id o)) with ps1.
    rewrite Hsplit. unfold read_prop, has_prop. rewrite Hget.
    destruct (call_replacer_spec rep a k v0 sc) as [il Hcr].
    rewrite (bind_ok _ _ _ _ _ Hcr).
    set (sc' := State (heap sc) (table sc) (invoked sc ++ il)
                      (user_calls sc ++ field_calls rep a [(k, v0)])).
    assert (Hinv' : inv R rep G (ord ++ a :: nw) sc')
      by (eapply inv_same; [exact Hinv | reflexivity | reflexivity]).
    destruct (replaced rep a k v0) as [val|] eqn:Hrp.
    - destruct Hcase as (Hset & Hmem & Hsrc).
      assert (Hvis : visitable R (length G) val = true).
      { destruct Hsrc as [[-> _]|[_ Hsrc]]; [reflexivity|].
        apply Hkids. rewrite <- Hdel1. exact Hsrc. }
      destruct (IH val sc' (ord ++ a :: nw) Hinv' Hvis)
        as (r & s3 & new & newT & Hv & Hpost).
      { rewrite length_app. simpl. lia. }
      destruct Hpost as (Hnew & Hh2 & HT2 & Hinv2 & Hr & Hb & Hfin2 & Huc2).
      rewrite (bind_ok _ _ _ _ _ Hv).
      destruct s3 as [h3 T3 iv3 uc3]. simpl in Hh2, HT2, Huc2.
      rewrite HT in HT2. rewrite <- app_assoc in HT2. simpl in HT2.
      subst T3. rewrite update_copy_at by exact Hn.
      eexists. split; [reflexivity|].
      exists (nw ++ new), (nT ++ newT). cbn [heap table user_calls].
      assert (Eord : ord ++ a :: nw ++ new = (ord ++ a :: nw) ++ new)
        by (rewrite <- app_assoc; reflexivity).
      rewrite Eord. csplit.
      + destruct Hsrc as [[Eid Efs]|[Efs _]].
        * rewrite Efs, <- Hnw, Hnew, Eid.
          destruct fuel; simpl; rewrite app_nil_r; reflexivity.
        * rewrite Efs, fold_left_app. simpl. rewrite <- Hnw, <- Hnew.
          reflexivity.
      + rewrite Hh2, Hh, stamp_app. f_equal. rewrite length_app. simpl. lia.
      + unfold obj_set. cbn [o_props o_proto o_items].
        rewrite <- (map_enc_field_stable R (ord ++ a :: nw) new _ Hcl).
        rewrite Hr, Hset. reflexivity.
      + eapply inv_same; [exact Hinv2 | reflexivity |].
        simpl. rewrite !length_app. simpl. rewrite !length_app. lia.
      + intros b Hb'. destruct (Hmem b Hb') as [Hb2|Hb2].
        * apply elem_of_app. left. auto.
        * apply Hb. exact Hb2.
      + apply finished_app.
        * apply finished_mono. exact Hfin.
        * replace (S n + length nw) with (length (ord ++ a :: nw)).
          -- exact Hfin2.
          -- rewrite length_app. simpl. lia.
      + rewrite Huc2, Huc, Hfc, flat_map_app. rewrite <- !app_assoc.
        do 2 apply Permutation_app_head. rewrite !app_assoc.
        apply Permutation_app_tail. apply Permutation_app_comm.
    - exists sc'. split; [reflexivity|].
      exists nw, nT. rewrite Hcase. csplit; auto.
      simpl. rewrite Huc, Hfc. rewrite <- !app_assoc.
      do 2 apply Permutation_app_head. apply Permutation_app_comm. }
  destruct HI as (nw & nT & Hnw & Hh & HT & Hinv & Hcl & Hfin & Huc).
  rewrite Hdel1 in Hnw, HT, Hcl, Huc.
  set (FS := replaced_fields rep a (del_prop (refcode R) (o_props o))) in *.
  rewrite (bind_ok _ _ _ _ _ Hloop).
  destruct s2 as [h2 T2 iv2 uc2]. simpl in Hh, HT, Huc. subst T2.
  erewrite bind_ok by (apply update_copy_at; exact Hn).
  erewrite bind_ok
    by (unfold load_copy; simpl; rewrite lookup_app_r by lia;
        replace (n - length (table s)) with 0 by lia; reflexivity).
  assert (Eprops :
    set_prop (origcode R) (VRef a)
      ((refcode R, id) :: map (enc_field R (ord ++ a :: nw)) FS) =
    (refcode R, id) :: map (enc_field R (ord ++ a :: nw)) FS
      ++ [(origcode R, VRef a)]).
  { simpl.
    replace (String.eqb (refcode R) (origcode R)) with false
      by (symmetry; apply String.eqb_neq, refcode_origcode).
    f_equal. apply set_prop_fresh. apply get_prop_enc_fields.
    apply get_prop_replaced_fields. eapply get_prop_free; [|exact Hfree].
    apply prefix_append. }
  do 2 eexists.
  exists (a :: nw),
    (Obj (o_proto o) []
         ((refcode R, id) :: map (enc_field R (ord ++ a :: nw)) FS
          ++ [(origcode R, VRef a)]) :: nT).
  unfold obj_set. cbn [o_props o_proto o_items]. rewrite Eprops.
  split; [reflexivity|].
  unfold visit_post. cbn [heap table user_calls]. csplit.
  - cbn [discover]. rewrite (index_of_fresh a ord Hfresh), HG, Hitems, <- Hnw.
    reflexivity.
  - rewrite Hh, <- Hlen. reflexivity.
  - reflexivity.
  - eapply inv_same; [exact Hinv | reflexivity |].
    simpl. rewrite !length_app. reflexivity.
  - unfold ref, enc, ref_to, _getRefcode, read_prop. simpl.
    rewrite String.eqb_refl, index_of_app_fresh by exact Hfresh.
    rewrite <- Hlen. reflexivity.
  - intros b Hb. inversion Hb; subst. apply elem_of_app. right. left.
  - destruct Hfin as [Hfl Hf]. split; [simpl; congruence|].
    intros [|j] b Hj; simpl in Hj.
    + inversion Hj; subst b. exists (_deleteRefcode R o). csplit; auto.
      * simpl. unfold copy_node, encode_node.
        replace (isArray_obj (_deleteRefcode R o)) with false
          by (symmetry; exact Ha).
        simpl. rewrite <- Hlen, Nat.add_0_r. reflexivity.
      * rewrite Hitems. exact Hcl.
    + destruct (Hf j b Hj) as (o' & Ho' & Hc' & Hk'). exists o'. csplit; auto.
      simpl. rewrite Hc'. do 2 f_equal. lia.
  - simpl. unfold node_calls at 1. rewrite HG.
    replace (isArray_obj (_deleteRefcode R o)) with false
      by (symmetry; exact Ha).
    simpl. exact Huc.
Qed.

(** *** [visit] succeeds and discovers the graph *)

Lemma visitable_atom n ord v :
  isAtom v = true -> visitable R n v = true ->
  exists x, handleAtom R v = Ok x /\ enc R ord v = x.
Proof.
  intros Ha Hv. destruct v; try discriminate; unfold visitable, enc in *;
    destruct (handleAtom R _) eqn:E; try discriminate; eauto.
Qed.

Lemma visit_tagged fuel a o s ord :
  inv R rep G ord s -> heap s !! a = Some o -> isTagged R o = true ->
  visit R (handleAtom R) rep (S fuel) (VRef a) s = Ok (enc R ord (VRef a), s).
Proof.
  intros Hi Ho Ht. simpl.
  rewrite (bind_ok (locate (VRef a)) _ s a s) by reflexivity.
  rewrite (bind_ok (load a) _ s o s) by (unfold load; rewrite Ho; reflexivity).
  rewrite Ht. cbn [negb].
  destruct (inv_tagged _ _ _ _ _ _ _ Hi Ho Ht) as (i & Hidx & Hr).
  unfold ret, ref. rewrite Hr, Hidx. reflexivity.
Qed.

Theorem visit_spec fuel : visit_ok R rep G fuel.
Proof.
  induction fuel as [|fuel IH]; intros v s ord Hi Hv Hf.
  - pose proof (inv_length _ _ _ _ _ Hi) as Hl.
    rewrite <- (inv_view _ _ _ _ _ Hi) in Hf. unfold user_view in Hf.
    rewrite length_map in Hf. lia.
  - destruct (isAtom v) eqn:Hat.
    + destruct (visitable_atom (length G) ord v Hat Hv) as (x & Hx & Ex).
      exists x, s, [], []. split; [apply visit_atom; auto|].
      apply visit_post_nil; auto.
      * destruct v; try discriminate; reflexivity.
      * intros b ->. discriminate.
    + destruct v; try discriminate.
      simpl in Hv. apply Nat.ltb_lt in Hv.
      assert (Hlen : length (heap s) = length G).
      { rewrite <- (inv_view _ _ _ _ _ Hi). unfold user_view.
        rewrite length_map. reflexivity. }
      destruct (lookup_lt_is_Some_2 (heap s) a) as [o Ho]; [lia|].
      destruct (isTagged R o) eqn:Ht.
      * exists (enc R ord (VRef a)), s, [], [].
        split; [eapply visit_tagged; eauto|].
        apply visit_post_nil; auto.
        -- destruct (inv_tagged _ _ _ _ _ _ _ Hi Ho Ht) as (i & Hidx & _).
           simpl. rewrite Hidx. reflexivity.
        -- intros b Hb. inversion Hb; subst. eapply inv_untag; eauto.
      * destruct (isArray_obj o) eqn:Ha.
        -- eapply visit_array; eauto.
        -- eapply visit_object; eauto.
Qed.
End Traversal.

(** ** Well-formed heaps start the traversal *)

Lemma wf_nodes_lookup R rep n a0 h i o :
  wf_nodes R rep n a0 h = true -> h !! i = Some o ->
  wf_node R rep n (a0 + i) o = true.
Proof.
  revert a0 i. induction h as [|x h IH]; intros a0 i Hw Hi; [discriminate|].
  simpl in Hw. apply andb_true_iff in Hw as [H1 H2].
  destruct i as [|i]; simpl in Hi.
  - inversion Hi; subst. rewrite Nat.add_0_r. exact H1.
  - replace (a0 + S i) with (S a0 + i) by lia. eauto.
Qed.

Lemma wf_heap_lookup R rep h a o :
  wf_heap R rep h = true -> h !! a = Some o ->
  nodup_keys (o_props o) = true /\ isTagged R o = false /\
  wf_content R rep (length h) a (_deleteRefcode R o) = true.
Proof.
  intros Hw Ha. pose proof (wf_nodes_lookup _ _ _ _ _ _ _ Hw Ha) as H.
  simpl in H. unfold wf_node in H. rewrite !andb_true_iff in H.
  destruct H as ((H1 & H2) & H3). apply negb_true_iff in H2. auto.
Qed.

Lemma length_user_view R h : length (user_view R h) = length h.
Proof. unfold user_view. apply length_map. Qed.

Lemma user_view_lookup R h a :
  user_view R h !! a = _deleteRefcode R <$> h !! a.
Proof. unfold user_view. apply list_lookup_fmap. Qed.

Lemma inv_init R rep h iv uc :
  wf_heap R rep h = true ->
  inv R rep (user_view R h) [] (State h [] iv uc).
Proof.
  intros Hw. constructor; simpl; auto.
  - constructor.
  - intros i a Hi. discriminate.
  - intros a o Ha Ht. destruct (wf_heap_lookup _ _ _ _ _ Hw Ha) as (_ & H & _).
    congruence.
  - intros a o Ha. destruct (wf_heap_lookup _ _ _ _ _ Hw Ha) as (H & _). auto.
  - intros a o Ha. rewrite user_view_lookup in Ha.
    destruct (h !! a) as [o'|] eqn:E; [|discriminate]. inversion Ha; subst.
    rewrite length_user_view.
    destruct (wf_heap_lookup _ _ _ _ _ Hw E) as (_ & _ & H). exact H.
Qed.

Lemma passes_refcode_normalize R replacer :
  passes_refcode R (normalize_replacer R replacer).
Proof.
  intros r this v Hr. destruct replacer as [|f|ks]; simpl in Hr;
    inversion Hr; subst.
  - left. unfold replacerWrapper. unfold refcode. rewrite prefix_append.
    reflexivity.
  - unfold acceptKeys_fn. destruct (existsb _ _); auto.
Qed.

(** ** The loop that ends [stringify] *)

Lemma encode_node_props_free R rep ord a o k :
  String.prefix (prefix R) k = true ->
  forallb (free_key R) (o_props o) = true ->
  get_prop k (o_props (encode_node R rep ord a o)) = None.
Proof.
  intros Hk Hf. unfold encode_node. destruct (isArray_obj o); simpl; auto.
  apply get_prop_enc_fields, get_prop_replaced_fields.
  eapply get_prop_free; eauto.
Qed.

Lemma strip_copy_node R rep ord i a o :
  forallb (free_key R) (o_props o) = true ->
  obj_del (origcode R) (_deleteRefcode R (copy_node R rep ord i a o)) =
  encode_node R rep ord a o.
Proof.
  intros Hf.
  pose proof (encode_node_props_free R rep ord a o (refcode R)
                (prefix_append _ _) Hf) as H1.
  pose proof (encode_node_props_free R rep ord a o (origcode R)
                (prefix_append _ _) Hf) as H2.
  unfold copy_node, _deleteRefcode, obj_del.
  destruct (encode_node R rep ord a o) as [p it pr]. simpl in *.
  rewrite String.eqb_refl. f_equal.
  rewrite (del_prop_app (refcode R) pr [(origcode R, VRef a)]). simpl.
  replace (String.eqb (origcode R) (refcode R)) with false.
  - simpl. rewrite del_prop_app. simpl. rewrite String.eqb_refl, app_nil_r.
    rewrite (del_prop_fresh _ _ H1). apply del_prop_fresh. exact H2.
  - symmetry. apply String.eqb_neq. intros E. symmetry in E.
    exact (refcode_origcode R E).
Qed.

Lemma copy_node_original R rep ord i a o :
  forallb (free_key R) (o_props o) = true ->
  read_prop (origcode R) (o_props (copy_node R rep ord i a o)) = VRef a.
Proof.
  intros Hf. unfold copy_node, read_prop. simpl.
  replace (String.eqb (refcode R) (origcode R)) with false
    by (symmetry; apply String.eqb_neq, refcode_origcode).
  rewrite get_prop_app.
  rewrite (encode_node_props_free R rep ord a o (origcode R)
             (prefix_append _ _) Hf).
  simpl. rewrite String.eqb_refl. reflexivity.
Qed.

Lemma released_fun R :
  (if cleanup R then _deleteRefcode R else _setRefcodeNull R) = released R.
Proof. unfold released. destruct (cleanup R); reflexivity. Qed.

Lemma release_step R rep ord i a o oa sc :
  table sc !! i = Some (copy_node R rep ord i a o) ->
  forallb (free_key R) (o_props o) = true ->
  heap sc !! a = Some oa ->
  release R i sc =
  Ok (tt, State (alter (released R) a (heap sc))
                (<[i := encode_node R rep ord a o]> (table sc))
                (invoked sc) (user_calls sc)).
Proof.
  intros Hc Hf Ha. unfold release.
  rewrite (bind_ok (load_copy i) _ sc _ sc)
    by (unfold load_copy; rewrite Hc; reflexivity).
  rewrite copy_node_original by exact Hf. rewrite released_fun.
  erewrite bind_ok by (unfold update; rewrite Ha; reflexivity).
  erewrite bind_ok by (unfold update_copy; simpl; rewrite Hc; reflexivity).
  unfold update_copy. simpl. rewrite list_lookup_alter_eq, Hc. simpl.
  do 3 f_equal. rewrite list_alter_alter_eq.
  rewrite list_insert_alter. apply list_alter_ext; auto.
  intros x Hx. assert (x = copy_node R rep ord i a o) by congruence. subst x.
  simpl. apply strip_copy_node. exact Hf.
Qed.

Lemma seq_split n pre x post :
  seq 0 n = pre ++ x :: post -> x = length pre /\ x < n.
Proof.
  intros H.
  assert (Hx : seq 0 n !! length pre = Some x).
  { rewrite H, lookup_app_r by lia. rewrite Nat.sub_diag. reflexivity. }
  apply lookup_seq in Hx. lia.
Qed.

Lemma release_loop R rep G ord newT s1 :
  finished R rep G ord 0 ord newT ->
  table s1 = newT ->
  NoDup ord ->
  (forall a, a ∈ ord -> a < length (heap s1)) ->
  (forall a o, G !! a = Some o -> forallb (free_key R) (o_props o) = true) ->
  exists s2,
    for_each (release R) (seq 0 (length ord)) s1 = Ok (tt, s2) /\
    table s2 = encode_table R rep G ord /\
    heap s2 = release_heap R ord (heap s1) /\
    invoked s2 = invoked s1 /\ user_calls s2 = user_calls s1.
Proof.
  intros [Hlen Hfin] HT Hnd Hbound Hfree.
  set (I := fun (pre : list nat) (sc : state) =>
    length (table sc) = length ord /\
    (forall j, table sc !! j =
       if decide (j < length pre) then node_entry R rep G ord <$> ord !! j
       else newT !! j) /\
    heap sc = release_heap R (take (length pre) ord) (heap s1) /\
    invoked sc = invoked s1 /\ user_calls sc = user_calls s1).
  destruct (for_each_inv (release R) I (seq 0 (length ord)) s1)
    as (s2 & Hloop & HI).
  { unfold I. simpl. split; [congruence|].
    split; [intros j; rewrite HT; reflexivity|].
    split; [|split; reflexivity].
    unfold release_heap. apply list_eq. intros b.
    rewrite list_lookup_imap. destruct (heap s1 !! b); reflexivity. }
  { intros pre x post sc Hsplit (HTl & HTj & Hh & Hiv & Huc).
    destruct (seq_split _ _ _ _ Hsplit) as [-> Hx].
    destruct (lookup_lt_is_Some_2 ord (length pre) Hx) as [a Ha].
    destruct (Hfin _ _ Ha) as (o & Ho & Hc & _). simpl in Hc.
    assert (Hao : exists oa, heap sc !! a = Some oa).
    { apply lookup_lt_is_Some_2. rewrite Hh. unfold release_heap.
      rewrite length_imap. apply Hbound. eapply list_elem_of_lookup_2; eauto. }
    destruct Hao as [oa Hoa].
    assert (Hti : table sc !! length pre = Some (copy_node R rep ord (length pre) a o)).
    { rewrite HTj. destruct (decide (length pre < length pre)); [lia|]. auto. }
    rewrite (release_step R rep ord _ a o oa sc Hti (Hfree _ _ Ho) Hoa).
    eexists. split; [reflexivity|].
    unfold I. rewrite length_app. simpl.
    split; [rewrite length_insert; exact HTl|].
    split; [|split; [|split; assumption]].
    - intros j. destruct (decide (j = length pre)) as [->|Hne].
      + rewrite list_lookup_insert_eq by lia.
        destruct (decide (length pre < length pre + 1)); [|lia].
        rewrite Ha. simpl. unfold node_entry. rewrite Ho. reflexivity.
      + rewrite list_lookup_insert_ne by congruence. rewrite HTj.
        destruct (decide (j < length pre)), (decide (j < length pre + 1));
          auto; lia.
    - rewrite Hh. unfold release_heap. apply list_eq. intros b.
      replace (length pre + 1) with (S (length pre)) by lia.
      rewrite (take_S_r _ _ _ Ha).
      destruct (decide (b = a)) as [->|Hne].
      + rewrite list_lookup_alter_eq, !list_lookup_imap.
        destruct (heap s1 !! a) as [oh|]; simpl; auto.
        rewrite bool_decide_eq_false_2, bool_decide_eq_true_2; auto.
        * apply elem_of_app. right. left.
        * intros Hin. apply elem_of_take in Hin as (j & Hj & Hlt).
          pose proof (NoDup_lookup _ _ _ _ Hnd Hj Ha). lia.
      + rewrite list_lookup_alter_ne by congruence.
        rewrite !list_lookup_imap. destruct (heap s1 !! b) as [oh|]; simpl; auto.
        repeat case_bool_decide; auto; exfalso.
        * match goal with H : _ ∉ _ ++ _ |- _ => apply H end.
          apply elem_of_app. left. assumption.
        * match goal with H : _ ∈ _ ++ _ |- _ =>
            apply elem_of_app in H as [H|H];
            [auto | apply list_elem_of_singleton in H; auto]
          end. }
  destruct HI as (HTl & HTj & Hh & Hiv & Huc).
  rewrite length_seq in HTj, Hh.
  exists s2. split; [exact Hloop|]. split; [|split; [|split; assumption]].
  - unfold encode_table. apply list_eq. intros j.
    rewrite HTj, list_lookup_fmap.
    destruct (decide (j < length ord)); auto.
    rewrite !lookup_ge_None_2 by lia. reflexivity.
  - rewrite Hh, take_ge by lia. reflexivity.
Qed.

Lemma set_set_prop k v1 v2 ps :
  set_prop k v2 (set_prop k v1 ps) = set_prop k v2 ps.
Proof.
  induction ps as [|[k' v'] ps IH]; simpl.
  - rewrite String.eqb_refl. reflexivity.
  - destruct (String.eqb k' k) eqn:E; simpl.
    + rewrite String.eqb_refl. reflexivity.
    + rewrite E, IH. reflexivity.
Qed.

Lemma released_setRefcode R v o : released R (_setRefcode R v o) = released R o.
Proof.
  unfold released. destruct (cleanup R).
  - apply strip_setRefcode.
  - unfold _setRefcodeNull, _setRefcode, obj_set. simpl.
    rewrite set_set_prop. reflexivity.
Qed.

Lemma stamp_lookup_in R k ord h i a :
  NoDup ord -> ord !! i = Some a ->
  stamp R k ord h !! a =
  _setRefcode R (VNum (Z.of_nat (k + i))) <$> h !! a.
Proof.
  intros Hnd. revert k h i.
  induction Hnd as [|b ord Hb Hnd IH]; intros k h i Hi; [discriminate|].
  destruct i as [|i]; simpl in *.
  - inversion Hi; subst. rewrite stamp_lookup_other by exact Hb.
    rewrite list_lookup_alter_eq, Nat.add_0_r. reflexivity.
  - rewrite (IH (S k) _ i Hi).
    rewrite list_lookup_alter_ne.
    + do 4 f_equal. lia.
    + intros ->. apply Hb. eapply list_elem_of_lookup_2; eauto.
Qed.

Lemma release_stamp R k ord h :
  NoDup ord -> release_heap R ord (stamp R k ord h) = release_heap R ord h.
Proof.
  intros Hnd. unfold release_heap. apply list_eq. intros b.
  rewrite !list_lookup_imap. case_bool_decide as Hb.
  - apply list_elem_of_lookup in Hb as [i Hi].
    rewrite (stamp_lookup_in R k ord h i b Hnd Hi).
    destruct (h !! b); simpl; auto. rewrite released_setRefcode. reflexivity.
  - rewrite stamp_lookup_other by exact Hb. destruct (h !! b); reflexivity.
Qed.

(** ** The document of the table *)

Lemma builder_encoded R name args :
  forallb is_string args = true ->
  encoded (builder R name (VList args)) = true.
Proof.
  intros H. unfold builder, encoded. rewrite H, andb_true_r.
  apply negb_true_iff, String.eqb_neq, buildcode_valuecode.
Qed.

Lemma enc_encoded R n ord v :
  visitable R n v = true -> encoded (enc R ord v) = true.
Proof.
  destruct v; unfold visitable, enc, handleAtom; try reflexivity;
    try discriminate; try (intros _; apply builder_encoded; reflexivity).
  - destruct (date_toISOString t); [intros _ | discriminate].
    apply builder_encoded. reflexivity.
  - destruct (regexp_literal_match _) as [[x y]|]; [intros _ | discriminate].
    apply builder_encoded. reflexivity.
Qed.

Lemma json_ser_string fuel holder key v s :
  is_string v = true ->
  json_ser None (S fuel) holder key v s = Ok (Some (to_json v), s).
Proof. destruct v; try discriminate. reflexivity. Qed.

Lemma ser_items_strings fuel holder i args s :
  forallb is_string args = true ->
  ser_items (json_ser None (S fuel) holder) i args s =
  Ok (map to_json args, s).
Proof.
  revert i. induction args as [|x args IH]; intros i H; [reflexivity|].
  simpl in H. apply andb_true_iff in H as [H1 H2].
  cbn [ser_items].
  rewrite (bind_ok _ _ _ _ _ (json_ser_string fuel holder _ x s H1)).
  rewrite (bind_ok _ _ _ _ _ (IH (S i) H2)). reflexivity.
Qed.

Lemma json_ser_encoded fuel holder key v s :
  encoded v = true ->
  json_ser None (S (S (S fuel))) holder key v s = Ok (Some (to_json v), s).
Proof.
  intros H. destruct v; try discriminate; try reflexivity.
  destruct fields as [|[k1 v1] [|[k2 v2] [|? ?]]]; try discriminate.
  - destruct v1; try discriminate. reflexivity.
  - destruct v1; try discriminate. destruct v2; try discriminate.
    simpl in H. apply andb_true_iff in H as [_ H].
    change (json_ser None (S (S (S fuel))) holder key
              (VRec [(k1, VStr s0); (k2, VList items)]) s)
      with (bind (ser_fields
                    (json_ser None (S (S fuel))
                       (VRec [(k1, VStr s0); (k2, VList items)]))
                    [(k1, VStr s0); (k2, VList items)])
                 (fun js => ret (Some (JObj js))) s).
    cbn [ser_fields].
    rewrite bind_assoc.
    rewrite (bind_ok _ _ s (Some (JStr s0)) s) by reflexivity.
    rewrite bind_assoc, bind_assoc.
    erewrite (bind_ok (json_ser None (S (S fuel)) _ k2 (VList items)) _ s
                (Some (JArr (map to_json items))) s).
    + reflexivity.
    + change (json_ser None (S (S fuel))
                (VRec [(k1, VStr s0); (k2, VList items)]) k2 (VList items) s)
        with (bind (ser_items (json_ser None (S fuel) (VList items)) 0 items)
                   (fun js => ret (Some (JArr js))) s).
      rewrite (bind_ok _ _ _ _ _ (ser_items_strings fuel _ 0 items s H)).
      reflexivity.
  - destruct v1; try discriminate. destruct v2; discriminate.
Qed.

Lemma ser_items_encoded fuel holder i xs s :
  forallb encoded xs = true ->
  ser_items (json_ser None (S (S (S fuel))) holder) i xs s =
  Ok (map to_json xs, s).
Proof.
  revert i. induction xs as [|x xs IH]; intros i H; [reflexivity|].
  simpl in H. apply andb_true_iff in H as [H1 H2].
  cbn [ser_items].
  rewrite (bind_ok _ _ _ _ _ (json_ser_encoded fuel holder _ x s H1)).
  rewrite (bind_ok _ _ _ _ _ (IH (S i) H2)). reflexivity.
Qed.

Lemma ser_fields_encoded fuel holder ps s :
  forallb (fun p => encoded (snd p)) ps = true ->
  ser_fields (json_ser None (S (S (S fuel))) holder) ps s =
  Ok (map (fun p => (fst p, to_json (snd p))) ps, s).
Proof.
  induction ps as [|[k x] ps IH]; intros H; [reflexivity|].
  simpl in H. apply andb_true_iff in H as [H1 H2].
  cbn [ser_fields].
  rewrite (bind_ok _ _ _ _ _ (json_ser_encoded fuel holder _ x s H1)).
  rewrite (bind_ok _ _ _ _ _ (IH H2)). reflexivity.
Qed.

Lemma json_ser_entry fuel holder key e s :
  encoded_entry e = true ->
  json_ser None (S (S (S (S fuel)))) holder key (entry_value e) s =
  Ok (Some (entry_json e), s).
Proof.
  unfold encoded_entry, entry_json, entry_value, isArray_obj.
  destruct (o_proto e); intros H; try discriminate;
    apply andb_true_iff in H as [H _].
  - change (json_ser None (S (S (S (S fuel)))) holder key
              (VRec (o_props e)) s)
      with (bind (ser_fields (json_ser None (S (S (S fuel)))
                                (VRec (o_props e))) (o_props e))
                 (fun js => ret (Some (JObj js))) s).
    rewrite (bind_ok _ _ _ _ _ (ser_fields_encoded fuel _ _ s H)).
    reflexivity.
  - change (json_ser None (S (S (S (S fuel)))) holder key
              (VList (o_items e)) s)
      with (bind (ser_items (json_ser None (S (S (S fuel)))
                               (VList (o_items e))) 0 (o_items e))
                 (fun js => ret (Some (JArr js))) s).
    rewrite (bind_ok _ _ _ _ _ (ser_items_encoded fuel _ 0 _ s H)).
    reflexivity.
Qed.

Lemma ser_items_entries fuel holder i T s :
  forallb encoded_entry T = true ->
  ser_items (json_ser None (S (S (S (S fuel)))) holder) i
            (map entry_value T) s =
  Ok (map entry_json T, s).
Proof.
  revert i. induction T as [|e T IH]; intros i H; [reflexivity|].
  simpl in H. apply andb_true_iff in H as [H1 H2].
  cbn [ser_items map].
  rewrite (bind_ok _ _ _ _ _ (json_ser_entry fuel holder _ e s H1)).
  rewrite (bind_ok _ _ _ _ _ (IH (S i) H2)). reflexivity.
Qed.

Lemma JSON_stringify_table fuel T s :
  forallb encoded_entry T = true ->
  JSON_stringify (S (S (S (S (S fuel))))) (VList (map entry_value T)) None s =
  Ok (Some (JArr (map entry_json T)), s).
Proof.
  intros H. unfold JSON_stringify.
  change (json_ser None (S (S (S (S (S fuel)))))
            (VRec [("", VList (map entry_value T))]) ""
            (VList (map entry_value T)) s)
    with (bind (ser_items (json_ser None (S (S (S (S fuel))))
                             (VList (map entry_value T))) 0
                          (map entry_value T))
               (fun js => ret (Some (JArr js))) s).
  rewrite (bind_ok _ _ _ _ _ (ser_items_entries fuel _ 0 T s H)).
  reflexivity.
Qed.

(** ** [stringify] on a well-formed graph *)

Lemma nodup_keys_replaced_fields rep a ps :
  nodup_keys ps = true -> nodup_keys (replaced_fields rep a ps) = true.
Proof.
  induction ps as [|[k v] ps IH]; simpl; [reflexivity|].
  intros H. apply andb_true_iff in H as [Hk Hps].
  destruct (replaced rep a k v); simpl; [|auto].
  rewrite IH by exact Hps. rewrite andb_true_r.
  apply negb_true_iff, has_prop_false, get_prop_replaced_fields.
  apply has_prop_false, negb_true_iff, Hk.
Qed.

Lemma nodup_keys_enc_fields R ord ps :
  nodup_keys ps = true -> nodup_keys (map (enc_field R ord) ps) = true.
Proof.
  induction ps as [|[k v] ps IH]; simpl; [reflexivity|].
  intros H. apply andb_true_iff in H as [Hk Hps].
  rewrite IH by exact Hps. rewrite andb_true_r.
  apply negb_true_iff, has_prop_false, get_prop_enc_fields.
  apply has_prop_false, negb_true_iff, Hk.
Qed.

Lemma encode_node_encoded R rep n ord a o :
  wf_content R rep n a o = true ->
  encoded_entry (encode_node R rep ord a o) = true.
Proof.
  unfold wf_content. rewrite !andb_true_iff.
  intros ((((Hp & _) & _) & Hs) & Hk).
  unfold encode_node, encoded_entry, kids in *.
  destruct (isArray_obj o) eqn:Ha; simpl.
  - rewrite andb_true_r. rewrite forallb_forall in *.
    intros x Hx. apply in_map_iff in Hx as (y & <- & Hy).
    eapply enc_encoded. eauto.
  - unfold plain, isArray_obj in *. destruct (o_proto o); try discriminate.
    rewrite andb_true_r. rewrite forallb_forall in *.
    intros x Hx. apply in_map_iff in Hx as ([k y] & <- & Hy). simpl.
    eapply enc_encoded. apply Hk. apply in_map_iff. exists (k, y). auto.
Qed.

(** The keys of an entry are keys of its node: each occurs once. *)
Lemma encode_node_nodup R rep n ord a o :
  wf_content R rep n a o = true ->
  nodup_keys (o_props (encode_node R rep ord a o)) = true.
Proof.
  unfold wf_content. rewrite !andb_true_iff.
  intros ((((_ & Hnd) & _) & _) & _).
  unfold encode_node. destruct (isArray_obj o); [reflexivity|]. simpl.
  apply nodup_keys_enc_fields, nodup_keys_replaced_fields, Hnd.
Qed.

Theorem stringify_run_spec R fuel h r replacer iv uc :
  let rep := normalize_replacer R replacer in
  let G := user_view R h in
  let ord := visit_order R replacer fuel h (VRef r) in
  wf_heap R rep h = true -> r < length h -> length h < fuel -> 5 <= fuel ->
  exists s',
    stringify_run R fuel (VRef r) replacer (State h [] iv uc) =
      Ok (Some (table_json R rep G ord), s') /\
    heap s' = release_heap R ord h /\
    user_calls s' ≡ₚ uc ++ flat_map (node_calls rep G) ord /\
    NoDup ord /\
    (exists rest, ord = r :: rest) /\
    (forall a, a ∈ ord -> exists o, G !! a = Some o /\
       wf_content R rep (length G) a o = true /\
       forall b, VRef b ∈ kids rep a o -> b ∈ ord).
Proof.
  intros rep G ord Hwf Hr Hfuel H5.
  pose proof (inv_init R rep h iv uc Hwf) as Hi.
  destruct (visit_spec R rep G (passes_refcode_normalize R replacer) fuel
              (VRef r) (State h [] iv uc) [] Hi)
    as (x & s1 & new & newT & Hv & Hpost).
  { simpl. apply Nat.ltb_lt. unfold G. rewrite length_user_view. exact Hr. }
  { unfold G. rewrite length_user_view. simpl. lia. }
  destruct Hpost as (Hnew & Hh & HT & Hinv & _ & Hroot & Hfin & Huc).
  simpl in Hh, HT, Hinv, Hroot, Hfin, Huc.
  assert (Eord : new = ord) by exact Hnew. subst new.
  assert (Hfree : forall a o, G !! a = Some o ->
            forallb (free_key R) (o_props o) = true).
  { intros a o Ho. pose proof (inv_wf _ _ _ _ _ Hinv a o Ho) as Hw.
    unfold wf_content in Hw. rewrite !andb_true_iff in Hw. tauto. }
  destruct (release_loop R rep G ord newT s1 Hfin HT (inv_nodup _ _ _ _ _ Hinv))
    as (s2 & Hloop & HT2 & Hh2 & Hiv2 & Huc2); auto.
  { intros a Ha. eapply inv_bound; eauto. }
  exists s2. csplit.
  - unfold stringify_run. cbv zeta. fold rep.
    change (isAtom (VRef r)) with false. cbv iota.
    rewrite (bind_ok _ _ _ _ _ Hv).
    rewrite (bind_ok table_length _ s1 (length (table s1)) s1) by reflexivity.
    rewrite HT. destruct Hfin as [Hlen Hfin]. rewrite Hlen.
    rewrite (bind_ok _ _ _ _ _ Hloop). rewrite HT2.
    do 5 (destruct fuel as [|fuel]; [lia|]).
    apply JSON_stringify_table. unfold encode_table.
    rewrite forallb_forall. intros e He.
    apply in_map_iff in He as (a & <- & Ha). apply list_elem_of_In in Ha.
    apply list_elem_of_lookup in Ha as [j Hj].
    destruct (Hfin j a Hj) as (o & Ho & _). unfold node_entry. rewrite Ho.
    eapply encode_node_encoded. eapply inv_wf; eauto.
  - rewrite Hh2, Hh. apply release_stamp. eapply inv_nodup; eauto.
  - rewrite Huc2. exact Huc.
  - eapply inv_nodup; eauto.
  - unfold ord, visit_order.
    destruct fuel as [|fuel]; [lia|]. simpl.
    fold G. destruct (G !! r) as [o|] eqn:E; eauto.
    apply lookup_ge_None in E. unfold G in E. rewrite length_user_view in E.
    lia.
  - intros a Ha. apply list_elem_of_lookup in Ha as [j Hj].
    destruct Hfin as [_ Hfin].
    destruct (Hfin j a Hj) as (o & Ho & _ & Hk). exists o. csplit; auto.
    eapply inv_wf; eauto.
Qed.

(** ** Decoding the table of a run *)

Lemma parse_strings args :
  forallb is_string args = true ->
  map JSON_parse (map to_json args) = args.
Proof.
  induction args as [|x args IH]; intros H; [reflexivity|].
  simpl in H. apply andb_true_iff in H as [H1 H2].
  simpl. rewrite IH by exact H2. destruct x; try discriminate. reflexivity.
Qed.

Lemma fold_set_prop_fresh ps acc :
  nodup_keys (acc ++ ps) = true ->
  fold_left (fun fs p => set_prop (fst p) (snd p) fs) ps acc = acc ++ ps.
Proof.
  revert acc. induction ps as [|[k v] ps IH]; intros acc H; simpl.
  - symmetry. apply app_nil_r.
  - destruct (nodup_keys_mid acc k v ps H) as [_ Hacc].
    rewrite (set_prop_fresh k v acc Hacc).
    rewrite IH by (rewrite <- app_assoc; exact H).
    rewrite <- app_assoc. reflexivity.
Qed.

(** Members with distinct names are the object's properties as they stand. *)
Lemma object_of_nodup ps : nodup_keys ps = true -> object_of ps = ps.
Proof. intros H. apply (fold_set_prop_fresh ps []). exact H. Qed.

Lemma parse_encoded v : encoded v = true -> JSON_parse (to_json v) = v.
Proof.
  intros H. destruct v; try discriminate; try reflexivity.
  destruct fields as [|[k1 v1] [|[k2 v2] [|? ?]]]; try discriminate.
  - destruct v1; try discriminate. reflexivity.
  - destruct v1; try discriminate. destruct v2; try discriminate.
    simpl in H. apply andb_true_iff in H as [Hk H].
    apply negb_true_iff in Hk.
    cbn [to_json JSON_parse map fst snd].
    change (map JSON_parse (map to_json items))
      with (map JSON_parse (map to_json items)).
    rewrite parse_strings by exact H.
    unfold object_of. cbn [fold_left set_prop fst snd]. rewrite Hk.
    reflexivity.
  - destruct v1; try discriminate. destruct v2; discriminate.
Qed.

Lemma parse_encoded_items xs :
  forallb encoded xs = true -> map JSON_parse (map to_json xs) = xs.
Proof.
  induction xs as [|x xs IH]; intros H; [reflexivity|].
  simpl in H. apply andb_true_iff in H as [H1 H2].
  simpl. rewrite IH, parse_encoded; auto.
Qed.

Lemma parse_encoded_fields ps :
  forallb (fun p => encoded (snd p)) ps = true ->
  map (fun p : string * json => (fst p, JSON_parse (snd p)))
      (map (fun p : string * value => (fst p, to_json (snd p))) ps) = ps.
Proof.
  induction ps as [|[k x] ps IH]; intros H; [reflexivity|].
  simpl in H. apply andb_true_iff in H as [H1 H2].
  simpl. rewrite IH, parse_encoded; auto.
Qed.

Lemma entry_roundtrip e :
  encoded_entry e = true -> nodup_keys (o_props e) = true ->
  entry_of (JSON_parse (entry_json e)) = EObj e.
Proof.
  unfold encoded_entry, entry_json, entry_value, isArray_obj.
  destruct e as [p items props]. simpl.
  destruct p; intros H Hnd; try discriminate;
    apply andb_true_iff in H as [H1 H2].
  - destruct items; try discriminate. simpl.
    rewrite parse_encoded_fields by exact H1.
    rewrite object_of_nodup by exact Hnd. reflexivity.
  - destruct props; try discriminate. simpl.
    rewrite parse_encoded_items by exact H1. reflexivity.
Qed.

Lemma parse_table T :
  forallb encoded_entry T = true ->
  forallb (fun e => nodup_keys (o_props e)) T = true ->
  map entry_of (map JSON_parse (map entry_json T)) = map EObj T.
Proof.
  induction T as [|e T IH]; intros H Hnd; [reflexivity|].
  simpl in H, Hnd. apply andb_true_iff in H as [H1 H2].
  apply andb_true_iff in Hnd as [Hn1 Hn2].
  simpl. rewrite IH, entry_roundtrip; auto.
Qed.

Lemma has_tag_builder R name v :
  has_prop (prefix R) [(buildcode R, VStr name); (valuecode R, v)] = false.
Proof.
  unfold has_prop. simpl.
  replace (String.eqb (buildcode R) (prefix R)) with false
    by (symmetry; apply String.eqb_neq, buildcode_prefix).
  replace (String.eqb (valuecode R) (prefix R)) with false
    by (symmetry; apply String.eqb_neq, valuecode_prefix).
  reflexivity.
Qed.

Lemma decode_builder R table name v :
  decode_child R table (builder R name v) =
  decode_child R [] (builder R name v).
Proof.
  unfold decode_child, builder. simpl. rewrite has_tag_builder. reflexivity.
Qed.

Lemma decode_undefined R table : decode_child R table (ref R None) = Ok VUndef.
Proof.
  unfold decode_child, ref, decode, deref, has_prop, read_prop. simpl.
  rewrite String.eqb_refl. reflexivity.
Qed.

Lemma decode_atom_table R table v x :
  isAtom v = true -> handleAtom R v = Ok x ->
  decode_child R table x = decode_child R [] x.
Proof.
  intros Ha Hx. destruct v; try discriminate; unfold handleAtom in Hx;
    try (inversion Hx; subst; first
           [ reflexivity
           | apply decode_builder
           | rewrite !decode_undefined; reflexivity ]).
  - destruct (date_toISOString t); inversion Hx; subst. apply decode_builder.
  - destruct (regexp_literal_match _) as [[a b]|]; inversion Hx; subst.
    apply decode_builder.
Qed.

Lemma decode_ref R table i e :
  table !! i = Some (EObj e) ->
  decode_child R table (ref_to R (Z.of_nat i)) = Ok (VRef i).
Proof.
  intros H. unfold decode_child, ref_to, decode, deref, has_prop, read_prop.
  simpl. rewrite String.eqb_refl. simpl.
  destruct (0 <=? Z.of_nat i)%Z eqn:E; [|apply Z.leb_gt in E; lia].
  rewrite Nat2Z.id, H. reflexivity.
Qed.

Lemma decode_child_enc R ord table v n :
  (forall i, i < length ord -> exists e, table !! i = Some (EObj e)) ->
  visitable R n v = true -> decodable R v = true ->
  (forall b, v = VRef b -> b ∈ ord) ->
  decode_child R table (enc R ord v) = Ok (back R ord v).
Proof.
  intros Ht Hv Hd Hb. destruct (isAtom v) eqn:Ha.
  - destruct (visitable_atom R n ord v Ha Hv) as (x & Hx & Ex).
    rewrite Ex, (decode_atom_table R table v x Ha Hx).
    unfold decodable, back, roundtrip_atom in *. rewrite Hx in *. simpl in *.
    destruct v; try discriminate;
      destruct (decode_child R [] x); try discriminate; reflexivity.
  - destruct v; try discriminate.
    destruct (index_of_elem a ord (Hb a eq_refl)) as [i Hi].
    unfold enc, back. rewrite Hi.
    destruct (Ht i) as [e He].
    + eapply lookup_lt_Some, index_of_lookup; eauto.
    + eapply decode_ref; eauto.
Qed.

Lemma decode_items_enc R ord table xs n :
  (forall i, i < length ord -> exists e, table !! i = Some (EObj e)) ->
  forallb (visitable R n) xs = true -> forallb (decodable R) xs = true ->
  (forall b, VRef b ∈ xs -> b ∈ ord) ->
  decode_items R table (map (enc R ord) xs) = Ok (map (back R ord) xs).
Proof.
  intros Ht. induction xs as [|x xs IH]; intros Hv Hd Hb; [reflexivity|].
  simpl in Hv, Hd. apply andb_true_iff in Hv as [Hv1 Hv2].
  apply andb_true_iff in Hd as [Hd1 Hd2]. simpl.
  rewrite (decode_child_enc R ord table x n Ht Hv1 Hd1).
  - simpl. rewrite IH; auto. intros b Hin. apply Hb. right. exact Hin.
  - intros b ->. apply Hb. left.
Qed.

Lemma decode_props_enc R ord table ps n :
  (forall i, i < length ord -> exists e, table !! i = Some (EObj e)) ->
  forallb (visitable R n) (map snd ps) = true ->
  forallb (decodable R) (map snd ps) = true ->
  (forall b, VRef b ∈ map snd ps -> b ∈ ord) ->
  decode_props R table (map (enc_field R ord) ps) =
  Ok (map (back_field R ord) ps).
Proof.
  intros Ht. induction ps as [|[k x] ps IH]; intros Hv Hd Hb; [reflexivity|].
  simpl in Hv, Hd. apply andb_true_iff in Hv as [Hv1 Hv2].
  apply andb_true_iff in Hd as [Hd1 Hd2]. simpl.
  rewrite (decode_child_enc R ord table x n Ht Hv1 Hd1).
  - simpl. rewrite IH; auto. intros b Hin. apply Hb. right. exact Hin.
  - intros b ->. apply Hb. left.
Qed.

Lemma resolve_entry_node R rep ord table a o n :
  (forall i, i < length ord -> exists e, table !! i = Some (EObj e)) ->
  wf_content R rep n a o = true ->
  forallb (decodable R) (kids rep a o) = true ->
  (forall b, VRef b ∈ kids rep a o -> b ∈ ord) ->
  resolve_entry R table (EObj (encode_node R rep ord a o)) =
  Ok (EObj (decode_node R rep ord a o)).
Proof.
  intros Ht Hw Hd Hb. unfold wf_content in Hw. rewrite !andb_true_iff in Hw.
  destruct Hw as ((((Hp & _) & _) & _) & Hk).
  unfold encode_node, decode_node, kids, resolve_entry in *.
  destruct (isArray_obj o); simpl.
  - rewrite (decode_items_enc R ord table _ n Ht Hk Hd Hb). reflexivity.
  - rewrite (decode_props_enc R ord table _ n Ht Hk Hd Hb). reflexivity.
Qed.

Lemma partly_resolved_objects R rep G ord i j :
  closed_graph R rep G ord -> j < length ord ->
  exists e, partly_resolved R rep G ord i !! j = Some (EObj e).
Proof.
  intros Hc Hj. destruct (lookup_lt_is_Some_2 ord j Hj) as [a Ha].
  destruct (Hc a) as (o & Ho & _); [eapply list_elem_of_lookup_2; eauto|].
  unfold partly_resolved. rewrite list_lookup_imap, Ha. simpl.
  unfold node_image, node_entry. rewrite Ho. destruct (decide (j < i)); eauto.
Qed.

Lemma partly_resolved_step R rep G ord i a :
  ord !! i = Some a ->
  <[i := node_image R rep G ord a]> (partly_resolved R rep G ord i) =
  partly_resolved R rep G ord (S i).
Proof.
  intros Ha. apply list_eq. intros j. unfold partly_resolved.
  destruct (decide (i = j)) as [->|Hne].
  - rewrite list_lookup_insert_eq
      by (rewrite length_imap; eapply lookup_lt_Some; eauto).
    rewrite list_lookup_imap, Ha. simpl.
    destruct (decide (j < S j)); [reflexivity | lia].
  - rewrite list_lookup_insert_ne by exact Hne.
    rewrite !list_lookup_imap. destruct (ord !! j); simpl; auto.
    destruct (decide (j < i)), (decide (j < S i)); auto; lia.
Qed.

Lemma resolve_from_spec R rep G ord m :
  closed_graph R rep G ord ->
  forall i, i + m = length ord ->
  resolve_from R (seq i m) (partly_resolved R rep G ord i) =
  Ok (decode_table R rep G ord).
Proof.
  intros Hc. induction m as [|m IH]; intros i Hi; simpl.
  - f_equal. apply list_eq. intros j. unfold partly_resolved, decode_table.
    rewrite list_lookup_imap, list_lookup_fmap.
    destruct (ord !! j) eqn:E; simpl; auto.
    apply lookup_lt_Some in E. destruct (decide (j < i)); [reflexivity|lia].
  - destruct (lookup_lt_is_Some_2 ord i) as [a Ha]; [lia|].
    destruct (Hc a) as (o & Ho & Hw & Hd & Hk);
      [eapply list_elem_of_lookup_2; eauto|].
    assert (Hl : partly_resolved R rep G ord i !! i =
                 Some (EObj (encode_node R rep ord a o))).
    { unfold partly_resolved. rewrite list_lookup_imap, Ha. simpl.
      destruct (decide (i < i)); [lia|]. unfold node_entry. rewrite Ho.
      reflexivity. }
    rewrite Hl.
    rewrite (resolve_entry_node R rep ord _ a o (length G)); auto.
    + simpl.
      replace (EObj (decode_node R rep ord a o))
        with (node_image R rep G ord a)
        by (unfold node_image; rewrite Ho; reflexivity).
      rewrite partly_resolved_step by exact Ha. apply IH. lia.
    + intros j Hj. apply partly_resolved_objects; auto.
Qed.

Lemma fix_all_untagged R T :
  (forall e, In e T -> _hasTag R e = false) ->
  fix_all R (map EObj T) = Ok (map EObj T).
Proof.
  induction T as [|e T IH]; intros H; [reflexivity|].
  simpl. rewrite (H e) by (left; reflexivity). simpl.
  rewrite IH; auto. intros e' He'. apply H. right. exact He'.
Qed.

Theorem resurrect_table R rep G ord r rest :
  closed_graph R rep G ord -> ord = r :: rest ->
  resurrect R (table_json R rep G ord) =
  Ok (VRef 0, decode_table R rep G ord).
Proof.
  intros Hc Hr.
  assert (Henc : forallb encoded_entry (encode_table R rep G ord) = true).
  { rewrite forallb_forall. intros e He. unfold encode_table in He.
    apply in_map_iff in He as (a & <- & Ha). apply list_elem_of_In in Ha.
    destruct (Hc a Ha) as (o & Ho & Hw & _). unfold node_entry. rewrite Ho.
    eapply encode_node_encoded; eauto. }
  assert (Hnd : forallb (fun e => nodup_keys (o_props e))
                  (encode_table R rep G ord) = true).
  { rewrite forallb_forall. intros e He. unfold encode_table in He.
    apply in_map_iff in He as (a & <- & Ha). apply list_elem_of_In in Ha.
    destruct (Hc a Ha) as (o & Ho & Hw & _). unfold node_entry. rewrite Ho.
    eapply encode_node_nodup; eauto. }
  unfold resurrect, table_json. cbn [JSON_parse].
  rewrite (parse_table _ Henc Hnd).
  assert (Hfix : (if revive R then fix_all R (map EObj (encode_table R rep G ord))
                  else Ok (map EObj (encode_table R rep G ord)))
                 = Ok (map EObj (encode_table R rep G ord))).
  { destruct (revive R); auto. apply fix_all_untagged.
    intros e He. unfold encode_table in He.
    apply in_map_iff in He as (a & <- & Ha). apply list_elem_of_In in Ha.
    destruct (Hc a Ha) as (o & Ho & Hw & _). unfold node_entry. rewrite Ho.
    unfold _hasTag. apply has_prop_false.
    apply encode_node_props_free; [apply prefix_self|].
    unfold wf_content in Hw. rewrite !andb_true_iff in Hw. tauto. }
  rewrite Hfix. simpl res_bind.
  assert (E0 : map EObj (encode_table R rep G ord) =
               partly_resolved R rep G ord 0).
  { apply list_eq. intros j. unfold encode_table, partly_resolved.
    rewrite !list_lookup_fmap, list_lookup_imap.
    destruct (ord !! j); reflexivity. }
  rewrite length_map. unfold encode_table at 1. rewrite length_map.
  rewrite E0, (resolve_from_spec R rep G ord (length ord) Hc 0 eq_refl).
  simpl. f_equal. f_equal.
  unfold decode_table. rewrite Hr. simpl. unfold node_image.
  destruct (Hc r) as (o & Ho & _); [rewrite Hr; left|]. rewrite Ho.
  reflexivity.
Qed.

(** ** Round trips *)

Lemma decodable_nodes_lookup R rep a0 h i o :
  decodable_nodes R rep a0 h = true -> h !! i = Some o ->
  decodable_node R rep (a0 + i) o = true.
Proof.
  revert a0 i. induction h as [|x h IH]; intros a0 i Hw Hi; [discriminate|].
  simpl in Hw. apply andb_true_iff in Hw as [H1 H2].
  destruct i as [|i]; simpl in Hi.
  - inversion Hi; subst. rewrite Nat.add_0_r. exact H1.
  - replace (a0 + S i) with (S a0 + i) by lia. eauto.
Qed.

Theorem roundtrip_spec R fuel h r replacer :
  let rep := normalize_replacer R replacer in
  let G := user_view R h in
  let ord := visit_order R replacer fuel h (VRef r) in
  wf_heap R rep h = true -> decodable_heap R rep h = true ->
  r < length h -> enough_fuel h fuel ->
  stringify R fuel h (VRef r) replacer =
    Ok (Some (table_json R rep G ord), release_heap R ord h) /\
  resurrect R (table_json R rep G ord) =
    Ok (VRef 0, decode_table R rep G ord) /\
  NoDup ord /\ (exists rest, ord = r :: rest) /\ closed_graph R rep G ord.
Proof.
  intros rep G ord Hwf Hdec Hr [Hf H5].
  destruct (stringify_run_spec R fuel h r replacer [] [] Hwf Hr Hf H5)
    as (s' & Hrun & Hh & _ & Hnd & Hhead & Hcl).
  fold rep G ord in Hrun, Hh, Hnd, Hhead, Hcl.
  assert (Hc : closed_graph R rep G ord).
  { intros a Ha. destruct (Hcl a Ha) as (o & Ho & Hw & Hk).
    exists o. csplit; auto.
    unfold G in Ho. rewrite user_view_lookup in Ho.
    destruct (h !! a) as [oh|] eqn:E; [|discriminate].
    inversion Ho; subst o.
    exact (decodable_nodes_lookup R rep 0 h a oh Hdec E). }
  csplit; auto.
  - unfold stringify. rewrite Hrun. simpl. rewrite Hh. reflexivity.
  - destruct Hhead as [rest Hrest]. eapply resurrect_table; eauto.
Qed.

Lemma reach_closed R rep G ord root a :
  closed_graph R rep G ord -> root ∈ ord -> reach rep G root a -> a ∈ ord.
Proof.
  intros Hc Hr H. induction H as [|a o b H IH Ho Hb]; auto.
  destruct (Hc a IH) as (o' & Ho' & _ & _ & Hk).
  assert (o' = o) by congruence. subst o'. auto.
Qed.

Lemma node_index_lookup ord a : a ∈ ord -> ord !! node_index ord a = Some a.
Proof.
  intros Ha. destruct (index_of_elem a ord Ha) as [i Hi].
  unfold node_index. rewrite Hi. apply index_of_lookup. exact Hi.
Qed.

Lemma node_index_inj ord a b :
  a ∈ ord -> b ∈ ord -> node_index ord a = node_index ord b -> a = b.
Proof.
  intros Ha Hb E. pose proof (node_index_lookup ord a Ha) as H1.
  pose proof (node_index_lookup ord b Hb) as H2. congruence.
Qed.

Lemma decode_table_lookup R rep G ord a :
  a ∈ ord ->
  decode_table R rep G ord !! node_index ord a = Some (node_image R rep G ord a).
Proof.
  intros Ha. unfold decode_table.
  rewrite list_lookup_fmap, (node_index_lookup ord a Ha). reflexivity.
Qed.

Lemma bigint_roundtrip z : bigint_parse (bigint_toString z) = Some z.
Proof.
  unfold bigint_parse, bigint_toString.
  rewrite NilZero.isi.
  - rewrite DecimalZ.of_to. reflexivity.
  - destruct z; simpl; try discriminate.
    intros E. inversion E. eapply DecimalPos.Unsigned.to_uint_nonnil; eauto.
  - destruct z; simpl; try discriminate.
    intros E. inversion E. eapply DecimalPos.Unsigned.to_uint_nonnil; eauto.
Qed.

(** ** Values the codec reproduces exactly *)

Lemma decode_builder_eval R table name args :
  decode_child R table (builder R name (VList args)) = construct name args.
Proof.
  unfold decode_child, builder, decode. simpl isAtom. cbv iota.
  rewrite has_tag_builder. unfold has_prop, build, read_prop. simpl.
  rewrite String.eqb_refl.
  replace (String.eqb (buildcode R) (valuecode R)) with false
    by (symmetry; apply String.eqb_neq, buildcode_valuecode).
  rewrite String.eqb_refl. reflexivity.
Qed.

Lemma roundtrip_exact R v :
  exact_value v = true -> isAtom v = true -> roundtrip_atom R v = Ok v.
Proof.
  intros He Ha. unfold roundtrip_atom.
  destruct v; try discriminate; try reflexivity; unfold handleAtom, res_bind.
  - apply decode_undefined.
  - rewrite decode_builder_eval. reflexivity.
  - rewrite decode_builder_eval. destruct negative; reflexivity.
  - rewrite decode_builder_eval. unfold construct. simpl.
    rewrite bigint_roundtrip. reflexivity.
  - rewrite decode_builder_eval. reflexivity.
Qed.

Lemma back_exact R ord v :
  exact_value v = true -> back R ord v = rename (node_index ord) v.
Proof.
  intros He. destruct (isAtom v) eqn:Ha.
  - unfold back. rewrite (roundtrip_exact R v He Ha).
    destruct v; try discriminate; reflexivity.
  - destruct v; try discriminate. reflexivity.
Qed.

Lemma decodable_exact R v : exact_value v = true -> decodable R v = true.
Proof.
  intros He. destruct (isAtom v) eqn:Ha.
  - unfold decodable. rewrite (roundtrip_exact R v He Ha).
    destruct v; reflexivity.
  - destruct v; try discriminate. reflexivity.
Qed.

Lemma replaced_fields_none a ps : replaced_fields None a ps = ps.
Proof.
  induction ps as [|[k v] ps IH]; simpl; [reflexivity|]. rewrite IH.
  reflexivity.
Qed.

Lemma exact_decodable_nodes R a h :
  forallb (exact_node R) h = true -> decodable_nodes R None a h = true.
Proof.
  revert a. induction h as [|o h IH]; intros a H; [reflexivity|].
  simpl in H. apply andb_true_iff in H as [H1 H2].
  simpl. rewrite IH by exact H2. rewrite andb_true_r.
  unfold exact_node in H1. apply andb_true_iff in H1 as [Hi Hp].
  unfold decodable_node, kids. rewrite forallb_forall in *.
  destruct (isArray_obj (_deleteRefcode R o)); simpl.
  - intros x Hx. apply decodable_exact. auto.
  - rewrite replaced_fields_none. intros x Hx.
    apply in_map_iff in Hx as (p & <- & Hp'). apply decodable_exact.
    apply Hp. exact Hp'.
Qed.

Lemma exact_decodable_heap R h :
  exact_heap R h = true -> decodable_heap R None h = true.
Proof. apply exact_decodable_nodes. Qed.

Lemma decode_node_exact R ord a o n :
  wf_content R None n a o = true ->
  forallb exact_value (o_items o) = true ->
  forallb (fun p => exact_value (snd p)) (o_props o) = true ->
  decode_node R None ord a o = rename_obj (node_index ord) o.
Proof.
  intros Hw Hi Hp. unfold wf_content in Hw. rewrite !andb_true_iff in Hw.
  destruct Hw as ((((Hpl & _) & _) & Hs) & _).
  unfold decode_node, rename_obj. rewrite replaced_fields_none.
  rewrite forallb_forall in Hi, Hp.
  destruct (isArray_obj o) eqn:Ha.
  - rewrite (isArray_proto o Ha).
    destruct (o_props o); [|discriminate]. simpl. f_equal.
    apply map_ext_in. intros x Hx. apply back_exact. auto.
  - destruct (o_items o); [|discriminate]. simpl. f_equal.
    apply map_ext_in. intros [k x] Hx. unfold back_field. simpl.
    rewrite back_exact; auto. exact (Hp (k, x) Hx).
Qed.
(** ** The visited nodes are the reachable ones *)

Lemma reach_trans rep G r a b :
  reach rep G r a -> reach rep G a b -> reach rep G r b.
Proof.
  intros Ha Hb. induction Hb as [|c o b Hc IH Ho Hk]; [exact Ha|].
  eapply reach_step; eauto.
Qed.

Lemma discover_fold_reach rep fuel G a o
    (IH : forall ord v b, b ∈ discover rep fuel G ord v ->
            exists c, v = VRef c /\ reach rep G c b) :
  G !! a = Some o ->
  forall xs acc (ord0 : list nat),
    (forall x, x ∈ xs -> x ∈ kids rep a o) ->
    (forall b, b ∈ acc -> reach rep G a b) ->
    forall b,
      b ∈ fold_left
            (fun nw x => nw ++ discover rep fuel G (ord0 ++ a :: nw) x) xs acc ->
      reach rep G a b.
Proof.
  intros Ho xs. induction xs as [|x xs IHxs]; simpl; intros acc ord0 Hxs Hacc b Hb.
  - apply Hacc. exact Hb.
  - apply (IHxs _ ord0) in Hb; [exact Hb| |].
    + intros y Hy. apply Hxs. right. exact Hy.
    + intros c Hc. apply elem_of_app in Hc as [Hc|Hc]; [apply Hacc; exact Hc|].
      destruct (IH _ _ _ Hc) as (d & -> & Hd).
      eapply reach_trans; [|exact Hd].
      eapply reach_step; [apply reach_root | exact Ho |].
      apply Hxs. left.
Qed.

Lemma discover_reach rep fuel G : forall ord v b,
  b ∈ discover rep fuel G ord v -> exists c, v = VRef c /\ reach rep G c b.
Proof.
  induction fuel as [|fuel IH]; simpl; intros ord v b Hb.
  - inversion Hb.
  - destruct v; try (inversion Hb; fail).
    destruct (index_of a ord); [inversion Hb|].
    destruct (G !! a) as [o|] eqn:Ho; [|inversion Hb].
    exists a. split; [reflexivity|].
    apply elem_of_cons in Hb as [->|Hb]; [apply reach_root|].
    eapply (discover_fold_reach rep fuel G a o IH Ho _ [] ord); eauto.
    intros c Hc. inversion Hc.
Qed.

Lemma visit_order_reach R replacer fuel h root a :
  a ∈ visit_order R replacer fuel h (VRef root) ->
  reach (normalize_replacer R replacer) (user_view R h) root a.
Proof.
  intros Ha. destruct (discover_reach _ _ _ _ _ _ Ha) as (c & E & Hc).
  inversion E; subst. exact Hc.
Qed.

(** * Properties of the codec *)

Lemma node_index_head r rest : node_index (r :: rest) r = 0.
Proof. unfold node_index. simpl. rewrite Nat.eqb_refl. reflexivity. Qed.

Lemma exact_heap_lookup R h a o :
  exact_heap R h = true -> h !! a = Some o -> exact_node R o = true.
Proof.
  unfold exact_heap. rewrite forallb_forall. intros H Ha. apply H.
  apply list_elem_of_In. eapply list_elem_of_lookup_2; eauto.
Qed.

(** C1. A graph of plain objects, arrays and atoms the codec reproduces
    exactly, none of whose keys is [__proto__] or [hasOwnProperty], comes
    back from [resurrect (stringify G)] as an isomorphic copy of the graph
    the caller built: the decoded value is the image of the root under a
    map [phi] of the nodes that is injective (two paths meet in the result
    exactly when they meet in [G]) and every reachable node is decoded to
    the same object, array or atom structure with its references renamed
    by [phi].  (On a graph with one of the two keys the walk itself goes
    another way: it calls the property [hasOwnProperty] of the object, and
    its assignment to [__proto__] creates no property.) *)
Theorem roundtrip_identity R fuel h root :
  wf_heap R None h = true -> exact_heap R h = true ->
  ordinary_keys h = true ->
  root < length h -> enough_fuel h fuel ->
  exists text h' D phi,
    stringify R fuel h (VRef root) RNull = Ok (Some text, h') /\
    resurrect R text = Ok (VRef (phi root), D) /\
    (forall a b,
       reach None (user_view R h) root a -> reach None (user_view R h) root b ->
       phi a = phi b -> a = b) /\
    (forall a, reach None (user_view R h) root a ->
       exists o, user_view R h !! a = Some o /\
                 D !! phi a = Some (EObj (rename_obj phi o))).
Proof.
  intros Hwf Hex _ Hr Hfuel.
  destruct (roundtrip_spec R fuel h root RNull Hwf
              (exact_decodable_heap R h Hex) Hr Hfuel)
    as (Hs & Hd & Hnd & [rest Hrest] & Hc).
  simpl in Hs, Hd, Hc.
  set (ord := visit_order R RNull fuel h (VRef root)) in *.
  set (G := user_view R h) in *.
  assert (Hroot : root ∈ ord) by (rewrite Hrest; left).
  exists (table_json R None G ord), (release_heap R ord h),
    (decode_table R None G ord), (node_index ord).
  csplit.
  - exact Hs.
  - rewrite Hd, Hrest, node_index_head. reflexivity.
  - intros a b Ha Hb E.
    eapply node_index_inj; eauto; eapply reach_closed; eauto.
  - intros a Ha. pose proof (reach_closed _ _ _ _ _ _ Hc Hroot Ha) as Hin.
    destruct (Hc a Hin) as (o & Ho & Hw & _). exists o. split; [exact Ho|].
    rewrite decode_table_lookup by exact Hin. unfold node_image. rewrite Ho.
    do 2 f_equal. unfold G in Ho. rewrite user_view_lookup in Ho.
    destruct (h !! a) as [oh|] eqn:E; [|discriminate]. inversion Ho; subst o.
    pose proof (exact_heap_lookup R h a oh Hex E) as Hx.
    unfold exact_node in Hx. apply andb_true_iff in Hx as [Hx1 Hx2].
    eapply decode_node_exact; eauto.
Qed.

Lemma roundtrip_identity_witness :
  wf_heap necromancer None shared_pair = true /\
  exact_heap necromancer shared_pair = true /\
  ordinary_keys shared_pair = true /\
  0 < length shared_pair /\ enough_fuel shared_pair 5 /\
  exists text h' D phi,
    stringify necromancer 5 shared_pair (VRef 0) RNull = Ok (Some text, h') /\
    resurrect necromancer text = Ok (VRef (phi 0), D) /\
    (forall a b,
       reach None (user_view necromancer shared_pair) 0 a ->
       reach None (user_view necromancer shared_pair) 0 b ->
       phi a = phi b -> a = b) /\
    (forall a, reach None (user_view necromancer shared_pair) 0 a ->
       exists o, user_view necromancer shared_pair !! a = Some o /\
                 D !! phi a = Some (EObj (rename_obj phi o))).
Proof.
  assert (H1 : wf_heap necromancer None shared_pair = true) by reflexivity.
  assert (H2 : exact_heap necromancer shared_pair = true) by reflexivity.
  assert (Hk : ordinary_keys shared_pair = true) by reflexivity.
  assert (H3 : 0 < length shared_pair) by (simpl; lia).
  assert (H4 : enough_fuel shared_pair 5) by (split; simpl; lia).
  split; [exact H1|]. split; [exact H2|]. split; [exact Hk|].
  split; [exact H3|]. split; [exact H4|].
  apply (roundtrip_identity necromancer 5 shared_pair 0 H1 H2 Hk H3 H4).
Defined.

(** The scenario of C1: encoding [[x, x]] gives one entry for [x], which
    the array entry references twice, and decoding gives an array whose two
    elements are the same object. *)
Example shared_pair_roundtrip :
  stringify necromancer 5 shared_pair (VRef 0) RNull =
    Ok (Some (JArr [JArr [JObj [("#", JNum 1)]; JObj [("#", JNum 1)]];
                    JObj [("n", JNum 1)]]),
        [Obj ProtoArray [VRef 1; VRef 1] [("#id", VNull)];
         Obj ProtoObject [] [("n", VNum 1); ("#id", VNull)]]) /\
  resurrect necromancer
    (JArr [JArr [JObj [("#", JNum 1)]; JObj [("#", JNum 1)]];
           JObj [("n", JNum 1)]]) =
    Ok (VRef 0, [EObj (Obj ProtoArray [VRef 1; VRef 1] []);
                 EObj (Obj ProtoObject [] [("n", VNum 1)])]).
Proof. split; vm_compute; reflexivity. Qed.

Lemma get_prop_back_field R ord k v ps :
  get_prop k ps = Some v ->
  get_prop k (map (back_field R ord) ps) = Some (back R ord v).
Proof.
  induction ps as [|[k' v'] ps IH]; simpl; [discriminate|].
  destruct (String.eqb k' k); auto. intros H. inversion H; subst. reflexivity.
Qed.

Lemma get_prop_back_field_None R ord k ps :
  get_prop k ps = None -> get_prop k (map (back_field R ord) ps) = None.
Proof. apply get_prop_map_enc. intros [k' v']. reflexivity. Qed.

Lemma untagged_field R o k a :
  isTagged R o = false -> get_prop k (o_props o) = Some (VRef a) ->
  k <> refcode R.
Proof.
  unfold isTagged, _getRefcode, read_prop. intros Ht Hk ->.
  rewrite Hk in Ht. discriminate.
Qed.

(** C2. On a graph with a cycle through the root -- the object at [a] has
    a field [k] holding [a] itself -- [stringify] returns (with any fuel
    above the number of objects: the walk never enters a visited node
    again), and [resurrect] of its text yields an object whose field [k] is
    that very object. *)
Theorem cycle_safety R fuel h a o k :
  wf_heap R None h = true -> decodable_heap R None h = true ->
  h !! a = Some o -> isArray_obj o = false ->
  get_prop k (o_props o) = Some (VRef a) ->
  enough_fuel h fuel ->
  exists text h' D e,
    stringify R fuel h (VRef a) RNull = Ok (Some text, h') /\
    resurrect R text = Ok (VRef 0, D) /\
    D !! 0 = Some (EObj e) /\
    get_prop k (o_props e) = Some (VRef 0).
Proof.
  intros Hwf Hdec Ho Ha Hk Hfuel.
  assert (Hr : a < length h) by (eapply lookup_lt_Some; eauto).
  destruct (roundtrip_spec R fuel h a RNull Hwf Hdec Hr Hfuel)
    as (Hs & Hd & Hnd & [rest Hrest] & Hc).
  simpl in Hs, Hd, Hc.
  set (ord := visit_order R RNull fuel h (VRef a)) in *.
  set (G := user_view R h) in *.
  assert (HG : G !! a = Some (_deleteRefcode R o))
    by (unfold G; rewrite user_view_lookup, Ho; reflexivity).
  destruct (wf_heap_lookup _ _ _ _ _ Hwf Ho) as (_ & Ht & _).
  exists (table_json R None G ord), (release_heap R ord h),
    (decode_table R None G ord),
    (decode_node R None ord a (_deleteRefcode R o)).
  csplit; auto.
  - unfold decode_table. rewrite Hrest. simpl. unfold node_image.
    rewrite <- Hrest, HG. reflexivity.
  - unfold decode_node.
    replace (isArray_obj (_deleteRefcode R o)) with false
      by (symmetry; exact Ha).
    simpl. rewrite replaced_fields_none.
    rewrite (get_prop_back_field R ord k (VRef a)).
    + unfold back. rewrite Hrest. simpl. rewrite Nat.eqb_refl. reflexivity.
    + rewrite get_del_prop_ne; [exact Hk|].
      eapply untagged_field; eauto.
Qed.

Lemma cycle_safety_witness :
  wf_heap necromancer None self_loop = true /\
  decodable_heap necromancer None self_loop = true /\
  self_loop !! 0 = Some (Obj ProtoObject [] [("self", VRef 0); ("n", VNum 7)]) /\
  enough_fuel self_loop 5 /\
  exists text h' D e,
    stringify necromancer 5 self_loop (VRef 0) RNull = Ok (Some text, h') /\
    resurrect necromancer text = Ok (VRef 0, D) /\
    D !! 0 = Some (EObj e) /\
    get_prop "self" (o_props e) = Some (VRef 0).
Proof.
  assert (H1 : wf_heap necromancer None self_loop = true) by reflexivity.
  assert (H2 : decodable_heap necromancer None self_loop = true)
    by reflexivity.
  assert (H3 : self_loop !! 0 =
               Some (Obj ProtoObject [] [("self", VRef 0); ("n", VNum 7)]))
    by reflexivity.
  assert (H4 : enough_fuel self_loop 5) by (split; simpl; lia).
  split; [exact H1|]. split; [exact H2|]. split; [exact H3|].
  split; [exact H4|].
  apply (cycle_safety necromancer 5 self_loop 0 _ "self" H1 H2 H3
           eq_refl eq_refl H4).
Defined.

Lemma reach_visited rep G (ord : list nat) root a :
  (forall a, a ∈ ord -> exists o, G !! a = Some o /\
     forall b, VRef b ∈ kids rep a o -> b ∈ ord) ->
  root ∈ ord -> reach rep G root a -> a ∈ ord.
Proof.
  intros Hc Hr H. induction H as [|a o b H IH Ho Hb]; auto.
  destruct (Hc a IH) as (o' & Ho' & Hk).
  assert (o' = o) by congruence. subst o'. auto.
Qed.

(** C3. A [stringify] of a composite root gives every node reachable from
    the root one identifier: the visited nodes form a list [ord] without
    repetition that starts with the root and holds exactly the reachable
    nodes; the emitted table has one entry per element of [ord], the entry
    at position [i] being that of the node [ord[i]]; and every occurrence
    of a node as a child, first or repeated, is stored as the reference
    record carrying the position of the node in [ord]. *)
Theorem one_identifier_per_node R fuel h root replacer :
  wf_heap R (normalize_replacer R replacer) h = true ->
  root < length h -> enough_fuel h fuel ->
  exists ord h',
    stringify R fuel h (VRef root) replacer =
      Ok (Some (table_json R (normalize_replacer R replacer)
                  (user_view R h) ord), h') /\
    NoDup ord /\ ord !! 0 = Some root /\
    (forall a, a ∈ ord <->
       reach (normalize_replacer R replacer) (user_view R h) root a) /\
    length (encode_table R (normalize_replacer R replacer)
              (user_view R h) ord) = length ord /\
    (forall i a, ord !! i = Some a ->
       (exists o, user_view R h !! a = Some o /\
          encode_table R (normalize_replacer R replacer) (user_view R h) ord
            !! i =
          Some (encode_node R (normalize_replacer R replacer) ord a o)) /\
       enc R ord (VRef a) = ref_to R (Z.of_nat i)).
Proof.
  intros Hwf Hr [Hf H5].
  destruct (stringify_run_spec R fuel h root replacer [] [] Hwf Hr Hf H5)
    as (s' & Hrun & Hh & _ & Hnd & [rest Hrest] & Hcl).
  set (rep := normalize_replacer R replacer) in *.
  set (ord := visit_order R replacer fuel h (VRef root)) in *.
  set (G := user_view R h) in *.
  exists ord, (heap s'). csplit.
  - unfold stringify. rewrite Hrun. reflexivity.
  - exact Hnd.
  - rewrite Hrest. reflexivity.
  - intros a. split; [apply visit_order_reach|].
    intros Ha. eapply reach_visited; eauto.
    + intros b Hb. destruct (Hcl b Hb) as (o & Ho & _ & Hk). eauto.
    + rewrite Hrest. left.
  - unfold encode_table. apply length_map.
  - intros i a Hi. split.
    + destruct (Hcl a) as (o & Ho & _); [eapply list_elem_of_lookup_2; eauto|].
      exists o. split; [exact Ho|]. unfold encode_table.
      rewrite list_lookup_fmap, Hi. simpl. unfold node_entry. rewrite Ho.
      reflexivity.
    + unfold enc. rewrite (index_of_nodup a ord i Hnd Hi). reflexivity.
Qed.

Lemma one_identifier_per_node_witness :
  wf_heap necromancer (normalize_replacer necromancer RNull) shared_pair
    = true /\
  0 < length shared_pair /\ enough_fuel shared_pair 5 /\
  exists ord h',
    stringify necromancer 5 shared_pair (VRef 0) RNull =
      Ok (Some (table_json necromancer (normalize_replacer necromancer RNull)
                  (user_view necromancer shared_pair) ord), h') /\
    NoDup ord /\ ord !! 0 = Some 0 /\
    (forall a, a ∈ ord <->
       reach (normalize_replacer necromancer RNull)
         (user_view necromancer shared_pair) 0 a) /\
    length (encode_table necromancer (normalize_replacer necromancer RNull)
              (user_view necromancer shared_pair) ord) = length ord /\
    (forall i a, ord !! i = Some a ->
       (exists o, user_view necromancer shared_pair !! a = Some o /\
          encode_table necromancer (normalize_replacer necromancer RNull)
            (user_view necromancer shared_pair) ord !! i =
          Some (encode_node necromancer
                  (normalize_replacer necromancer RNull) ord a o)) /\
       enc necromancer ord (VRef a) = ref_to necromancer (Z.of_nat i)).
Proof.
  assert (H1 : wf_heap necromancer (normalize_replacer necromancer RNull)
                 shared_pair = true) by reflexivity.
  assert (H3 : 0 < length shared_pair) by (simpl; lia).
  assert (H4 : enough_fuel shared_pair 5) by (split; simpl; lia).
  split; [exact H1|]. split; [exact H3|]. split; [exact H4|].
  apply (one_identifier_per_node necromancer 5 shared_pair 0 RNull H1 H3 H4).
Defined.

(** C4, as stated, fails: with the default options [stringify] leaves the
    key [#id], with value [null], on the objects it visited. *)
Lemma stringify_leaves_marker :
  stringify necromancer 5 [Obj ProtoObject [] [("a", VNum 1)]] (VRef 0) RNull =
    Ok (Some (JArr [JObj [("a", JNum 1)]]),
        [Obj ProtoObject [] [("a", VNum 1); ("#id", VNull)]]) /\
  [Obj ProtoObject [] [("a", VNum 1); ("#id", VNull)]] <>
  [Obj ProtoObject [] [("a", VNum 1)]].
Proof. split; [vm_compute; reflexivity | discriminate]. Qed.

(** C4, amended. After [stringify] returns, every object of the caller's
    heap is still there with the same prototype, the same elements and the
    same own properties, except for the reference-code key (the prefix
    followed by [id]), for every graph, replacer and option setting. *)
Theorem stringify_frame R fuel h object replacer out h' :
  stringify R fuel h object replacer = Ok (out, h') ->
  forall a o, h !! a = Some o ->
  exists o', h' !! a = Some o' /\
    o_proto o' = o_proto o /\ o_items o' = o_items o /\
    del_prop (refcode R) (o_props o') = del_prop (refcode R) (o_props o).
Proof.
  unfold stringify. intros H a o Ha.
  destruct (stringify_run R fuel object replacer (State h [] [] []))
    as [[x s']| | |] eqn:E; try discriminate.
  simpl in H. inversion H; subst.
  destruct (stringify_run_frame R fuel object replacer _ _ _ E) as [ext Hext].
  simpl in Hext.
  assert (Hl : user_view R (heap s') !! a = Some (_deleteRefcode R o)).
  { rewrite Hext. apply lookup_app_l_Some.
    rewrite user_view_lookup, Ha. reflexivity. }
  rewrite user_view_lookup in Hl.
  destruct (heap s' !! a) as [o'|]; [|discriminate].
  exists o'. split; [reflexivity|]. simpl in Hl. inversion Hl as [E2].
  rewrite E2. unfold _deleteRefcode, obj_del in E2. inversion E2. auto.
Qed.

Lemma stringify_frame_witness :
  stringify necromancer 5 shared_pair (VRef 0) RNull =
    Ok (Some (JArr [JArr [JObj [("#", JNum 1)]; JObj [("#", JNum 1)]];
                    JObj [("n", JNum 1)]]),
        [Obj ProtoArray [VRef 1; VRef 1] [("#id", VNull)];
         Obj ProtoObject [] [("n", VNum 1); ("#id", VNull)]]) /\
  forall a o, shared_pair !! a = Some o ->
  exists o',
    [Obj ProtoArray [VRef 1; VRef 1] [("#id", VNull)];
     Obj ProtoObject [] [("n", VNum 1); ("#id", VNull)]] !! a = Some o' /\
    o_proto o' = o_proto o /\ o_items o' = o_items o /\
    del_prop (refcode necromancer) (o_props o') =
    del_prop (refcode necromancer) (o_props o).
Proof.
  assert (H : stringify necromancer 5 shared_pair (VRef 0) RNull =
    Ok (Some (JArr [JArr [JObj [("#", JNum 1)]; JObj [("#", JNum 1)]];
                    JObj [("n", JNum 1)]]),
        [Obj ProtoArray [VRef 1; VRef 1] [("#id", VNull)];
         Obj ProtoObject [] [("n", VNum 1); ("#id", VNull)]]))
    by (vm_compute; reflexivity).
  split; [exact H|].
  apply (stringify_frame necromancer 5 shared_pair (VRef 0) RNull _ _ H).
Defined.

(** C5 fails on the code for patterns: the flags of a RegExp are read back
    from its text with a pattern that knows the letters g, i, m and y only,
    so the flag [s] of [/a/s] is lost on the way, at the root and inside a
    composite alike. *)
Theorem regexp_flags_dropped :
  stringify necromancer 5 [] (VRegExp "a" "s") RNull =
    Ok (Some (JObj [("#.", JStr "RegExp"); ("#v", JArr [JStr "a"; JStr ""])]),
        []) /\
  resurrect necromancer
    (JObj [("#.", JStr "RegExp"); ("#v", JArr [JStr "a"; JStr ""])]) =
    Ok (VRegExp "a" "", []) /\
  roundtrip_atom necromancer (VRegExp "a" "gsy") = Ok (VRegExp "a" "g") /\
  stringify necromancer 5 [Obj ProtoObject [] [("r", VRegExp "a" "s")]]
    (VRef 0) RNull =
    Ok (Some (JArr [JObj [("r", JObj [("#.", JStr "RegExp");
                                      ("#v", JArr [JStr "a"; JStr ""])])]]),
        [Obj ProtoObject [] [("r", VRegExp "a" "s"); ("#id", VNull)]]) /\
  resurrect necromancer
    (JArr [JObj [("r", JObj [("#.", JStr "RegExp");
                             ("#v", JArr [JStr "a"; JStr ""])])]]) =
    Ok (VRef 0, [EObj (Obj ProtoObject [] [("r", VRegExp "a" "")])]).
Proof. repeat split; vm_compute; reflexivity. Qed.

(** The other typed atoms of C5 come back as they were: the non-finite
    numbers, a BigInt of any size, and a Date with its milliseconds. *)
Example typed_atoms_roundtrip :
  roundtrip_atom necromancer VNaN = Ok VNaN /\
  roundtrip_atom necromancer (VInf false) = Ok (VInf false) /\
  roundtrip_atom necromancer (VInf true) = Ok (VInf true) /\
  (forall z, roundtrip_atom necromancer (VBigInt z) = Ok (VBigInt z)) /\
  roundtrip_atom necromancer (VDate (Some 1700000000123%Z)) =
    Ok (VDate (Some 1700000000123%Z)) /\
  roundtrip_atom necromancer (VRegExp "a+b" "gimy") = Ok (VRegExp "a+b" "gimy").
Proof.
  repeat split; try (vm_compute; reflexivity).
  intros z. apply roundtrip_exact; reflexivity.
Qed.

Lemma get_prop_replaced_undefined rep a k ps :
  get_prop k ps = Some VUndef ->
  get_prop k (replaced_fields rep a ps) = Some VUndef.
Proof.
  induction ps as [|[k' v'] ps IH]; simpl; [discriminate|].
  destruct (String.eqb k' k) eqn:E.
  - intros H. inversion H; subst.
    replace (replaced rep a k' VUndef) with (Some VUndef)
      by (destruct rep; reflexivity).
    simpl. rewrite E. reflexivity.
  - intros H. destruct (replaced rep a k' v'); simpl; [rewrite E|]; auto.
Qed.

Lemma get_prop_enc_field R ord k v ps :
  get_prop k ps = Some v ->
  get_prop k (map (enc_field R ord) ps) = Some (enc R ord v).
Proof.
  induction ps as [|[k' v'] ps IH]; simpl; [discriminate|].
  destruct (String.eqb k' k); auto. intros H. inversion H; subst. reflexivity.
Qed.

Lemma back_undefined R ord : back R ord VUndef = VUndef.
Proof.
  unfold back. rewrite (roundtrip_exact R VUndef eq_refl eq_refl). reflexivity.
Qed.

Lemma back_null R ord : back R ord VNull = VNull.
Proof. reflexivity. Qed.

(** C6. An object field holding [undefined] is encoded as the reference
    record with the identifier -1, which [decode] resolves to [undefined]
    whatever the table holds; so after [resurrect (stringify G)] the
    decoded object of every reachable object node has [undefined] where
    the node had [undefined], [null] where it had [null], and no field
    where it had none. *)
Theorem undefined_preserved R fuel h root :
  wf_heap R None h = true -> decodable_heap R None h = true ->
  root < length h -> enough_fuel h fuel ->
  handleAtom R VUndef = Ok (ref_to R (-1)) /\
  (forall table, decode R table (ref_to R (-1)) = Ok VUndef) /\
  exists text h' D phi,
    stringify R fuel h (VRef root) RNull = Ok (Some text, h') /\
    resurrect R text = Ok (VRef (phi root), D) /\
    forall a o,
      reach None (user_view R h) root a -> user_view R h !! a = Some o ->
      isArray_obj o = false ->
      exists e, D !! phi a = Some (EObj e) /\
        forall k,
          (get_prop k (o_props o) = Some VUndef ->
           get_prop k (o_props e) = Some VUndef) /\
          (get_prop k (o_props o) = Some VNull ->
           get_prop k (o_props e) = Some VNull) /\
          (get_prop k (o_props o) = None -> get_prop k (o_props e) = None).
Proof.
  intros Hwf Hdec Hr Hfuel.
  split; [reflexivity|]. split; [intros table; apply (decode_undefined R table)|].
  destruct (roundtrip_spec R fuel h root RNull Hwf Hdec Hr Hfuel)
    as (Hs & Hd & Hnd & [rest Hrest] & Hc).
  simpl in Hs, Hd, Hc.
  set (ord := visit_order R RNull fuel h (VRef root)) in *.
  set (G := user_view R h) in *.
  assert (Hroot : root ∈ ord) by (rewrite Hrest; left).
  exists (table_json R None G ord), (release_heap R ord h),
    (decode_table R None G ord), (node_index ord).
  csplit.
  - exact Hs.
  - rewrite Hd, Hrest, node_index_head. reflexivity.
  - intros a o Ha Ho Harr.
    pose proof (reach_closed _ _ _ _ _ _ Hc Hroot Ha) as Hin.
    exists (decode_node R None ord a o). split.
    + rewrite decode_table_lookup by exact Hin. unfold node_image.
      rewrite Ho. reflexivity.
    + intros k. unfold decode_node. rewrite Harr. simpl.
      rewrite replaced_fields_none. csplit; intros Hk.
      * rewrite (get_prop_back_field R ord k VUndef _ Hk).
        rewrite back_undefined. reflexivity.
      * rewrite (get_prop_back_field R ord k VNull _ Hk). reflexivity.
      * apply get_prop_back_field_None. exact Hk.
Qed.

Lemma undefined_preserved_witness :
  wf_heap necromancer None sparse_record = true /\
  decodable_heap necromancer None sparse_record = true /\
  0 < length sparse_record /\ enough_fuel sparse_record 5 /\
  handleAtom necromancer VUndef = Ok (ref_to necromancer (-1)) /\
  (forall table, decode necromancer table (ref_to necromancer (-1)) = Ok VUndef) /\
  exists text h' D phi,
    stringify necromancer 5 sparse_record (VRef 0) RNull = Ok (Some text, h') /\
    resurrect necromancer text = Ok (VRef (phi 0), D) /\
    forall a o,
      reach None (user_view necromancer sparse_record) 0 a ->
      user_view necromancer sparse_record !! a = Some o ->
      isArray_obj o = false ->
      exists e, D !! phi a = Some (EObj e) /\
        forall k,
          (get_prop k (o_props o) = Some VUndef ->
           get_prop k (o_props e) = Some VUndef) /\
          (get_prop k (o_props o) = Some VNull ->
           get_prop k (o_props e) = Some VNull) /\
          (get_prop k (o_props o) = None -> get_prop k (o_props e) = None).
Proof.
  assert (H1 : wf_heap necromancer None sparse_record = true) by reflexivity.
  assert (H2 : decodable_heap necromancer None sparse_record = true)
    by reflexivity.
  assert (H3 : 0 < length sparse_record) by (simpl; lia).
  assert (H4 : enough_fuel sparse_record 5) by (split; simpl; lia).
  split; [exact H1|]. split; [exact H2|]. split; [exact H3|].
  split; [exact H4|].
  apply (undefined_preserved necromancer 5 sparse_record 0 H1 H2 H3 H4).
Defined.

(** The scenario of C6: [{u: undefined, n: null, x: 1}] is written with the
    reference -1 for [u] and read back with the three fields told apart. *)
Example sparse_record_roundtrip :
  stringify necromancer 5 sparse_record (VRef 0) RNull =
    Ok (Some (JArr [JObj [("u", JObj [("#", JNum (-1))]); ("n", JNull);
                          ("x", JNum 1)]]),
        [Obj ProtoObject []
           [("u", VUndef); ("n", VNull); ("x", VNum 1); ("#id", VNull)]]) /\
  resurrect necromancer
    (JArr [JObj [("u", JObj [("#", JNum (-1))]); ("n", JNull);
                 ("x", JNum 1)]]) =
    Ok (VRef 0,
        [EObj (Obj ProtoObject [] [("u", VUndef); ("n", VNull); ("x", VNum 1)])]).
Proof. split; vm_compute; reflexivity. Qed.

Lemma invoked_defined R fuel object replacer :
  keeps (fun s s' => forall c, c ∈ invoked s' ->
           c ∈ invoked s \/ isUndefined (snd c) = false)
        (stringify_run R fuel object replacer).
Proof.
  apply keeps_stringify_run.
  - intros s c Hc. left. exact Hc.
  - intros s1 s2 s3 H12 H23 c Hc.
    destruct (H23 c Hc) as [H|H]; [apply H12; exact H | right; exact H].
  - intros a f _ s [] s' H. unfold update in H.
    destruct (heap s !! a); inversion H; subst; simpl. auto.
  - intros i f s [] s' H. unfold update_copy in H.
    destruct (table s !! i); inversion H; subst; simpl. auto.
  - intros cs s [] s' H. inversion H; subst; simpl. auto.
  - intros rep a k v s x s' H. unfold call_replacer in H.
    destruct rep as [r|]; [|inversion H; subst; auto].
    destruct (isUndefined v) eqn:E; [inversion H; subst; auto|].
    destruct (r (VRef a) k v) as [v' ucs].
    unfold bind, log_invoked, log_user, ret in H. simpl in H.
    inversion H; subst; simpl. intros c Hc.
    apply elem_of_app in Hc as [Hc|Hc]; [left; exact Hc|].
    apply list_elem_of_singleton in Hc. subst c. right. exact E.
  - intros v s a s' H. unfold locate in H.
    destruct v; inversion H; subst; simpl; auto.
  - intros s c x Hx. left. exact Hx.
Qed.

(** C10. In a [stringify] with any replacer -- none, a function or a list
    of accepted keys -- no guarded call of the replacer in the walk has
    the value [undefined]; an object field holding [undefined] is written
    as the reference record with the identifier -1 in the entry of its
    object, and the decoded object has the field, with the value
    [undefined], whatever the replacer answers for its key. *)
Theorem undefined_bypasses_replacer R fuel h root replacer :
  wf_heap R (normalize_replacer R replacer) h = true ->
  decodable_heap R (normalize_replacer R replacer) h = true ->
  root < length h -> enough_fuel h fuel ->
  exists ord s' D phi,
    stringify_run R fuel (VRef root) replacer (State h [] [] []) =
      Ok (Some (table_json R (normalize_replacer R replacer)
                  (user_view R h) ord), s') /\
    (forall this k v, (this, k, v) ∈ invoked s' -> v <> VUndef) /\
    resurrect R (table_json R (normalize_replacer R replacer)
                   (user_view R h) ord) = Ok (VRef (phi root), D) /\
    forall a o k,
      reach (normalize_replacer R replacer) (user_view R h) root a ->
      user_view R h !! a = Some o -> isArray_obj o = false ->
      get_prop k (o_props o) = Some VUndef ->
      get_prop k (o_props (encode_node R (normalize_replacer R replacer)
                             ord a o)) = Some (ref_to R (-1)) /\
      exists e, D !! phi a = Some (EObj e) /\
                get_prop k (o_props e) = Some VUndef.
Proof.
  intros Hwf Hdec Hr Hfuel.
  destruct (roundtrip_spec R fuel h root replacer Hwf Hdec Hr Hfuel)
    as (Hs & Hd & Hnd & [rest Hrest] & Hc).
  simpl in Hs, Hd, Hc.
  set (rep := normalize_replacer R replacer) in *.
  set (ord := visit_order R replacer fuel h (VRef root)) in *.
  set (G := user_view R h) in *.
  assert (Hroot : root ∈ ord) by (rewrite Hrest; left).
  unfold stringify in Hs.
  destruct (stringify_run R fuel (VRef root) replacer (State h [] [] []))
    as [[x s']| | |] eqn:E; try discriminate.
  simpl in Hs. inversion Hs; subst x.
  exists ord, s', (decode_table R rep G ord), (node_index ord).
  csplit.
  - reflexivity.
  - intros this k v Hin ->.
    destruct (invoked_defined R fuel (VRef root) replacer _ _ _ E _ Hin)
      as [H|H]; [|discriminate].
    simpl in H. inversion H.
  - rewrite Hd, Hrest, node_index_head. reflexivity.
  - intros a o k Ha Ho Harr Hk.
    pose proof (reach_closed _ _ _ _ _ _ Hc Hroot Ha) as Hin.
    pose proof (get_prop_replaced_undefined rep a k _ Hk) as Hk'.
    split.
    + unfold encode_node. rewrite Harr. simpl.
      rewrite (get_prop_enc_field R ord k VUndef _ Hk'). reflexivity.
    + exists (decode_node R rep ord a o). split.
      * rewrite decode_table_lookup by exact Hin. unfold node_image.
        rewrite Ho. reflexivity.
      * unfold decode_node. rewrite Harr. simpl.
        rewrite (get_prop_back_field R ord k VUndef _ Hk').
        rewrite back_undefined. reflexivity.
Qed.

Lemma undefined_bypasses_replacer_witness :
  wf_heap necromancer (normalize_replacer necromancer (RKeys [])) sparse_record
    = true /\
  decodable_heap necromancer (normalize_replacer necromancer (RKeys []))
    sparse_record = true /\
  0 < length sparse_record /\ enough_fuel sparse_record 5 /\
  exists ord s' D phi,
    stringify_run necromancer 5 (VRef 0) (RKeys []) (State sparse_record [] [] []) =
      Ok (Some (table_json necromancer
                  (normalize_replacer necromancer (RKeys []))
                  (user_view necromancer sparse_record) ord), s') /\
    (forall this k v, (this, k, v) ∈ invoked s' -> v <> VUndef) /\
    resurrect necromancer
      (table_json necromancer (normalize_replacer necromancer (RKeys []))
         (user_view necromancer sparse_record) ord) = Ok (VRef (phi 0), D) /\
    forall a o k,
      reach (normalize_replacer necromancer (RKeys []))
        (user_view necromancer sparse_record) 0 a ->
      user_view necromancer sparse_record !! a = Some o ->
      isArray_obj o = false ->
      get_prop k (o_props o) = Some VUndef ->
      get_prop k (o_props (encode_node necromancer
                             (normalize_replacer necromancer (RKeys []))
                             ord a o)) = Some (ref_to necromancer (-1)) /\
      exists e, D !! phi a = Some (EObj e) /\
                get_prop k (o_props e) = Some VUndef.
Proof.
  assert (H1 : wf_heap necromancer (normalize_replacer necromancer (RKeys []))
                 sparse_record = true) by reflexivity.
  assert (H2 : decodable_heap necromancer
                 (normalize_replacer necromancer (RKeys [])) sparse_record
               = true) by reflexivity.
  assert (H3 : 0 < length sparse_record) by (simpl; lia).
  assert (H4 : enough_fuel sparse_record 5) by (split; simpl; lia).
  split; [exact H1|]. split; [exact H2|]. split; [exact H3|].
  split; [exact H4|].
  apply (undefined_bypasses_replacer necromancer 5 sparse_record 0 (RKeys [])
           H1 H2 H3 H4).
Defined.

(** The scenario of C10: with a list of accepted keys that accepts none,
    [{u: undefined, n: null, x: 1}] keeps [u] and nothing else. *)
Example allowlist_keeps_undefined :
  stringify necromancer 5 sparse_record (VRef 0) (RKeys []) =
    Ok (Some (JArr [JObj [("u", JObj [("#", JNum (-1))])]]),
        [Obj ProtoObject []
           [("u", VUndef); ("n", VNull); ("x", VNum 1); ("#id", VNull)]]) /\
  resurrect necromancer (JArr [JObj [("u", JObj [("#", JNum (-1))])]]) =
    Ok (VRef 0, [EObj (Obj ProtoObject [] [("u", VUndef)])]).
Proof. split; vm_compute; reflexivity. Qed.

Lemma field_calls_wrapper R f a ps :
  field_calls (Some (replacerWrapper R f)) a ps = expected_calls R a ps.
Proof.
  unfold field_calls, expected_calls, replacerWrapper.
  induction ps as [|[k v] ps IH]; simpl; [reflexivity|]. rewrite IH.
  destruct (isUndefined v), (String.prefix (prefix R) k); reflexivity.
Qed.

Lemma node_calls_wrapper R f G a :
  node_calls (Some (replacerWrapper R f)) G a = expected_node_calls R G a.
Proof.
  unfold node_calls, expected_node_calls. destruct (G !! a) as [o|]; auto.
  destruct (isArray_obj o); auto. apply field_calls_wrapper.
Qed.

Lemma get_prop_replaced_None rep a k ps :
  get_prop k ps = None -> get_prop k (replaced_fields rep a ps) = None.
Proof.
  induction ps as [|[k' v'] ps IH]; simpl; auto.
  destruct (String.eqb k' k) eqn:E; [discriminate|]. intros H.
  destruct (replaced rep a k' v'); simpl; [rewrite E|]; auto.
Qed.

Lemma get_prop_replaced_omitted rep a k v ps :
  nodup_keys ps = true -> get_prop k ps = Some v ->
  replaced rep a k v = None ->
  get_prop k (replaced_fields rep a ps) = None.
Proof.
  induction ps as [|[k' v'] ps IH]; simpl; [discriminate|].
  intros Hn Hk Hr. apply andb_true_iff in Hn as [Hn1 Hn2].
  destruct (String.eqb k' k) eqn:E.
  - apply String.eqb_eq in E. subst k'. inversion Hk; subst v'. rewrite Hr.
    apply get_prop_replaced_None. apply has_prop_false.
    apply negb_true_iff. exact Hn1.
  - destruct (replaced rep a k' v'); simpl; [rewrite E|]; auto.
Qed.

(** C7, as stated, fails: the replacer is not called for an own field
    whose value is [undefined]; on [{u: undefined, n: null, x: 1}] the
    user's function is called for [n] and [x] only. *)
Lemma replacer_skips_undefined_field :
  get_prop "u" (o_props (Obj ProtoObject []
                   [("u", VUndef); ("n", VNull); ("x", VNum 1)])) =
    Some VUndef /\
  stringify_run necromancer 5 (VRef 0) (RFn (fun _ _ v => v))
    (State sparse_record [] [] []) =
    Ok (Some (JArr [JObj [("u", JObj [("#", JNum (-1))]); ("n", JNull);
                          ("x", JNum 1)]]),
        State [Obj ProtoObject []
                 [("u", VUndef); ("n", VNull); ("x", VNum 1); ("#id", VNull)]]
              [Obj ProtoObject []
                 [("u", VRec [("#", VNum (-1))]); ("n", VNull); ("x", VNum 1)]]
              [(VRef 0, "n", VNull); (VRef 0, "x", VNum 1);
               (VRef 0, "#id", VNum 0)]
              [(VRef 0, "n", VNull); (VRef 0, "x", VNum 1)]).
Proof. split; vm_compute; reflexivity. Qed.

(** The walk is for a root that is an object or an array.  For a root that
    is an atom the wrapped function goes to [JSON.stringify] with the
    encoding of the atom: it is called for the root key, and for the
    elements of the array of arguments of a builder. *)
Example replacer_on_atom_root :
  stringify_run necromancer 5 VNaN (RFn (fun _ _ v => v))
    (State [] [] [] []) =
    Ok (Some (JObj [("#.", JStr "Number"); ("#v", JArr [JStr "NaN"])]),
        State [] [] []
          [(VRec [(EmptyString,
                   VRec [("#.", VStr "Number"); ("#v", VList [VStr "NaN"])])],
            EmptyString,
            VRec [("#.", VStr "Number"); ("#v", VList [VStr "NaN"])]);
           (VList [VStr "NaN"], "0", VStr "NaN")]).
Proof. vm_compute. reflexivity. Qed.

(** C7, amended. In a [stringify] of an object or array of a graph of plain
    objects and arrays, with a replacer function [f] that answers
    [undefined], an atom that has an encoding, or a node of the graph, the
    calls of [f] are, up to their order, one call per own field, of each
    reachable object node, whose value is not [undefined] and whose key
    does not start with the prefix; none is made for an array element or
    for a bookkeeping key.  A field for which [f] answers [undefined] has
    no key in the entry of its object. *)
Theorem replacer_calls R fuel h root f :
  wf_heap R (normalize_replacer R (RFn f)) h = true ->
  root < length h -> enough_fuel h fuel ->
  exists ord s',
    stringify_run R fuel (VRef root) (RFn f) (State h [] [] []) =
      Ok (Some (table_json R (normalize_replacer R (RFn f))
                  (user_view R h) ord), s') /\
    NoDup ord /\
    (forall a, a ∈ ord <->
       reach (normalize_replacer R (RFn f)) (user_view R h) root a) /\
    user_calls s' ≡ₚ flat_map (expected_node_calls R (user_view R h)) ord /\
    forall a o k v,
      a ∈ ord -> user_view R h !! a = Some o -> isArray_obj o = false ->
      get_prop k (o_props o) = Some v -> v <> VUndef ->
      f (VRef a) k v = VUndef ->
      get_prop k (o_props (encode_node R (normalize_replacer R (RFn f))
                             ord a o)) = None.
Proof.
  intros Hwf Hr [Hf1 Hf2].
  destruct (stringify_run_spec R fuel h root (RFn f) [] [] Hwf Hr Hf1 Hf2)
    as (s' & Hrun & Hheap & Hcalls & Hnd & [rest Hrest] & Hc).
  simpl in Hrun, Hcalls, Hc.
  set (ord := visit_order R (RFn f) fuel h (VRef root)) in *.
  set (G := user_view R h) in *.
  assert (Hroot : root ∈ ord) by (rewrite Hrest; left).
  exists ord, s'. csplit.
  - exact Hrun.
  - exact Hnd.
  - intros a. split.
    + apply visit_order_reach.
    + intros Ha. eapply reach_visited; [|exact Hroot|exact Ha].
      intros b Hb. destruct (Hc b Hb) as (o & Ho & _ & Hk). eauto.
  - rewrite Hcalls. erewrite flat_map_ext; [reflexivity|].
    intros a. apply node_calls_wrapper.
  - intros a o k v Ha Ho Harr Hk Hv Hfv.
    destruct (Hc a Ha) as (o' & Ho' & Hw & _).
    assert (o' = o) by congruence. subst o'.
    unfold wf_content in Hw. repeat (apply andb_true_iff in Hw as [Hw ?]).
    unfold encode_node. rewrite Harr. simpl.
    apply get_prop_map_enc; [intros [k' v']; reflexivity|].
    eapply get_prop_replaced_omitted; eauto.
    assert (Hp : String.prefix (prefix R) k = false).
    { match goal with H : forallb (free_key R) _ = true |- _ =>
        rewrite forallb_forall in H;
        specialize (H (k, v)) end.
      assert (Hin : In (k, v) (o_props o)).
      { clear - Hk. induction (o_props o) as [|[k' v'] ps IH];
          simpl in *; [discriminate|].
        destruct (String.eqb k' k) eqn:E.
        - apply String.eqb_eq in E. inversion Hk; subst. left. reflexivity.
        - right. auto. }
      match goal with H : In _ _ -> free_key R _ = true |- _ =>
        apply H in Hin; unfold free_key in Hin; simpl in Hin;
        apply negb_true_iff in Hin; exact Hin end. }
    unfold replaced, replacerWrapper. simpl.
    replace (isUndefined v) with false by (destruct v; try reflexivity; congruence).
    rewrite Hp. simpl. rewrite Hfv. reflexivity.
Qed.

Lemma replacer_calls_witness :
  wf_heap necromancer (normalize_replacer necromancer (RFn omit_b)) two_fields
    = true /\
  0 < length two_fields /\ enough_fuel two_fields 5 /\
  exists ord s',
    stringify_run necromancer 5 (VRef 0) (RFn omit_b)
      (State two_fields [] [] []) =
      Ok (Some (table_json necromancer
                  (normalize_replacer necromancer (RFn omit_b))
                  (user_view necromancer two_fields) ord), s') /\
    NoDup ord /\
    (forall a, a ∈ ord <->
       reach (normalize_replacer necromancer (RFn omit_b))
         (user_view necromancer two_fields) 0 a) /\
    user_calls s' ≡ₚ
      flat_map (expected_node_calls necromancer
                  (user_view necromancer two_fields)) ord /\
    forall a o k v,
      a ∈ ord -> user_view necromancer two_fields !! a = Some o ->
      isArray_obj o = false ->
      get_prop k (o_props o) = Some v -> v <> VUndef ->
      omit_b (VRef a) k v = VUndef ->
      get_prop k (o_props (encode_node necromancer
                             (normalize_replacer necromancer (RFn omit_b))
                             ord a o)) = None.
Proof.
  assert (H1 : wf_heap necromancer
                 (normalize_replacer necromancer (RFn omit_b)) two_fields
               = true) by reflexivity.
  assert (H2 : 0 < length two_fields) by (simpl; lia).
  assert (H3 : enough_fuel two_fields 5) by (split; simpl; lia).
  split; [exact H1|]. split; [exact H2|]. split; [exact H3|].
  apply (replacer_calls necromancer 5 two_fields 0 omit_b H1 H2 H3).
Defined.

(** The scenario of C7: [{a: 1, b: 2}] with a replacer that omits [b] is
    written and read back as [{a: 1}], the function having been called
    once for [a] and once for [b]. *)
Example omission_roundtrip :
  stringify_run necromancer 5 (VRef 0) (RFn omit_b)
    (State two_fields [] [] []) =
    Ok (Some (JArr [JObj [("a", JNum 1)]]),
        State [Obj ProtoObject [] [("a", VNum 1); ("b", VNum 2); ("#id", VNull)]]
              [Obj ProtoObject [] [("a", VNum 1)]]
              [(VRef 0, "a", VNum 1); (VRef 0, "b", VNum 2);
               (VRef 0, "#id", VNum 0)]
              [(VRef 0, "a", VNum 1); (VRef 0, "b", VNum 2)]) /\
  resurrect necromancer (JArr [JObj [("a", JNum 1)]]) =
    Ok (VRef 0, [EObj (Obj ProtoObject [] [("a", VNum 1)])]).
Proof. split; vm_compute; reflexivity. Qed.

Lemma wf_nodes_intro R rep n h : forall a0,
  (forall i o, h !! i = Some o -> wf_node R rep n (a0 + i) o = true) ->
  wf_nodes R rep n a0 h = true.
Proof.
  induction h as [|x h IH]; intros a0 H; simpl; [reflexivity|].
  apply andb_true_iff. split.
  - specialize (H 0 x eq_refl). rewrite Nat.add_0_r in H. exact H.
  - apply IH. intros i o Hi. specialize (H (S i) o Hi).
    rewrite Nat.add_succ_r in H. exact H.
Qed.





Lemma length_release_heap R ord h : length (release_heap R ord h) = length h.
Proof. unfold release_heap. apply length_imap. Qed.




Lemma stringify_composite R fuel h root replacer :
  wf_heap R (normalize_replacer R replacer) h = true ->
  root < length h -> enough_fuel h fuel ->
  stringify R fuel h (VRef root) replacer =
    Ok (Some (table_json R (normalize_replacer R replacer) (user_view R h)
                (visit_order R replacer fuel h (VRef root))),
        release_heap R (visit_order R replacer fuel h (VRef root)) h).
Proof.
  intros Hwf Hr [Hf1 Hf2].
  destruct (stringify_run_spec R fuel h root replacer [] [] Hwf Hr Hf1 Hf2)
    as (s' & Hrun & Hheap & _).
  unfold stringify. rewrite Hrun. simpl. rewrite Hheap. reflexivity.
Qed.



Lemma construct_decided name args : decided (construct name args) = true.
Proof.
  unfold construct.
  repeat match goal with
         | |- context [match ?x with _ => _ end] => destruct x
         | |- context [if ?x then _ else _] => destruct x
         end; reflexivity.
Qed.

Lemma decode_child_decided R t c :
  parsed c = true -> decided (decode_child R t c) = true.
Proof.
  destruct c; try discriminate; intros _; try reflexivity.
  - unfold decode_child, decode. simpl isAtom. cbv iota.
    destruct (has_prop (prefix R) fields).
    { unfold deref. destruct (stringable _); reflexivity. }
    destruct (has_prop (buildcode R) fields); [|reflexivity].
    unfold build. destruct (read_prop (buildcode R) fields); try reflexivity.
    apply construct_decided.
Qed.

Lemma malformed_throws R t c :
  malformed R c = true -> decode_child R t c = Throw "Unknown encoding.".
Proof.
  destruct c; try discriminate; simpl; [|reflexivity].
  intros H. apply andb_true_iff in H as [H1 H2].
  apply negb_true_iff in H1, H2.
  unfold decode_child, decode. simpl. rewrite H1, H2. reflexivity.
Qed.

Lemma decode_items_decided R t xs :
  forallb parsed xs = true -> decided (decode_items R t xs) = true.
Proof.
  induction xs as [|x xs IH]; simpl; [reflexivity|]. intros H.
  apply andb_true_iff in H as [H1 H2].
  pose proof (decode_child_decided R t x H1) as Hx.
  destruct (decode_child R t x); try discriminate; [|reflexivity]. simpl.
  specialize (IH H2). destruct (decode_items R t xs); try discriminate;
    reflexivity.
Qed.

Lemma decode_items_throws R t xs c :
  forallb parsed xs = true -> c ∈ xs -> malformed R c = true ->
  throws (decode_items R t xs) = true.
Proof.
  induction xs as [|x xs IH]; simpl; intros H Hc Hm; [inversion Hc|].
  apply andb_true_iff in H as [H1 H2].
  apply elem_of_cons in Hc as [->|Hc].
  - rewrite (malformed_throws R t x Hm). reflexivity.
  - pose proof (decode_child_decided R t x H1) as Hx.
    destruct (decode_child R t x); try discriminate; [|reflexivity]. simpl.
    specialize (IH H2 Hc Hm).
    destruct (decode_items R t xs); try discriminate; reflexivity.
Qed.

Lemma decode_props_decided R t ps :
  forallb parsed (map snd ps) = true -> decided (decode_props R t ps) = true.
Proof.
  induction ps as [|[k x] ps IH]; simpl; [reflexivity|]. intros H.
  apply andb_true_iff in H as [H1 H2].
  pose proof (decode_child_decided R t x H1) as Hx.
  destruct (decode_child R t x); try discriminate; [|reflexivity]. simpl.
  specialize (IH H2). destruct (decode_props R t ps); try discriminate;
    reflexivity.
Qed.

Lemma decode_props_throws R t ps c :
  forallb parsed (map snd ps) = true -> c ∈ map snd ps ->
  malformed R c = true -> throws (decode_props R t ps) = true.
Proof.
  induction ps as [|[k x] ps IH]; simpl; intros H Hc Hm; [inversion Hc|].
  apply andb_true_iff in H as [H1 H2].
  apply elem_of_cons in Hc as [->|Hc].
  - rewrite (malformed_throws R t x Hm). reflexivity.
  - pose proof (decode_child_decided R t x H1) as Hx.
    destruct (decode_child R t x); try discriminate; [|reflexivity]. simpl.
    specialize (IH H2 Hc Hm).
    destruct (decode_props R t ps); try discriminate; reflexivity.
Qed.

Lemma resolve_entry_decided R t e :
  forallb parsed (children e) = true -> decided (resolve_entry R t e) = true.
Proof.
  destruct e as [v|o]; simpl; [reflexivity|]. rewrite forallb_app.
  intros H. apply andb_true_iff in H as [H1 H2].
  pose proof (decode_items_decided R t _ H1) as Hi.
  destruct (decode_items R t (o_items o)); try discriminate; [|reflexivity].
  simpl. pose proof (decode_props_decided R t _ H2) as Hp.
  destruct (decode_props R t (o_props o)); try discriminate; reflexivity.
Qed.

Lemma resolve_entry_throws R t e c :
  forallb parsed (children e) = true -> c ∈ children e ->
  malformed R c = true -> throws (resolve_entry R t e) = true.
Proof.
  destruct e as [v|o]; simpl; intros H Hc Hm; [inversion Hc|].
  rewrite forallb_app in H. apply andb_true_iff in H as [H1 H2].
  apply elem_of_app in Hc as [Hc|Hc].
  - pose proof (decode_items_throws R t _ c H1 Hc Hm) as Hi.
    destruct (decode_items R t (o_items o)); try discriminate. reflexivity.
  - pose proof (decode_items_decided R t _ H1) as Hi.
    destruct (decode_items R t (o_items o)); try discriminate; [|reflexivity].
    simpl. pose proof (decode_props_throws R t _ c H2 Hc Hm) as Hp.
    destruct (decode_props R t (o_props o)); try discriminate. reflexivity.
Qed.

Lemma resolve_from_throws R idx : forall table i e c,
  NoDup idx ->
  (forall j, j ∈ idx -> exists x, table !! j = Some x /\
     forallb parsed (children x) = true) ->
  i ∈ idx -> table !! i = Some e -> c ∈ children e ->
  malformed R c = true ->
  throws (resolve_from R idx table) = true.
Proof.
  induction idx as [|j idx IH]; intros table i e c Hnd Hall Hi He Hc Hm;
    [inversion Hi|].
  simpl. apply NoDup_cons in Hnd as [Hj Hnd].
  destruct (Hall j) as (x & Hx & Hpx); [left|]. rewrite Hx.
  apply elem_of_cons in Hi as [->|Hi].
  - assert (x = e) by congruence. subst x.
    pose proof (resolve_entry_throws R table e c Hpx Hc Hm) as Ht.
    destruct (resolve_entry R table e); try discriminate. reflexivity.
  - pose proof (resolve_entry_decided R table x Hpx) as Hd.
    destruct (resolve_entry R table x) as [x'| | |]; try discriminate;
      [|reflexivity].
    simpl. assert (Hij : j <> i) by (intros ->; contradiction).
    apply (IH _ i e c); auto.
    + intros k Hk. assert (Hjk : j <> k) by (intros ->; contradiction).
      rewrite list_lookup_insert_ne by exact Hjk. apply Hall. right. exact Hk.
    + rewrite list_lookup_insert_ne by exact Hij. exact He.
Qed.

Lemma fixPrototype_spec R e :
  match fixPrototype R e with
  | Ok e' => children e' = children e
  | Throw _ => True
  | _ => False
  end.
Proof.
  destruct e as [v|o]; simpl; [exact I|].
  destruct (_hasTag R o); [|reflexivity].
  destruct (_getTag R o); try exact I.
  unfold getPrototype. destruct (scope R s); simpl; [reflexivity|exact I].
Qed.

Lemma fix_all_spec R es :
  match fix_all R es with
  | Ok es' => map children es' = map children es
  | Throw _ => True
  | _ => False
  end.
Proof.
  induction es as [|e es IH]; simpl; [reflexivity|].
  pose proof (fixPrototype_spec R e) as He.
  destruct (fixPrototype R e) as [e'| | |]; try contradiction; [|exact I].
  simpl. destruct (fix_all R es) as [es'| | |]; try contradiction; [|exact I].
  simpl. rewrite He, IH. reflexivity.
Qed.

Lemma fixPrototype_unknown R e :
  unknown_type R e = true -> throws (fixPrototype R e) = true.
Proof.
  destruct e as [v|o]; simpl; [reflexivity|].
  unfold _hasTag, _getTag, has_prop, read_prop.
  destruct (get_prop (prefix R) (o_props o)) as [[]|]; try discriminate.
  unfold getPrototype. destruct (scope R s); [discriminate|reflexivity].
Qed.

Lemma fix_all_throws R es : forall i e,
  es !! i = Some e -> unknown_type R e = true ->
  throws (fix_all R es) = true.
Proof.
  induction es as [|x es IH]; intros i e Hi Hu; [discriminate|]. simpl.
  destruct i as [|i]; simpl in Hi.
  - inversion Hi; subst x. pose proof (fixPrototype_unknown R e Hu) as Ht.
    destruct (fixPrototype R e); try discriminate. reflexivity.
  - pose proof (fixPrototype_spec R x) as Hx.
    destruct (fixPrototype R x); try contradiction; [|reflexivity]. simpl.
    specialize (IH i e Hi Hu).
    destruct (fix_all R es); try discriminate. reflexivity.
Qed.

Lemma parsed_JSON_parse j : parsed (JSON_parse j) = true.
Proof. destruct j; reflexivity. Qed.

Lemma set_prop_values (P : value -> bool) k v ps :
  P v = true -> forallb (fun p => P (snd p)) ps = true ->
  forallb (fun p => P (snd p)) (set_prop k v ps) = true.
Proof.
  intros Hv. induction ps as [|[k' v'] ps IH]; simpl; intros H.
  - rewrite Hv. reflexivity.
  - apply andb_true_iff in H as [H1 H2].
    destruct (String.eqb k' k); simpl.
    + rewrite Hv. exact H2.
    + rewrite H1. apply IH. exact H2.
Qed.

Lemma object_of_values (P : value -> bool) ps :
  forallb (fun p => P (snd p)) ps = true ->
  forallb (fun p => P (snd p)) (object_of ps) = true.
Proof.
  unfold object_of.
  assert (Hacc : forallb (fun p : string * value => P (snd p)) [] = true)
    by reflexivity.
  revert Hacc. generalize (@nil (string * value)) as acc.
  induction ps as [|[k v] ps IH]; intros acc Hacc H; simpl; [exact Hacc|].
  simpl in H. apply andb_true_iff in H as [H1 H2].
  apply IH; [|exact H2]. apply set_prop_values; assumption.
Qed.

Lemma children_parsed j :
  forallb parsed (children (entry_of (JSON_parse j))) = true.
Proof.
  destruct j as [| | | |l|l]; try reflexivity; simpl.
  - rewrite app_nil_r. induction l as [|x l IH]; simpl; [reflexivity|].
    rewrite parsed_JSON_parse. exact IH.
  - rewrite forallb_forall. intros x Hx.
    apply in_map_iff in Hx as ([k y] & <- & Hy).
    assert (H : forallb (fun p : string * value => parsed (snd p))
                  (object_of
                     (map (fun p : string * json => (fst p, JSON_parse (snd p)))
                        l)) = true).
    { apply object_of_values. clear Hy.
      induction l as [|[k' x'] l IH]; simpl; [reflexivity|].
      rewrite parsed_JSON_parse. exact IH. }
    rewrite forallb_forall in H. apply (H (k, y)). exact Hy.
Qed.

Lemma resolve_table_throws R t1 i e c :
  (forall j x, t1 !! j = Some x -> forallb parsed (children x) = true) ->
  t1 !! i = Some e -> c ∈ children e -> malformed R c = true ->
  throws (resolve_from R (seq 0 (length t1)) t1) = true.
Proof.
  intros Hall He Hc Hm.
  apply (resolve_from_throws R _ t1 i e c); auto.
  - apply NoDup_seq.
  - intros j Hj. apply elem_of_seq in Hj.
    destruct (lookup_lt_is_Some_2 t1 j) as [x Hx]; [lia|].
    exists x. split; [exact Hx|]. eapply Hall. exact Hx.
  - apply elem_of_seq. apply lookup_lt_Some in He. lia.
Qed.

Lemma children_lookup (t0 t1 : list entry) j :
  map children t1 = map children t0 ->
  children <$> t1 !! j = children <$> t0 !! j.
Proof.
  intros H. rewrite <- !list_lookup_fmap.
  change (map children t1 !! j = map children t0 !! j). rewrite H. reflexivity.
Qed.

Lemma parsed_table js j x :
  map entry_of (map JSON_parse js) !! j = Some x ->
  forallb parsed (children x) = true.
Proof.
  intros H. change (((entry_of <$> (JSON_parse <$> js)) !! j) = Some x) in H.
  rewrite !list_lookup_fmap in H.
  destruct (js !! j) as [y|]; simpl in H; [|discriminate].
  inversion H; subst. apply children_parsed.
Qed.

Lemma dangling_reference R table n :
  (n < 0 \/ Z.of_nat (length table) <= n)%Z ->
  decode R table (ref_to R n) = Ok VUndef.
Proof.
  intros Hn. unfold decode, ref_to, deref, has_prop, read_prop. simpl.
  rewrite String.eqb_refl. simpl.
  destruct (0 <=? n)%Z eqn:E; [|reflexivity].
  apply Z.leb_le in E.
  rewrite (lookup_ge_None_2 table (Z.to_nat n)) by lia. reflexivity.
Qed.

(** The identifiers of a reference are property keys of the table: an
    array with one element names what the element names, [length] names
    the number of entries, a text with a leading zero names nothing, and an
    object with a key [toString] cannot be made a key at all. *)
Example reference_identifiers :
  resurrect necromancer (JArr [JObj [("a", JObj [("#", JArr [JNum 0])])]]) =
    Ok (VRef 0, [EObj (Obj ProtoObject [] [("a", VRef 0)])]) /\
  resurrect necromancer (JArr [JObj [("a", JObj [("#", JStr "length")])]]) =
    Ok (VRef 0, [EObj (Obj ProtoObject [] [("a", VNum 1)])]) /\
  resurrect necromancer (JArr [JObj [("a", JObj [("#", JStr "00")])]]) =
    Ok (VRef 0, [EObj (Obj ProtoObject [] [("a", VUndef)])]) /\
  resurrect necromancer
    (JArr [JObj [("a", JObj [("#", JObj [("toString", JNum 1)])])]]) =
    Throw "TypeError: Cannot convert object to primitive value".
Proof. repeat split; vm_compute; reflexivity. Qed.

(** C9, as stated, fails: a reference whose identifier is outside the
    table is no error; [resurrect] returns an object whose field is
    [undefined]. *)
Lemma dangling_reference_decodes :
  resurrect necromancer (JArr [JObj [("a", JObj [("#", JNum 5)])]]) =
    Ok (VRef 0, [EObj (Obj ProtoObject [] [("a", VUndef)])]).
Proof. vm_compute. reflexivity. Qed.

(** C9, amended. [resurrect] of a table throws, and returns nothing, when
    an entry of the table has a child shaped like neither a reference nor
    a builder, or when, with the option [revive], an entry is tagged with
    a type name the resolver's scope does not have.  A reference whose
    identifier is a number that is no position of the table -- a negative
    one, or one at or beyond the number of entries -- is not an error: it
    decodes to [undefined].  (The entries are those of the parsed text: of
    a key that comes twice in an object, [JSON.parse] keeps the later
    value.) *)
Theorem decode_failures R js i e :
  map entry_of (map JSON_parse js) !! i = Some e ->
  (exists c, c ∈ children e /\ malformed R c = true) \/
  (revive R = true /\ unknown_type R e = true) ->
  (exists msg, resurrect R (JArr js) = Throw msg) /\
  (forall table n, (n < 0 \/ Z.of_nat (length table) <= n)%Z ->
     decode R table (ref_to R n) = Ok VUndef).
Proof.
  intros He Hbad. split; [|intros table n; apply dangling_reference].
  unfold resurrect. simpl JSON_parse. cbv iota.
  set (t0 := map entry_of (map JSON_parse js)) in *.
  destruct Hbad as [(c & Hc & Hm)|[Hrev Hu]].
  - assert (Ht : forall t1, map children t1 = map children t0 ->
              throws (resolve_from R (seq 0 (length t1)) t1) = true).
    { intros t1 Hch.
      pose proof (children_lookup t0 t1 i Hch) as Hi. rewrite He in Hi.
      destruct (t1 !! i) as [e1|] eqn:He1; [|discriminate].
      simpl in Hi. inversion Hi as [Hce].
      apply (resolve_table_throws R t1 i e1 c); auto.
      - intros j x Hx. pose proof (children_lookup t0 t1 j Hch) as Hj.
        rewrite Hx in Hj. destruct (t0 !! j) as [x0|] eqn:Hx0; [|discriminate].
        simpl in Hj. inversion Hj as [Hcx]. rewrite Hcx.
        eapply parsed_table. exact Hx0.
      - rewrite Hce. exact Hc. }
    destruct (revive R).
    + pose proof (fix_all_spec R t0) as Hf.
      destruct (fix_all R t0) as [t1| | |]; try contradiction;
        [|eexists; reflexivity].
      simpl. specialize (Ht t1 Hf).
      destruct (resolve_from R (seq 0 (length t1)) t1); try discriminate.
      eexists. reflexivity.
    + simpl. specialize (Ht t0 eq_refl).
      destruct (resolve_from R (seq 0 (length t0)) t0); try discriminate.
      eexists. reflexivity.
  - rewrite Hrev. pose proof (fix_all_throws R t0 i e He Hu) as Hf.
    destruct (fix_all R t0); try discriminate. eexists. reflexivity.
Qed.

(** A key that comes twice: the entry has the later value, and a malformed
    value that was overwritten raises nothing. *)
Example repeated_key_last_wins :
  resurrect necromancer (JArr [JObj [("a", JObj []); ("a", JNum 5)]]) =
    Ok (VRef 0, [EObj (Obj ProtoObject [] [("a", VNum 5)])]).
Proof. vm_compute. reflexivity. Qed.

Lemma decode_failures_witness :
  map entry_of (map JSON_parse [JObj [("a", JObj [("x", JNum 1)])]]) !! 0 =
    Some (EObj (Obj ProtoObject [] [("a", VRec [("x", VNum 1)])])) /\
  (exists msg,
     resurrect necromancer (JArr [JObj [("a", JObj [("x", JNum 1)])]]) =
       Throw msg) /\
  (forall table n, (n < 0 \/ Z.of_nat (length table) <= n)%Z ->
     decode necromancer table (ref_to necromancer n) = Ok VUndef).
Proof.
  assert (H1 : map entry_of (map JSON_parse [JObj [("a", JObj [("x", JNum 1)])]])
                 !! 0 =
               Some (EObj (Obj ProtoObject [] [("a", VRec [("x", VNum 1)])])))
    by reflexivity.
  split; [exact H1|].
  apply (decode_failures necromancer _ 0 _ H1).
  left. exists (VRec [("x", VNum 1)]). split; [|reflexivity].
  simpl. left.
Defined.

(** The failures of C9 on concrete tables: a malformed child, a type name
    unknown to an empty scope, and a builder whose constructor is not
    found. *)
Example failing_tables :
  resurrect necromancer (JArr [JObj [("a", JObj [("x", JNum 1)])]]) =
    Throw "Unknown encoding." /\
  resurrect necromancer (JArr [JObj [("#", JStr "Foo"); ("a", JNum 1)]]) =
    Throw "Unknown constructor: Foo" /\
  resurrect necromancer
    (JArr [JObj [("a", JObj [("#.", JStr "Foo"); ("#v", JArr [])])]]) =
    Throw "TypeError: type is undefined".
Proof. repeat split; vm_compute; reflexivity. Qed.

(** * Further properties of the codec *)

(** ** Atom roots *)

Lemma handleAtom_encoded R v x :
  isAtom v = true -> handleAtom R v = Ok x -> encoded x = true.
Proof.
  intros Ha Hx.
  assert (Hv : visitable R 0 v = true).
  { unfold visitable. rewrite Hx. destruct v; try discriminate; reflexivity. }
  pose proof (enc_encoded R 0 [] v Hv) as He.
  destruct (visitable_atom R 0 [] v Ha Hv) as (y & Hy & Ey).
  rewrite Ey in He. congruence.
Qed.

Lemma stringify_atom R fuel h v x :
  isAtom v = true -> handleAtom R v = Ok x -> 3 <= fuel ->
  stringify R fuel h v RNull = Ok (Some (to_json x), h).
Proof.
  intros Ha Hx Hf. unfold stringify, stringify_run. rewrite Ha.
  unfold bind, lift. rewrite Hx. simpl res_bind at 2.
  destruct fuel as [|[|[|fuel]]]; try lia.
  unfold JSON_stringify. simpl normalize_replacer.
  rewrite json_ser_encoded by (eapply handleAtom_encoded; eauto).
  reflexivity.
Qed.

Lemma resurrect_atom R v x :
  isAtom v = true -> handleAtom R v = Ok x ->
  resurrect R (to_json x) =
  res_bind (decode_child R [] x) (fun w => Ok (w, [])).
Proof.
  intros Ha Hx. pose proof (handleAtom_encoded R v x Ha Hx) as He.
  unfold resurrect. rewrite (parse_encoded x He).
  destruct x; try discriminate; reflexivity.
Qed.

(** X1. For a root that is an atom, [stringify] encodes the atom alone and
    leaves the heap as it is; [resurrect] of the text gives what decoding
    the atom's encoding gives, and gives back the atom itself for [null],
    booleans, finite numbers, strings, [undefined], [NaN], the infinities
    and BigInts. *)
Theorem atom_root_roundtrip R fuel h v w :
  isAtom v = true -> roundtrip_atom R v = Ok w -> 3 <= fuel ->
  (exists text,
     stringify R fuel h v RNull = Ok (Some text, h) /\
     resurrect R text = Ok (w, [])) /\
  (exact_value v = true -> w = v).
Proof.
  intros Ha Hw Hf. split.
  - unfold roundtrip_atom in Hw.
    destruct (handleAtom R v) as [x| | |] eqn:Hx; try discriminate.
    simpl in Hw. exists (to_json x). split.
    + apply stringify_atom; assumption.
    + rewrite (resurrect_atom R v x Ha Hx), Hw. reflexivity.
  - intros He. rewrite (roundtrip_exact R v He Ha) in Hw. congruence.
Qed.

Lemma atom_root_roundtrip_witness :
  (exists text,
     stringify necromancer 3 shared_pair (VBigInt (2 ^ 70)) RNull =
       Ok (Some text, shared_pair) /\
     resurrect necromancer text = Ok (VBigInt (2 ^ 70), [])) /\
  (exact_value (VBigInt (2 ^ 70)) = true -> VBigInt (2 ^ 70) = VBigInt (2 ^ 70)).
Proof.
  apply (atom_root_roundtrip necromancer 3 shared_pair (VBigInt (2 ^ 70))
           (VBigInt (2 ^ 70))).
  - reflexivity.
  - vm_compute. reflexivity.
  - lia.
Defined.

(** X2. With an atom root the replacer goes to [JSON.stringify] as it is:
    a list of accepted keys that does not hold the empty key rejects the
    root itself, and [stringify] returns [undefined] instead of a text. *)
Theorem allowlist_rejects_atom_root R fuel h v ks x :
  isAtom v = true -> handleAtom R v = Ok x ->
  existsb (is_key "") ks = false -> 1 <= fuel ->
  stringify R fuel h v (RKeys ks) = Ok (None, h).
Proof.
  intros Ha Hx Hk Hf. unfold stringify, stringify_run. rewrite Ha.
  unfold bind, lift. rewrite Hx. simpl res_bind at 2.
  destruct fuel as [|fuel]; [lia|].
  unfold JSON_stringify. simpl. unfold acceptKeys_fn. rewrite Hk.
  reflexivity.
Qed.

Lemma allowlist_rejects_atom_root_witness :
  stringify necromancer 1 [] (VNum 5) (RKeys [VStr "a"]) = Ok (None, []).
Proof.
  apply (allowlist_rejects_atom_root necromancer 1 [] (VNum 5) [VStr "a"]
           (VNum 5)); [reflexivity | reflexivity | reflexivity | lia].
Defined.

Lemma visit_tagged_node R rep fuel a o s :
  heap s !! a = Some o -> isTagged R o = true ->
  visit R (handleAtom R) rep (S fuel) (VRef a) s = Ok (ref R (Some o), s).
Proof.
  intros Ho Ht. simpl. unfold bind, locate, load. rewrite Ho, Ht. reflexivity.
Qed.

Lemma tagged_root_run R fuel h a o replacer :
  h !! a = Some o -> isTagged R o = true ->
  stringify_run R (S fuel) (VRef a) replacer (State h [] [] []) =
  Ok (Some (JArr []), State h [] [] []).
Proof.
  intros Ho Ht. unfold stringify_run. cbv zeta.
  change (isAtom (VRef a)) with false. cbv iota.
  erewrite bind_ok by (apply (visit_tagged_node R _ fuel a o); eauto).
  reflexivity.
Qed.

(** ** Roots the walk does not enter *)

(** X3. A root object that already carries a reference code other than
    [null] or [undefined] -- a key the options reserve -- is taken for
    visited: [stringify] emits the empty table and leaves the heap as it
    is, and [resurrect] of that text is [undefined]. *)
Theorem tagged_root_is_skipped R fuel h a o replacer :
  h !! a = Some o -> isTagged R o = true -> 1 <= fuel ->
  stringify R fuel h (VRef a) replacer = Ok (Some (JArr []), h) /\
  resurrect R (JArr []) = Ok (VUndef, []).
Proof.
  intros Ho Ht Hf. split.
  - destruct fuel as [|fuel]; [lia|]. unfold stringify.
    rewrite (tagged_root_run R fuel h a o replacer Ho Ht). reflexivity.
  - unfold resurrect. simpl. destruct (revive R); reflexivity.
Qed.

Lemma tagged_root_is_skipped_witness :
  stringify necromancer 1 [Obj ProtoObject [] [("a", VNum 1); ("#id", VNum 7)]]
    (VRef 0) RNull =
    Ok (Some (JArr []), [Obj ProtoObject [] [("a", VNum 1); ("#id", VNum 7)]]) /\
  resurrect necromancer (JArr []) = Ok (VUndef, []).
Proof.
  apply (tagged_root_is_skipped necromancer 1
           [Obj ProtoObject [] [("a", VNum 1); ("#id", VNum 7)]] 0
           (Obj ProtoObject [] [("a", VNum 1); ("#id", VNum 7)]) RNull);
    [reflexivity | reflexivity | lia].
Defined.

(** ** Constructors the resolver cannot account for *)

Lemma visit_tag_fails R rep fuel a o s msg :
  heap s !! a = Some o -> isTagged R o = false -> isArray_obj o = false ->
  (forall s0, tag R (Obj (o_proto o) [] []) s0 = Throw msg) ->
  visit R (handleAtom R) rep (S fuel) (VRef a) s = Throw msg.
Proof.
  intros Ho Ht Ha Htag. simpl.
  erewrite bind_ok by reflexivity.
  erewrite bind_ok by (unfold load; rewrite Ho; reflexivity).
  rewrite Ht. cbn [negb].
  erewrite bind_ok by reflexivity.
  rewrite Ha. unfold bind. rewrite Htag. reflexivity.
Qed.

Lemma stringify_tag_fails R fuel h a o replacer msg :
  h !! a = Some o -> isTagged R o = false -> isArray_obj o = false ->
  (forall s0, tag R (Obj (o_proto o) [] []) s0 = Throw msg) ->
  stringify R (S fuel) h (VRef a) replacer = Throw msg.
Proof.
  intros Ho Ht Ha Htag. unfold stringify, stringify_run. cbv zeta.
  change (isAtom (VRef a)) with false. cbv iota. unfold bind at 1.
  rewrite (visit_tag_fails R _ fuel a o (State h [] [] []) msg Ho Ht Ha Htag).
  reflexivity.
Qed.

Lemma proto_eqb_eq p q : proto_eqb p q = true -> p = q.
Proof.
  destruct p, q; simpl; try discriminate; auto.
  intros H. apply andb_true_iff in H as [H1 H2].
  apply String.eqb_eq in H1. apply Nat.eqb_eq in H2. subst. reflexivity.
Qed.

(** X4. With the option [revive], [stringify] refuses a root object whose
    constructor the resolver cannot account for: an anonymous constructor,
    a constructor name the scope does not have, and a name whose prototype
    in the scope is not the object's prototype each raise their error
    before anything is written. *)
Theorem unaccountable_constructor R fuel h a o replacer name uid :
  h !! a = Some o -> isTagged R o = false -> revive R = true ->
  o_proto o = ProtoClass name uid -> name <> "Object" -> name <> "Array" ->
  1 <= fuel ->
  (name = "" ->
   stringify R fuel h (VRef a) replacer =
     Throw "Can't serialize objects with anonymous constructors.") /\
  (name <> "" -> scope R name = None ->
   stringify R fuel h (VRef a) replacer =
     Throw ("Unknown constructor: " ++ name)) /\
  (name <> "" -> forall p, scope R name = Some p -> p <> o_proto o ->
   stringify R fuel h (VRef a) replacer = Throw "Constructor mismatch!").
Proof.
  intros Ho Ht Hrev Hp Hn1 Hn2 Hf. destruct fuel as [|fuel]; [lia|].
  assert (Ha : isArray_obj o = false) by (unfold isArray_obj; rewrite Hp; auto).
  apply String.eqb_neq in Hn1, Hn2.
  csplit.
  - intros ->. apply (stringify_tag_fails R fuel h a o); auto.
    intros s0. unfold tag. rewrite Hrev, Hp. reflexivity.
  - intros Hne Hs. apply String.eqb_neq in Hne.
    apply (stringify_tag_fails R fuel h a o); auto.
    intros s0. unfold tag, getName, getPrototype. rewrite Hrev, Hp. simpl.
    unfold bind, lift. rewrite Hne, Hn1, Hn2. simpl. rewrite Hs. reflexivity.
  - intros Hne p Hs Hpp. apply String.eqb_neq in Hne.
    apply (stringify_tag_fails R fuel h a o); auto.
    intros s0. unfold tag, getName, getPrototype. rewrite Hrev, Hp. simpl.
    unfold bind, lift. rewrite Hne, Hn1, Hn2. simpl. rewrite Hs. simpl.
    destruct (proto_eqb p (ProtoClass name uid)) eqn:E; [|reflexivity].
    apply proto_eqb_eq in E. rewrite Hp in Hpp. contradiction.
Qed.

Lemma unaccountable_constructor_witness :
  ("Foo" = "" ->
   stringify necromancer 1 [Obj (ProtoClass "Foo" 1) [] [("a", VNum 1)]]
     (VRef 0) RNull =
     Throw "Can't serialize objects with anonymous constructors.") /\
  ("Foo" <> "" -> scope necromancer "Foo" = None ->
   stringify necromancer 1 [Obj (ProtoClass "Foo" 1) [] [("a", VNum 1)]]
     (VRef 0) RNull = Throw ("Unknown constructor: " ++ "Foo")) /\
  ("Foo" <> "" -> forall p, scope necromancer "Foo" = Some p ->
   p <> o_proto (Obj (ProtoClass "Foo" 1) [] [("a", VNum 1)]) ->
   stringify necromancer 1 [Obj (ProtoClass "Foo" 1) [] [("a", VNum 1)]]
     (VRef 0) RNull = Throw "Constructor mismatch!").
Proof.
  apply (unaccountable_constructor necromancer 1
           [Obj (ProtoClass "Foo" 1) [] [("a", VNum 1)]] 0
           (Obj (ProtoClass "Foo" 1) [] [("a", VNum 1)]) RNull "Foo" 1);
    [reflexivity | reflexivity | reflexivity | reflexivity
    | discriminate | discriminate | lia].
Defined.

(** ** What [stringify] leaves on the caller's graph *)

Lemma released_clean R o :
  cleanup R = true -> get_prop (refcode R) (o_props o) = None ->
  released R o = o.
Proof.
  intros Hc Hk. unfold released. rewrite Hc. unfold _deleteRefcode, obj_del.
  rewrite del_prop_fresh by exact Hk. destruct o; reflexivity.
Qed.

(** X5. The heap after a [stringify] of a composite root: every object
    the walk can reach from the root has its reference code reset (set to
    [null], or deleted with the option [cleanup]) and is otherwise as it
    was; every other object is exactly as it was. *)
Theorem stringify_heap_effect R fuel h root replacer :
  wf_heap R (normalize_replacer R replacer) h = true ->
  root < length h -> enough_fuel h fuel ->
  exists out h',
    stringify R fuel h (VRef root) replacer = Ok (out, h') /\
    length h' = length h /\
    forall a o, h !! a = Some o ->
      (reach (normalize_replacer R replacer) (user_view R h) root a ->
       h' !! a = Some (released R o)) /\
      (~ reach (normalize_replacer R replacer) (user_view R h) root a ->
       h' !! a = Some o).
Proof.
  intros Hwf Hr Hfuel.
  pose proof (stringify_composite R fuel h root replacer Hwf Hr Hfuel) as Hs.
  destruct Hfuel as [Hf1 Hf2].
  destruct (stringify_run_spec R fuel h root replacer [] [] Hwf Hr Hf1 Hf2)
    as (s' & _ & _ & _ & Hnd & [rest Hrest] & Hc).
  simpl in Hc.
  set (ord := visit_order R replacer fuel h (VRef root)) in *.
  assert (Hroot : root ∈ ord) by (rewrite Hrest; left).
  eexists _, _. split; [exact Hs|]. split; [apply length_release_heap|].
  intros a o Ho. unfold release_heap. rewrite list_lookup_imap, Ho. simpl.
  split; intros Ha.
  - rewrite bool_decide_eq_true_2; [reflexivity|].
    eapply reach_visited; [|exact Hroot|exact Ha].
    intros b Hb. destruct (Hc b Hb) as (x & Hx & _ & Hk). eauto.
  - rewrite bool_decide_eq_false_2; [reflexivity|].
    intros Hin. apply Ha. apply (visit_order_reach R replacer fuel h root a Hin).
Qed.

Lemma stringify_heap_effect_witness :
  wf_heap necromancer (normalize_replacer necromancer RNull) shared_pair
    = true /\
  exists out h',
    stringify necromancer 5 shared_pair (VRef 1) RNull = Ok (out, h') /\
    length h' = length shared_pair /\
    forall a o, shared_pair !! a = Some o ->
      (reach (normalize_replacer necromancer RNull)
         (user_view necromancer shared_pair) 1 a ->
       h' !! a = Some (released necromancer o)) /\
      (~ reach (normalize_replacer necromancer RNull)
           (user_view necromancer shared_pair) 1 a ->
       h' !! a = Some o).
Proof.
  assert (H1 : wf_heap necromancer (normalize_replacer necromancer RNull)
                 shared_pair = true) by reflexivity.
  split; [exact H1|].
  apply (stringify_heap_effect necromancer 5 shared_pair 1 RNull H1).
  - simpl. lia.
  - split; simpl; lia.
Defined.

(** X6. With the option [cleanup], a [stringify] gives the caller's graph
    back exactly as it was, provided no object carried the reference-code
    key beforehand. *)
Theorem cleanup_restores_graph R fuel h root replacer :
  cleanup R = true ->
  (forall a o, h !! a = Some o -> get_prop (refcode R) (o_props o) = None) ->
  wf_heap R (normalize_replacer R replacer) h = true ->
  root < length h -> enough_fuel h fuel ->
  exists text, stringify R fuel h (VRef root) replacer = Ok (Some text, h).
Proof.
  intros Hcl Hfree Hwf Hr Hfuel.
  pose proof (stringify_composite R fuel h root replacer Hwf Hr Hfuel) as Hs.
  eexists. rewrite Hs. do 2 f_equal.
  apply list_eq. intros a. unfold release_heap. rewrite list_lookup_imap.
  destruct (h !! a) as [o|] eqn:Ho; simpl; [|reflexivity].
  case_bool_decide; [|reflexivity].
  rewrite released_clean; eauto.
Qed.

Lemma cleanup_restores_graph_witness :
  exists text,
    stringify tidy_necromancer 5 shared_pair (VRef 0) RNull =
      Ok (Some text, shared_pair).
Proof.
  apply (cleanup_restores_graph tidy_necromancer 5 shared_pair 0 RNull).
  - reflexivity.
  - intros [|[|a]] o H; simpl in H; inversion H; reflexivity.
  - reflexivity.
  - simpl. lia.
  - split; simpl; lia.
Defined.

(** ** The emitted table *)

Lemma replaced_fields_allowlist ks a ps :
  replaced_fields (Some (acceptKeys_fn ks)) a ps =
  List.filter (fun p => isUndefined (snd p) || existsb (is_key (fst p)) ks) ps.
Proof.
  induction ps as [|[k v] ps IH]; simpl; [reflexivity|]. rewrite IH.
  unfold acceptKeys_fn. simpl.
  destruct (isUndefined v) eqn:Ev; simpl; [reflexivity|].
  destruct (existsb (is_key k) ks); simpl; [rewrite Ev|]; reflexivity.
Qed.

Lemma visit_order_facts R fuel h root replacer :
  wf_heap R (normalize_replacer R replacer) h = true ->
  root < length h -> enough_fuel h fuel ->
  stringify R fuel h (VRef root) replacer =
    Ok (Some (table_json R (normalize_replacer R replacer) (user_view R h)
                (visit_order R replacer fuel h (VRef root))),
        release_heap R (visit_order R replacer fuel h (VRef root)) h) /\
  NoDup (visit_order R replacer fuel h (VRef root)) /\
  visit_order R replacer fuel h (VRef root) !! 0 = Some root /\
  (forall a, a ∈ visit_order R replacer fuel h (VRef root) <->
     reach (normalize_replacer R replacer) (user_view R h) root a) /\
  (forall a, a ∈ visit_order R replacer fuel h (VRef root) ->
     exists o, user_view R h !! a = Some o /\
       wf_content R (normalize_replacer R replacer) (length (user_view R h))
         a o = true).
Proof.
  intros Hwf Hr Hfuel.
  pose proof (stringify_composite R fuel h root replacer Hwf Hr Hfuel) as Hs.
  destruct Hfuel as [Hf1 Hf2].
  destruct (stringify_run_spec R fuel h root replacer [] [] Hwf Hr Hf1 Hf2)
    as (s' & _ & _ & _ & Hnd & [rest Hrest] & Hc).
  simpl in Hc, Hnd, Hrest.
  set (ord := visit_order R replacer fuel h (VRef root)) in *.
  assert (Hroot : root ∈ ord) by (rewrite Hrest; left).
  csplit; auto.
  - rewrite Hrest. reflexivity.
  - intros a. split; [apply visit_order_reach|].
    intros Ha. eapply reach_visited; [|exact Hroot|exact Ha].
    intros b Hb. destruct (Hc b Hb) as (x & Hx & _ & Hk). eauto.
  - intros a Ha. destruct (Hc a Ha) as (x & Hx & Hw & _). eauto.
Qed.

Lemma entry_json_object e :
  isArray_obj e = false ->
  entry_json e = JObj (map (fun p => (fst p, to_json (snd p))) (o_props e)).
Proof. unfold entry_json, entry_value. intros ->. reflexivity. Qed.

(** X7. With a list of accepted keys as replacer, [stringify] writes for
    every reachable object the own fields whose key is a string of the
    list or whose value is [undefined], and no other, in the order of the
    object and each with its encoded value; a number in the list selects
    no key. *)
Theorem allowlist_selects_fields R fuel h root ks :
  wf_heap R (normalize_replacer R (RKeys ks)) h = true ->
  root < length h -> enough_fuel h fuel ->
  exists ord js h',
    stringify R fuel h (VRef root) (RKeys ks) = Ok (Some (JArr js), h') /\
    NoDup ord /\ ord !! 0 = Some root /\
    (forall a, a ∈ ord <->
       reach (normalize_replacer R (RKeys ks)) (user_view R h) root a) /\
    forall i a o,
      ord !! i = Some a -> user_view R h !! a = Some o ->
      isArray_obj o = false ->
      js !! i =
      Some (JObj (map (fun p => (fst p, to_json (enc R ord (snd p))))
                    (List.filter
                       (fun p => isUndefined (snd p)
                                 || existsb (is_key (fst p)) ks)
                       (o_props o)))).
Proof.
  intros Hwf Hr Hfuel.
  destruct (visit_order_facts R fuel h root (RKeys ks) Hwf Hr Hfuel)
    as (Hs & Hnd & H0 & Hreach & _).
  exists (visit_order R (RKeys ks) fuel h (VRef root)).
  eexists _, _. split; [exact Hs|]. csplit; auto.
  intros i a o Hi Ho Harr. unfold encode_table.
  rewrite !list_lookup_fmap, Hi. simpl. unfold node_entry. rewrite Ho.
  rewrite entry_json_object
    by (unfold encode_node; rewrite Harr; unfold isArray_obj in *; auto).
  unfold encode_node. rewrite Harr. simpl.
  rewrite replaced_fields_allowlist, map_map. reflexivity.
Qed.

Lemma allowlist_selects_fields_witness :
  exists ord js h',
    stringify necromancer 5 sparse_record (VRef 0) (RKeys [VStr "x"; VNum 0])
      = Ok (Some (JArr js), h') /\
    NoDup ord /\ ord !! 0 = Some 0 /\
    (forall a, a ∈ ord <->
       reach (normalize_replacer necromancer (RKeys [VStr "x"; VNum 0]))
         (user_view necromancer sparse_record) 0 a) /\
    forall i a o,
      ord !! i = Some a -> user_view necromancer sparse_record !! a = Some o ->
      isArray_obj o = false ->
      js !! i =
      Some (JObj (map (fun p => (fst p, to_json (enc necromancer ord (snd p))))
                    (List.filter
                       (fun p => isUndefined (snd p)
                                 || existsb (is_key (fst p))
                                      [VStr "x"; VNum 0])
                       (o_props o)))).
Proof.
  apply (allowlist_selects_fields necromancer 5 sparse_record 0
           [VStr "x"; VNum 0]).
  - reflexivity.
  - simpl. lia.
  - split; simpl; lia.
Defined.

(** X8. The text of a graph of plain objects and arrays, whose own keys
    keep clear of the prefix, does not show the encoder's bookkeeping: no
    entry of the emitted table has an own key that starts with the prefix
    (the reference code and the link to the original are deleted from the
    copies before they are written).  The restriction to plain objects
    matters: the entry of an instance of a class carries, with [revive],
    the name of its constructor under the prefix itself (X12). *)
Theorem no_bookkeeping_in_text R fuel h root replacer :
  wf_heap R (normalize_replacer R replacer) h = true ->
  root < length h -> enough_fuel h fuel ->
  exists js h',
    stringify R fuel h (VRef root) replacer = Ok (Some (JArr js), h') /\
    forall i fs k j,
      js !! i = Some (JObj fs) -> (k, j) ∈ fs ->
      String.prefix (prefix R) k = false.
Proof.
  intros Hwf Hr Hfuel.
  destruct (visit_order_facts R fuel h root replacer Hwf Hr Hfuel)
    as (Hs & Hnd & H0 & Hreach & Hw).
  eexists _, _. split; [exact Hs|].
  intros i fs k j Hi Hk. unfold encode_table in Hi.
  rewrite !list_lookup_fmap in Hi.
  destruct (visit_order R replacer fuel h (VRef root) !! i) as [a|] eqn:Ha;
    [|discriminate].
  simpl in Hi. destruct (Hw a) as (o & Ho & Hwo);
    [eapply list_elem_of_lookup_2; eauto|].
  unfold node_entry in Hi. rewrite Ho in Hi.
  unfold entry_json, entry_value, encode_node in Hi.
  destruct (isArray_obj o) eqn:Harr; [discriminate|].
  replace (isArray_obj _) with false in Hi
    by (unfold isArray_obj in *; simpl; auto).
  simpl in Hi. inversion Hi; subst fs. clear Hi.
  unfold wf_content in Hwo. repeat (apply andb_true_iff in Hwo as [Hwo ?]).
  match goal with H : forallb (free_key R) _ = true |- _ =>
    pose proof (forallb_replaced_fields_keys R
                  (normalize_replacer R replacer) a _ H) as Hfree end.
  rewrite map_map in Hk. apply list_elem_of_fmap in Hk as ([k' v'] & E & Hin).
  simpl in E. inversion E; subst.
  rewrite forallb_forall in Hfree.
  apply list_elem_of_In in Hin. apply Hfree in Hin.
  unfold free_key in Hin. simpl in Hin. apply negb_true_iff in Hin. exact Hin.
Qed.

Lemma no_bookkeeping_in_text_witness :
  exists js h',
    stringify necromancer 5 shared_pair (VRef 0) RNull =
      Ok (Some (JArr js), h') /\
    forall i fs k j,
      js !! i = Some (JObj fs) -> (k, j) ∈ fs ->
      String.prefix (prefix necromancer) k = false.
Proof.
  apply (no_bookkeeping_in_text necromancer 5 shared_pair 0 RNull).
  - reflexivity.
  - simpl. lia.
  - split; simpl; lia.
Defined.

(** ** The keys of the codec *)

Lemma code_neq (p a b : string) : a <> b -> (p ++ a)%string <> (p ++ b)%string.
Proof. intros H E. apply H. eapply append_inj_l. exact E. Qed.

Lemma code_not_prefix (p a : string) :
  a <> EmptyString -> p <> (p ++ a)%string.
Proof. intros H E. apply H. eapply append_self. symmetry. exact E. Qed.

(** X10. Whatever prefix the options give, the tag key and the four code
    keys the constructor derives from it are pairwise distinct, and each
    starts with the prefix, which keeps all of them away from the user's
    replacer. *)
Theorem code_keys_distinct R :
  NoDup [prefix R; refcode R; origcode R; buildcode R; valuecode R] /\
  Forall (fun k => String.prefix (prefix R) k = true /\
                   forall f this v, replacerWrapper R f this k v = (v, []))
    [prefix R; refcode R; origcode R; buildcode R; valuecode R].
Proof.
  split.
  - unfold refcode, origcode, buildcode, valuecode.
    repeat match goal with
           | |- NoDup [] => apply NoDup_nil_2
           | |- NoDup (_ :: _) => apply NoDup_cons_2
           | |- _ ∉ [] => apply not_elem_of_nil
           | |- _ ∉ _ :: _ => apply not_elem_of_cons; split
           end;
      first [ apply code_not_prefix; discriminate
            | apply code_neq; discriminate ].
  - assert (Hw : forall k, String.prefix (prefix R) k = true ->
              String.prefix (prefix R) k = true /\
              forall f this v, replacerWrapper R f this k v = (v, [])).
    { intros k Hp. split; [exact Hp|]. intros f this v.
      unfold replacerWrapper. rewrite Hp. reflexivity. }
    unfold refcode, origcode, buildcode, valuecode.
    repeat (apply Forall_cons; split); try apply Forall_nil; try exact I;
      apply Hw; first [apply prefix_self | apply prefix_append].
Qed.

(** ** Patterns *)

Lemma flag_not_slash c : is_flag c = true -> is_slash c = false.
Proof.
  unfold is_flag, is_slash. simpl. intros H.
  destruct (Ascii.eqb c "/") eqn:E; [|reflexivity].
  apply Ascii.eqb_eq in E. subst c. discriminate.
Qed.

Lemma flag_not_terminator c : is_flag c = true -> is_line_terminator c = false.
Proof.
  unfold is_flag, is_line_terminator. simpl. intros H.
  destruct (Ascii.eqb c "010") eqn:E1.
  { apply Ascii.eqb_eq in E1. subst c. discriminate. }
  destruct (Ascii.eqb c "013") eqn:E2; [|reflexivity].
  apply Ascii.eqb_eq in E2. subst c. discriminate.
Qed.

Lemma valid_flags_no_slash fl :
  valid_flags fl = true -> split_last_slash fl = None.
Proof.
  induction fl as [|c fl IH]; simpl; [reflexivity|]. intros H.
  apply andb_true_iff in H as [H H3]. apply andb_true_iff in H as [H1 H2].
  rewrite (IH H3), (flag_not_slash c H1). reflexivity.
Qed.

Lemma valid_flags_dot_run fl : valid_flags fl = true -> dot_run fl = fl.
Proof.
  induction fl as [|c fl IH]; simpl; [reflexivity|]. intros H.
  apply andb_true_iff in H as [H H3]. apply andb_true_iff in H as [H1 H2].
  rewrite (flag_not_terminator c H1), (IH H3). reflexivity.
Qed.

Lemma dot_run_literal source fl :
  single_line source = true -> valid_flags fl = true ->
  dot_run (source ++ String "/" fl) = (source ++ String "/" fl)%string.
Proof.
  unfold single_line. induction source as [|c s IH]; simpl; intros Hs Hf.
  - rewrite (valid_flags_dot_run fl Hf). reflexivity.
  - apply andb_true_iff in Hs as [H1 H2]. apply negb_true_iff in H1.
    rewrite H1, (IH H2 Hf). reflexivity.
Qed.

Lemma split_last_slash_literal source fl :
  split_last_slash fl = None ->
  split_last_slash (source ++ String "/" fl) = Some (source, fl).
Proof.
  intros Hf. induction source as [|c s IH]; simpl.
  - rewrite Hf. reflexivity.
  - rewrite IH. reflexivity.
Qed.

Lemma regexp_match_literal source fl :
  source <> EmptyString -> single_line source = true ->
  valid_flags fl = true ->
  regexp_literal_match (regexp_toString source fl) =
  Some (source, take_gimy fl).
Proof.
  intros Hne Hs Hf. unfold regexp_toString.
  change ("/" ++ source ++ "/" ++ fl)%string
    with (String "/" (source ++ String "/" fl)%string).
  cbn [regexp_literal_match]. change (is_slash "/") with true. cbv iota.
  unfold regexp_attempt.
  rewrite (dot_run_literal source fl Hs Hf).
  rewrite (split_last_slash_literal source fl (valid_flags_no_slash fl Hf)).
  destruct source; [contradiction|]. reflexivity.
Qed.

Lemma take_gimy_all fl :
  forallb is_gimy (list_ascii_of_string fl) = true -> take_gimy fl = fl.
Proof.
  induction fl as [|c fl IH]; simpl; [reflexivity|]. intros H.
  apply andb_true_iff in H as [H1 H2]. rewrite H1, (IH H2). reflexivity.
Qed.

(** X11. [handleAtom] writes a RegExp as a builder for [RegExp] with two
    arguments: its source, and the longest run of the letters g, i, m, y
    its flags start with (the first other flag, d, s, u or v, cuts the
    flags off there).  When all the flags are among these four, the
    builder decodes to the pattern itself: the round trip is exact. *)
Theorem regexp_roundtrip R source flags :
  source <> EmptyString -> single_line source = true ->
  valid_flags flags = true ->
  handleAtom R (VRegExp source flags) =
    Ok (builder R "RegExp" (VList [VStr source; VStr (take_gimy flags)])) /\
  (forallb is_gimy (list_ascii_of_string flags) = true ->
   roundtrip_atom R (VRegExp source flags) = Ok (VRegExp source flags)).
Proof.
  intros Hne Hs Hf.
  assert (H : handleAtom R (VRegExp source flags) =
              Ok (builder R "RegExp"
                    (VList [VStr source; VStr (take_gimy flags)]))).
  { unfold handleAtom.
    rewrite (regexp_match_literal source flags Hne Hs Hf). reflexivity. }
  split; [exact H|]. intros Hg.
  unfold roundtrip_atom. rewrite H. simpl res_bind.
  rewrite decode_builder_eval. unfold construct. simpl.
  rewrite (take_gimy_all flags Hg), Hf. reflexivity.
Qed.

Lemma regexp_roundtrip_witness :
  handleAtom necromancer (VRegExp "a+\/b" "gimy") =
    Ok (builder necromancer "RegExp"
          (VList [VStr "a+\/b"; VStr (take_gimy "gimy")])) /\
  (forallb is_gimy (list_ascii_of_string "gimy") = true ->
   roundtrip_atom necromancer (VRegExp "a+\/b" "gimy") =
     Ok (VRegExp "a+\/b" "gimy")).
Proof.
  apply (regexp_roundtrip necromancer "a+\/b" "gimy");
    [discriminate | reflexivity | reflexivity].
Defined.

(** ** A record of a class: the walk over its fields *)

Lemma nodup_keys_lookup ps k v :
  nodup_keys ps = true -> (k, v) ∈ ps -> get_prop k ps = Some v.
Proof.
  induction ps as [|[k' v'] ps IH]; simpl; intros Hn Hin; [inversion Hin|].
  apply andb_true_iff in Hn as [H1 H2].
  apply elem_of_cons in Hin as [E|Hin].
  - inversion E; subst. rewrite String.eqb_refl. reflexivity.
  - destruct (String.eqb k' k) eqn:E; [|auto].
    apply String.eqb_eq in E. subst k'. specialize (IH H2 Hin).
    apply negb_true_iff in H1. apply has_prop_false in H1. congruence.
Qed.

Lemma set_prop_same k v ps : get_prop k ps = Some v -> set_prop k v ps = ps.
Proof.
  induction ps as [|[k' v'] ps IH]; simpl; [discriminate|].
  destruct (String.eqb k' k) eqn:E.
  - apply String.eqb_eq in E. intros H. inversion H; subst. reflexivity.
  - intros H. rewrite (IH H). reflexivity.
Qed.

Lemma for_each_app {A} (body : A -> M unit) l1 l2 s :
  for_each body (l1 ++ l2) s =
  bind (for_each body l1) (fun _ => for_each body l2) s.
Proof.
  revert s. induction l1 as [|x l1 IH]; intros s; simpl.
  - reflexivity.
  - rewrite bind_assoc. destruct (body x s) as [[[] s1]| | |] eqn:E.
    + rewrite !(bind_ok _ _ _ _ _ E). apply IH.
    + unfold bind. rewrite E. reflexivity.
    + unfold bind. rewrite E. reflexivity.
    + unfold bind. rewrite E. reflexivity.
Qed.

Lemma for_each_app_bind {A B} (body : A -> M unit) l1 l2 (k : unit -> M B) s :
  bind (for_each body (l1 ++ l2)) k s =
  bind (for_each body l1) (fun _ => bind (for_each body l2) k) s.
Proof.
  rewrite <- (bind_assoc (for_each body l1) (fun _ => for_each body l2) k).
  unfold bind at 1 2. rewrite for_each_app. reflexivity.
Qed.

Lemma visit_property_atom R fuel a s o1 c k v x :
  heap s !! a = Some o1 -> get_prop k (o_props o1) = Some v ->
  isAtom v = true -> handleAtom R v = Ok x ->
  table s = [c] ->
  visit_property (visit R (handleAtom R) None (S fuel)) None a 0 k s =
  Ok (tt, State (heap s) [obj_set k x c] (invoked s) (user_calls s)).
Proof.
  intros Ho Hk Ha Hx Ht. unfold visit_property.
  erewrite bind_ok by (unfold load; rewrite Ho; reflexivity).
  cbv zeta.
  replace (has_prop k (o_props o1)) with true
    by (symmetry; apply has_prop_true; eauto).
  unfold read_prop. rewrite Hk. unfold call_replacer.
  erewrite bind_ok by reflexivity. cbv beta iota.
  erewrite bind_ok by (apply visit_atom; eauto).
  unfold update_copy. rewrite Ht. reflexivity.
Qed.

Lemma flat_fields R fuel a p o1 : forall qs cps s,
  heap s !! a = Some o1 -> table s = [Obj p [] cps] ->
  (forall k v, (k, v) ∈ qs -> get_prop k (o_props o1) = Some v) ->
  forallb (fun q => isAtom (snd q) && visitable R 0 (snd q)) qs = true ->
  nodup_keys qs = true ->
  (forall k v, (k, v) ∈ qs -> get_prop k cps = None) ->
  for_each (visit_property (visit R (handleAtom R) None (S fuel)) None a 0)
    (map fst qs) s =
  Ok (tt, State (heap s) [Obj p [] (cps ++ map (enc_field R []) qs)]
            (invoked s) (user_calls s)).
Proof.
  induction qs as [|[k v] qs IH]; intros cps s Ho Ht Hget Hat Hn Hfresh.
  - simpl. rewrite app_nil_r. unfold ret. rewrite <- Ht. destruct s; reflexivity.
  - simpl in Hat, Hn. apply andb_true_iff in Hat as [Hv Hat].
    apply andb_true_iff in Hv as [Hv1 Hv2].
    apply andb_true_iff in Hn as [Hn1 Hn2].
    destruct (visitable_atom R 0 [] v Hv1 Hv2) as (x & Hx & Ex).
    simpl map. simpl for_each.
    erewrite bind_ok
      by (eapply (visit_property_atom R fuel a s o1 _ k v x); eauto;
          apply Hget; left).
    rewrite (IH (cps ++ [(k, x)])); simpl; auto.
    + unfold enc_field at 2. simpl. rewrite Ex, <- app_assoc. reflexivity.
    + unfold obj_set. simpl. rewrite set_prop_fresh by (eapply Hfresh; left).
      reflexivity.
    + intros k' v' Hin. apply Hget. right. exact Hin.
    + intros k' v' Hin. rewrite get_prop_app.
      rewrite (Hfresh k' v') by (right; exact Hin). simpl.
      destruct (String.eqb k k') eqn:E; [|reflexivity].
      apply String.eqb_eq in E. subst k'.
      apply negb_true_iff in Hn1. apply has_prop_false in Hn1.
      rewrite (nodup_keys_lookup qs k v' Hn2 Hin) in Hn1. discriminate.
Qed.

Lemma visit_S R f replacer fuel root :
  visit R f replacer (S fuel) root =
  if isAtom root then lift (f root)
  else
    do a <- locate root;
    do o <- load a;
    if negb (isTagged R o) then
      do copy <- table_length;
      do _ <-
        (if isArray_obj o then
           do id <- tag R (Obj ProtoArray [] []);
           do _ <- update a (_setRefcode R id);
           for_each (visit_element (visit R f replacer fuel) copy)
                    (o_items o)
         else
           do id <- tag R (Obj (o_proto o) [] []);
           do _ <- update a (_setRefcode R id);
           do o1 <- load a;
           for_each
             (visit_property (visit R f replacer fuel) replacer a copy)
             (map fst (o_props o1)));
      do _ <- update_copy copy (obj_set (origcode R) (VRef a));
      do c <- load_copy copy;
      ret (ref R (Some c))
    else ret (ref R (Some o)).
Proof. reflexivity. Qed.

Lemma flat_visit R fuel h a p ps tg iv uc :
  h !! a = Some (Obj p [] ps) -> p <> ProtoArray ->
  nodup_keys ps = true -> forallb (free_key R) ps = true ->
  forallb (fun q => isAtom (snd q) && visitable R 0 (snd q)) ps = true ->
  (forall s, tag R (Obj p [] []) s =
     Ok (VNum (Z.of_nat (length (table s))),
         State (heap s)
               (table s ++
                [Obj p [] (tg ++ [(refcode R,
                                   VNum (Z.of_nat (length (table s))))])])
               (invoked s) (user_calls s))) ->
  (forall k, String.prefix (prefix R) k = false -> get_prop k tg = None) ->
  get_prop (refcode R) tg = None -> get_prop (origcode R) tg = None ->
  exists r,
  visit R (handleAtom R) None (S (S fuel)) (VRef a) (State h [] iv uc) =
  Ok (r,
      State (alter (_setRefcode R (VNum 0)) a h)
            [Obj p [] (tg ++ [(refcode R, VNum 0)]
                       ++ map (enc_field R []) ps
                       ++ [(origcode R, VRef a)])] iv uc).
Proof.
  intros Ho Hp Hn Hfree Hat Htag Htg Htr Hto.
  assert (Hrc : get_prop (refcode R) ps = None)
    by (apply (get_prop_free R); [apply prefix_append | exact Hfree]).
  assert (Hut : isTagged R (Obj p [] ps) = false)
    by (unfold isTagged, _getRefcode, read_prop; simpl; rewrite Hrc; auto).
  assert (Harr : isArray_obj (Obj p [] ps) = false)
    by (destruct p; auto; contradiction).
  rewrite visit_S. change (isAtom (VRef a)) with false. cbv iota.
  erewrite bind_ok by reflexivity.
  erewrite bind_ok by (unfold load; simpl; rewrite Ho; reflexivity).
  rewrite Hut. cbn [negb]. erewrite bind_ok by reflexivity.
  rewrite Harr. rewrite bind_assoc.
  erewrite bind_ok by apply Htag. simpl length. simpl app.
  rewrite bind_assoc.
  erewrite bind_ok by (unfold update; simpl; rewrite Ho; reflexivity).
  rewrite bind_assoc.
  erewrite bind_ok
    by (unfold load; simpl; rewrite list_lookup_alter_eq, Ho; reflexivity).
  change (Z.of_nat 0) with 0%Z.
  assert (Ho1 : _setRefcode R (VNum 0) (Obj p [] ps) =
                Obj p [] (ps ++ [(refcode R, VNum 0)])).
  { unfold _setRefcode, obj_set. simpl. rewrite set_prop_fresh by exact Hrc.
    reflexivity. }
  rewrite Ho1. simpl o_props. rewrite map_app. simpl map at 2.
  rewrite for_each_app_bind.
  assert (Hh1 : alter (_setRefcode R (VNum 0)) a h !! a =
                Some (Obj p [] (ps ++ [(refcode R, VNum 0)])))
    by (rewrite list_lookup_alter_eq, Ho; simpl; rewrite Ho1; reflexivity).
  erewrite bind_ok.
  2:{ eapply (flat_fields R fuel a p _ ps (tg ++ [(refcode R, VNum 0)])).
      - exact Hh1.
      - reflexivity.
      - intros k v Hin. cbn [o_props]. rewrite get_prop_app.
        rewrite (nodup_keys_lookup ps k v Hn Hin). reflexivity.
      - exact Hat.
      - exact Hn.
      - intros k v Hin. rewrite get_prop_app.
        assert (Hk : String.prefix (prefix R) k = false).
        { rewrite forallb_forall in Hfree. apply list_elem_of_In in Hin.
          apply Hfree in Hin. unfold free_key in Hin. simpl in Hin.
          apply negb_true_iff in Hin. exact Hin. }
        rewrite (Htg k Hk). simpl.
        destruct (String.eqb (refcode R) k) eqn:E; [|reflexivity].
        apply String.eqb_eq in E. subst k.
        unfold refcode in Hk. rewrite prefix_append in Hk. discriminate. }
  simpl heap. simpl invoked. simpl user_calls.
  simpl for_each. rewrite bind_assoc.
  erewrite bind_ok.
  2:{ eapply (visit_property_atom R fuel a _ _ _ (refcode R) (VNum 0)
                (VNum 0)).
      - exact Hh1.
      - cbn [o_props]. rewrite get_prop_app, Hrc. simpl.
        rewrite String.eqb_refl. reflexivity.
      - reflexivity.
      - reflexivity.
      - reflexivity. }
  cbn [heap invoked user_calls].
  assert (Hfe : forall k, String.prefix (prefix R) k = true ->
            get_prop k (map (enc_field R []) ps) = None).
  { intros k Hk. apply get_prop_enc_fields. apply (get_prop_free R); auto. }
  assert (Hc1 : obj_set (refcode R) (VNum 0)
                  (Obj p [] ((tg ++ [(refcode R, VNum 0)])
                             ++ map (enc_field R []) ps)) =
                Obj p [] ((tg ++ [(refcode R, VNum 0)])
                          ++ map (enc_field R []) ps)).
  { unfold obj_set. cbn [o_proto o_items o_props]. f_equal.
    apply set_prop_same. rewrite !get_prop_app, Htr. simpl.
    rewrite String.eqb_refl. reflexivity. }
  rewrite Hc1. erewrite bind_ok by reflexivity.
  erewrite bind_ok by reflexivity.
  erewrite bind_ok by reflexivity.
  assert (Hset : set_prop (origcode R) (VRef a)
                   ((tg ++ [(refcode R, VNum 0)]) ++ map (enc_field R []) ps) =
                 tg ++ [(refcode R, VNum 0)] ++ map (enc_field R []) ps
                    ++ [(origcode R, VRef a)]).
  { rewrite set_prop_fresh.
    - rewrite <- !app_assoc. reflexivity.
    - rewrite !get_prop_app, Hto. simpl.
      replace (String.eqb (refcode R) (origcode R)) with false
        by (symmetry; apply String.eqb_neq, refcode_origcode).
      apply Hfe. apply prefix_append. }
  eexists. unfold ret. cbn [heap table invoked user_calls].
  cbn [alter list_alter]. unfold obj_set. cbn [o_proto o_items o_props].
  rewrite Hset. reflexivity.
Qed.

Lemma flat_release R a p ps tg h1 iv uc o :
  forallb (free_key R) ps = true ->
  get_prop (refcode R) tg = None -> get_prop (origcode R) tg = None ->
  h1 !! a = Some o ->
  release R 0
    (State h1
       [Obj p [] (tg ++ [(refcode R, VNum 0)] ++ map (enc_field R []) ps
                  ++ [(origcode R, VRef a)])] iv uc) =
  Ok (tt, State (alter (if cleanup R then _deleteRefcode R
                        else _setRefcodeNull R) a h1)
                [Obj p [] (tg ++ map (enc_field R []) ps)] iv uc).
Proof.
  intros Hfree Htr Hto Ho.
  assert (Hfe : forall k, String.prefix (prefix R) k = true ->
            get_prop k (map (enc_field R []) ps) = None).
  { intros k Hk. apply get_prop_enc_fields. apply (get_prop_free R); auto. }
  assert (Hro : String.eqb (refcode R) (origcode R) = false)
    by (apply String.eqb_neq, refcode_origcode).
  assert (Hor : String.eqb (origcode R) (refcode R) = false)
    by (apply String.eqb_neq; intros E; symmetry in E;
        revert E; apply refcode_origcode).
  unfold release. erewrite bind_ok by reflexivity.
  cbn [o_props]. unfold read_prop.
  rewrite !get_prop_app, Hto. cbn [get_prop]. rewrite Hro.
  rewrite (Hfe (origcode R)) by apply prefix_append.
  rewrite String.eqb_refl.
  erewrite bind_ok by (unfold update; cbn [heap]; rewrite Ho; reflexivity).
  erewrite bind_ok by reflexivity.
  unfold update_copy. cbn [table heap invoked user_calls].
  cbn [lookup list_lookup alter list_alter].
  unfold _deleteRefcode, obj_del. cbn [o_proto o_items o_props].
  rewrite !del_prop_app. cbn [del_prop]. rewrite !String.eqb_refl, Hor.
  cbn [del_prop]. rewrite String.eqb_refl.
  rewrite (del_prop_fresh (refcode R) tg Htr).
  rewrite (del_prop_fresh (refcode R) (map (enc_field R []) ps))
    by (apply Hfe, prefix_append).
  rewrite (del_prop_fresh (origcode R) tg Hto).
  rewrite (del_prop_fresh (origcode R) (map (enc_field R []) ps))
    by (apply Hfe, prefix_append).
  cbn [app]. rewrite app_nil_r. reflexivity.
Qed.

Lemma flat_stringify R fuel h a p ps tg :
  h !! a = Some (Obj p [] ps) -> p <> ProtoArray ->
  nodup_keys ps = true -> forallb (free_key R) ps = true ->
  forallb (fun q => isAtom (snd q) && visitable R 0 (snd q)) ps = true ->
  (forall s, tag R (Obj p [] []) s =
     Ok (VNum (Z.of_nat (length (table s))),
         State (heap s)
               (table s ++
                [Obj p [] (tg ++ [(refcode R,
                                   VNum (Z.of_nat (length (table s))))])])
               (invoked s) (user_calls s))) ->
  (forall k, String.prefix (prefix R) k = false -> get_prop k tg = None) ->
  get_prop (refcode R) tg = None -> get_prop (origcode R) tg = None ->
  forallb (fun q => encoded (snd q)) tg = true ->
  stringify R (5 + fuel) h (VRef a) RNull =
  Ok (Some (JArr [JObj (map (fun q => (fst q, to_json (snd q)))
                          (tg ++ map (enc_field R []) ps))]),
      alter (released R) a h).
Proof.
  intros Ho Hp Hn Hfree Hat Htag Htg Htr Hto Henc.
  destruct (flat_visit R (3 + fuel) h a p ps tg [] [] Ho Hp Hn Hfree Hat Htag
              Htg Htr Hto) as [r Hv].
  unfold stringify, stringify_run. cbv zeta.
  change (isAtom (VRef a)) with false. cbv iota.
  change (5 + fuel) with (S (S (3 + fuel))).
  erewrite bind_ok by exact Hv.
  erewrite bind_ok by reflexivity. cbn [table length seq for_each].
  rewrite bind_assoc.
  erewrite bind_ok.
  2:{ apply (flat_release R a p ps tg _ [] [] (_setRefcode R (VNum 0)
                                                   (Obj p [] ps)));
        auto.
      rewrite list_lookup_alter_eq, Ho. reflexivity. }
  erewrite bind_ok by reflexivity. cbn [table map].
  change (entry_value (Obj p [] (tg ++ map (enc_field R []) ps)))
    with (entry_value (Obj ProtoObject [] (tg ++ map (enc_field R []) ps)))
    || (unfold entry_value at 1;
        replace (isArray_obj (Obj p [] (tg ++ map (enc_field R []) ps)))
          with false by (destruct p; auto; contradiction)).
  pose proof (JSON_stringify_table fuel
                [Obj ProtoObject [] (tg ++ map (enc_field R []) ps)]) as Hj.
  cbn [map] in Hj. unfold entry_value at 1 in Hj. cbn [isArray_obj o_proto] in Hj.
  change (S (S (3 + fuel))) with (S (S (S (S (S fuel))))).
  rewrite Hj.
  - cbn [res_bind fst snd heap]. rewrite released_fun.
    rewrite list_alter_alter_eq.
    do 2 f_equal.
    apply list_alter_ext; [|reflexivity]. intros x _. simpl.
    apply released_setRefcode.
  - cbn [forallb]. rewrite andb_true_r. unfold encoded_entry.
    cbn [o_proto o_items o_props]. rewrite andb_true_r.
    rewrite forallb_app, Henc. cbn [andb].
    rewrite forallb_forall. intros q Hq. apply in_map_iff in Hq as (q0 & <- & Hq0).
    rewrite forallb_forall in Hat. apply Hat in Hq0.
    apply andb_true_iff in Hq0 as [_ Hv0].
    unfold enc_field. cbn [snd]. eapply enc_encoded. exact Hv0.
Qed.

Lemma tag_class R name uid s :
  revive R = true -> scope R name = Some (ProtoClass name uid) ->
  name <> EmptyString -> name <> "Object" -> name <> "Array" ->
  tag R (Obj (ProtoClass name uid) [] []) s =
  Ok (VNum (Z.of_nat (length (table s))),
      State (heap s)
            (table s ++
             [Obj (ProtoClass name uid) []
                ([(prefix R, VStr name)]
                 ++ [(refcode R, VNum (Z.of_nat (length (table s))))])])
            (invoked s) (user_calls s)).
Proof.
  intros Hrev Hs Hn0 Hn1 Hn2. apply String.eqb_neq in Hn0, Hn1, Hn2.
  unfold tag, getName, getPrototype. rewrite Hrev. simpl constructor_name.
  rewrite Hn0, Hn1, Hn2. simpl orb. cbv iota.
  unfold bind, lift. simpl. rewrite Hs. simpl.
  rewrite String.eqb_refl, Nat.eqb_refl. simpl.
  unfold ret, _setRefcode, _setTag, obj_set. simpl.
  replace (String.eqb (prefix R) (refcode R)) with false
    by (symmetry; apply String.eqb_neq; intros E; symmetry in E;
        revert E; apply refcode_prefix).
  reflexivity.
Qed.

Lemma tag_unrevived R p s :
  revive R = false ->
  tag R (Obj p [] []) s =
  Ok (VNum (Z.of_nat (length (table s))),
      State (heap s)
            (table s ++
             [Obj p [] ([] ++ [(refcode R,
                                VNum (Z.of_nat (length (table s))))])])
            (invoked s) (user_calls s)).
Proof. intros Hrev. unfold tag. rewrite Hrev. reflexivity. Qed.

Lemma exact_atom_visitable R v :
  isAtom v = true -> exact_value v = true -> visitable R 0 v = true.
Proof. destruct v; try discriminate; reflexivity. Qed.

Lemma exact_atoms_flat R ps :
  forallb (fun q => isAtom (snd q) && exact_value (snd q)) ps = true ->
  forallb (fun q => isAtom (snd q) && visitable R 0 (snd q)) ps = true /\
  forallb (visitable R 0) (map snd ps) = true /\
  forallb (decodable R) (map snd ps) = true /\
  (forall b, VRef b ∈ map snd ps -> b ∈ @nil nat) /\
  map (back_field R []) ps = ps.
Proof.
  induction ps as [|[k v] ps IH]; simpl; intros H.
  - csplit; auto. intros b Hb. inversion Hb.
  - apply andb_true_iff in H as [Hv H].
    apply andb_true_iff in Hv as [Ha He].
    destruct (IH H) as (I1 & I2 & I3 & I4 & I5).
    rewrite Ha, I1, I2, I3, I5, (exact_atom_visitable R v Ha He),
      (decodable_exact R v He).
    csplit; auto.
    + intros b Hb. apply elem_of_cons in Hb as [E|Hb]; auto.
      subst v. discriminate.
    + unfold back_field. simpl. rewrite (back_exact R [] v He).
      destruct v; try discriminate; reflexivity.
Qed.

Lemma flat_parse R tg ps :
  forallb (fun q => encoded (snd q)) tg = true ->
  forallb (visitable R 0) (map snd ps) = true ->
  nodup_keys (tg ++ map (enc_field R []) ps) = true ->
  JSON_parse (JArr [JObj (map (fun q => (fst q, to_json (snd q)))
                            (tg ++ map (enc_field R []) ps))]) =
  VList [VRec (tg ++ map (enc_field R []) ps)].
Proof.
  intros Ht Hv Hnd. simpl.
  rewrite parse_encoded_fields;
    [rewrite object_of_nodup by exact Hnd; reflexivity|].
  rewrite forallb_app, Ht. simpl.
  rewrite forallb_forall. intros q Hq.
  apply in_map_iff in Hq as (q0 & <- & Hq0).
  rewrite forallb_forall in Hv. unfold enc_field. simpl.
  eapply enc_encoded. apply Hv. apply in_map. exact Hq0.
Qed.

(** X12. The prototype of a record of a class survives the round trip:
    with the option [revive], an object whose constructor the scope knows
    under its name, and whose fields are atoms, is written with its
    constructor's name under the prefix key, and [resurrect] gives an
    object with the prototype of that constructor and the same fields.
    The name stays on the object as an own property, whatever the option
    [cleanup] says. *)
Theorem class_instance_roundtrip R fuel h a name uid ps :
  revive R = true -> scope R name = Some (ProtoClass name uid) ->
  name <> EmptyString -> name <> "Object" -> name <> "Array" ->
  h !! a = Some (Obj (ProtoClass name uid) [] ps) ->
  nodup_keys ps = true -> forallb (free_key R) ps = true ->
  forallb (fun q => isAtom (snd q) && exact_value (snd q)) ps = true ->
  5 <= fuel ->
  exists text,
    stringify R fuel h (VRef a) RNull =
      Ok (Some text, alter (released R) a h) /\
    resurrect R text =
      Ok (VRef 0,
          [EObj (Obj (ProtoClass name uid) [] ((prefix R, VStr name) :: ps))]).
Proof.
  intros Hrev Hs Hn0 Hn1 Hn2 Ho Hn Hfree Hex Hf.
  destruct (exact_atoms_flat R ps Hex) as (Hat & Hv & Hd & Hb & Hback).
  replace fuel with (5 + (fuel - 5)) by lia.
  eexists. split.
  - apply (flat_stringify R (fuel - 5) h a (ProtoClass name uid) ps
             [(prefix R, VStr name)]).
    + exact Ho.
    + discriminate.
    + exact Hn.
    + exact Hfree.
    + exact Hat.
    + intros s. apply tag_class; auto.
    + intros k Hk. simpl. destruct (String.eqb (prefix R) k) eqn:E; auto.
      apply String.eqb_eq in E. subst k. rewrite prefix_self in Hk.
      discriminate.
    + simpl. replace (String.eqb (prefix R) (refcode R)) with false; auto.
      symmetry. apply String.eqb_neq. intros E. symmetry in E. revert E.
      apply refcode_prefix.
    + simpl. replace (String.eqb (prefix R) (origcode R)) with false; auto.
      symmetry. apply String.eqb_neq. unfold origcode.
      apply code_not_prefix. discriminate.
    + reflexivity.
  - unfold resurrect.
    rewrite (flat_parse R [(prefix R, VStr name)] ps eq_refl Hv).
    2:{ cbn [app nodup_keys].
        rewrite (nodup_keys_enc_fields R [] ps Hn), andb_true_r.
        apply negb_true_iff, has_prop_false, get_prop_enc_fields.
        apply (get_prop_free R); [apply prefix_self | exact Hfree]. }
    rewrite Hrev. cbn [map entry_of fix_all]. unfold fixPrototype.
    unfold _hasTag, _getTag, has_prop, read_prop. cbn [o_props app get_prop].
    rewrite String.eqb_refl. unfold getPrototype. rewrite Hs.
    cbn [res_bind length seq resolve_from lookup list_lookup o_items o_props].
    unfold resolve_entry. cbn [o_items o_props o_proto decode_items res_bind].
    cbn [decode_props]. unfold decode_child at 1. cbn [isAtom res_bind].
    rewrite (decode_props_enc R [] _ ps 0); auto.
    + cbn [res_bind]. rewrite Hback. reflexivity.
    + intros i Hi. simpl in Hi. lia.
Qed.

Lemma class_instance_roundtrip_witness :
  exists text,
    stringify foo_necromancer 5 a_foo (VRef 0) RNull =
      Ok (Some text, alter (released foo_necromancer) 0 a_foo) /\
    resurrect foo_necromancer text =
      Ok (VRef 0,
          [EObj (Obj (ProtoClass "Foo" 1) []
                   ((prefix foo_necromancer, VStr "Foo")
                    :: [("x", VNum 1); ("u", VUndef)]))]).
Proof.
  apply (class_instance_roundtrip foo_necromancer 5 a_foo 0 "Foo" 1
           [("x", VNum 1); ("u", VUndef)]);
    first [reflexivity | discriminate | lia].
Defined.

(** The scenario of X12 in full: the text carries the name of the
    constructor, the decoded object its prototype. *)
Example foo_roundtrip :
  stringify foo_necromancer 5 a_foo (VRef 0) RNull =
    Ok (Some (JArr [JObj [("#", JStr "Foo"); ("x", JNum 1);
                          ("u", JObj [("#", JNum (-1))])]]),
        [Obj (ProtoClass "Foo" 1) []
           [("x", VNum 1); ("u", VUndef); ("#id", VNull)]]) /\
  resurrect foo_necromancer
    (JArr [JObj [("#", JStr "Foo"); ("x", JNum 1);
                 ("u", JObj [("#", JNum (-1))])]]) =
    Ok (VRef 0,
        [EObj (Obj (ProtoClass "Foo" 1) []
                 [("#", VStr "Foo"); ("x", VNum 1); ("u", VUndef)])]).
Proof. split; vm_compute; reflexivity. Qed.

(** X13. With the option [revive] unset, the constructor of an object is
    neither consulted nor recorded: a record of any class, with atoms for
    fields, is written without a name and comes back as a plain object
    with the same fields. *)
Theorem unrevived_instance_is_plain R fuel h a p ps :
  revive R = false ->
  h !! a = Some (Obj p [] ps) -> p <> ProtoArray ->
  nodup_keys ps = true -> forallb (free_key R) ps = true ->
  forallb (fun q => isAtom (snd q) && exact_value (snd q)) ps = true ->
  5 <= fuel ->
  exists text,
    stringify R fuel h (VRef a) RNull =
      Ok (Some text, alter (released R) a h) /\
    resurrect R text = Ok (VRef 0, [EObj (Obj ProtoObject [] ps)]).
Proof.
  intros Hrev Ho Hp Hn Hfree Hex Hf.
  destruct (exact_atoms_flat R ps Hex) as (Hat & Hv & Hd & Hb & Hback).
  replace fuel with (5 + (fuel - 5)) by lia.
  eexists. split.
  - apply (flat_stringify R (fuel - 5) h a p ps []).
    + exact Ho.
    + exact Hp.
    + exact Hn.
    + exact Hfree.
    + exact Hat.
    + intros s. apply tag_unrevived. exact Hrev.
    + reflexivity.
    + reflexivity.
    + reflexivity.
    + reflexivity.
  - unfold resurrect.
    rewrite (flat_parse R [] ps eq_refl Hv)
      by (apply nodup_keys_enc_fields; exact Hn).
    rewrite Hrev. cbn [app map entry_of].
    cbn [res_bind length seq resolve_from lookup list_lookup].
    unfold resolve_entry. cbn [o_items o_props o_proto decode_items res_bind].
    rewrite (decode_props_enc R [] _ ps 0); auto.
    + cbn [res_bind]. rewrite Hback. reflexivity.
    + intros i Hi. simpl in Hi. lia.
Qed.

Lemma unrevived_instance_is_plain_witness :
  exists text,
    stringify plain_necromancer 5 a_foo (VRef 0) RNull =
      Ok (Some text, alter (released plain_necromancer) 0 a_foo) /\
    resurrect plain_necromancer text =
      Ok (VRef 0, [EObj (Obj ProtoObject [] [("x", VNum 1); ("u", VUndef)])]).
Proof.
  apply (unrevived_instance_is_plain plain_necromancer 5 a_foo 0
           (ProtoClass "Foo" 1) [("x", VNum 1); ("u", VUndef)]);
    first [reflexivity | discriminate | lia].
Defined.

(** ** Tables [resurrect] does not take *)

Lemma fix_all_throws_at R es : forall i e,
  es !! i = Some e -> throws (fixPrototype R e) = true ->
  throws (fix_all R es) = true.
Proof.
  induction es as [|x es IH]; intros i e Hi Hu; [discriminate|]. simpl.
  destruct i as [|i]; simpl in Hi.
  - inversion Hi; subst x.
    destruct (fixPrototype R e); try discriminate. reflexivity.
  - pose proof (fixPrototype_spec R x) as Hx.
    destruct (fixPrototype R x); try contradiction; [|reflexivity]. simpl.
    specialize (IH i e Hi Hu).
    destruct (fix_all R es); try discriminate. reflexivity.
Qed.

Lemma resolve_from_atoms R idx : forall table,
  (forall j, j ∈ idx -> exists v, table !! j = Some (EAtom v)) ->
  resolve_from R idx table = Ok table.
Proof.
  induction idx as [|i idx IH]; intros table H; [reflexivity|]. simpl.
  destruct (H i) as [v Hv]; [left|]. rewrite Hv. simpl.
  rewrite list_insert_id by exact Hv. apply IH.
  intros j Hj. apply H. right. exact Hj.
Qed.

(** X14. A JSON array with a primitive among its elements is not a table
    for [resurrect] when the option [revive] is set: looking for the type
    name on the primitive raises an error.  With [revive] unset, an array
    of primitives is returned as its first element. *)
Theorem primitive_table_entry R js i j :
  js !! i = Some j -> isAtom (JSON_parse j) = true ->
  (revive R = true -> exists msg, resurrect R (JArr js) = Throw msg) /\
  (revive R = false ->
   (forall k x, js !! k = Some x -> isAtom (JSON_parse x) = true) ->
   exists v table,
     resurrect R (JArr js) = Ok (v, table) /\
     JSON_parse <$> js !! 0 = Some v).
Proof.
  intros Hi Ha.
  assert (He : map entry_of (map JSON_parse js) !! i =
               Some (EAtom (JSON_parse j))).
  { change ((entry_of <$> (JSON_parse <$> js)) !! i =
            Some (EAtom (JSON_parse j))).
    rewrite !list_lookup_fmap, Hi. simpl.
    destruct (JSON_parse j); try discriminate; reflexivity. }
  split.
  - intros Hrev. unfold resurrect. simpl JSON_parse. cbv iota. rewrite Hrev.
    pose proof (fix_all_throws_at R _ i _ He eq_refl) as Ht.
    destruct (fix_all R (map entry_of (map JSON_parse js)));
      try discriminate.
    eexists. reflexivity.
  - intros Hrev Hall. unfold resurrect. simpl JSON_parse. cbv iota.
    rewrite Hrev. cbn [res_bind].
    assert (Hat : forall k, k < length js ->
              exists v, map entry_of (map JSON_parse js) !! k =
                        Some (EAtom v) /\
                        JSON_parse <$> js !! k = Some v).
    { intros k Hk. destruct (lookup_lt_is_Some_2 js k Hk) as [x Hx].
      exists (JSON_parse x).
      change ((entry_of <$> (JSON_parse <$> js)) !! k =
              Some (EAtom (JSON_parse x)) /\
              JSON_parse <$> js !! k = Some (JSON_parse x)).
      rewrite !list_lookup_fmap, Hx. simpl. split; [|reflexivity].
      specialize (Hall k x Hx).
      destruct (JSON_parse x); try discriminate; reflexivity. }
    rewrite resolve_from_atoms.
    + cbn [res_bind]. destruct (Hat 0) as (v & Hv & Hv').
      { apply lookup_lt_Some in Hi. lia. }
      rewrite Hv. simpl. eexists _, _. split; [reflexivity|]. exact Hv'.
    + intros k Hk. apply elem_of_seq in Hk. rewrite !length_map in Hk.
      destruct (Hat k) as (v & Hv & _); [lia|]. eauto.
Qed.

Lemma primitive_table_entry_witness :
  (revive necromancer = true ->
   exists msg, resurrect necromancer (JArr [JNum 1; JNum 2]) = Throw msg) /\
  (revive necromancer = false ->
   (forall k x, [JNum 1; JNum 2] !! k = Some x ->
                isAtom (JSON_parse x) = true) ->
   exists v table,
     resurrect necromancer (JArr [JNum 1; JNum 2]) = Ok (v, table) /\
     JSON_parse <$> [JNum 1; JNum 2] !! 0 = Some v).
Proof.
  apply (primitive_table_entry necromancer [JNum 1; JNum 2] 0 (JNum 1));
    reflexivity.
Defined.

(** ** Atoms without an encoding *)

Lemma visit_atom_fail R rep fuel v s msg :
  isAtom v = true -> handleAtom R v = Throw msg ->
  visit R (handleAtom R) rep (S fuel) v s = Throw msg.
Proof.
  intros Ha Hx. rewrite visit_S, Ha. unfold lift. rewrite Hx. reflexivity.
Qed.

Lemma visit_property_atom_fail R fuel a s o1 k v msg :
  heap s !! a = Some o1 -> get_prop k (o_props o1) = Some v ->
  isAtom v = true -> handleAtom R v = Throw msg ->
  visit_property (visit R (handleAtom R) None (S fuel)) None a 0 k s =
  Throw msg.
Proof.
  intros Ho Hk Ha Hx. unfold visit_property.
  erewrite bind_ok by (unfold load; rewrite Ho; reflexivity).
  cbv zeta.
  replace (has_prop k (o_props o1)) with true
    by (symmetry; apply has_prop_true; eauto).
  unfold read_prop. rewrite Hk. unfold call_replacer.
  erewrite bind_ok by reflexivity. cbv beta iota.
  unfold bind. rewrite (visit_atom_fail R None fuel v s msg Ha Hx).
  reflexivity.
Qed.

Lemma nodup_keys_app_l ps qs :
  nodup_keys (ps ++ qs) = true -> nodup_keys ps = true.
Proof.
  induction ps as [|[k v] ps IH]; simpl; [reflexivity|]. intros H.
  apply andb_true_iff in H as [H1 H2]. rewrite (IH H2), andb_true_r.
  apply negb_true_iff. apply negb_true_iff in H1.
  apply has_prop_false. apply has_prop_false in H1.
  rewrite get_prop_app in H1. destruct (get_prop k ps); [discriminate|].
  reflexivity.
Qed.

(** X15. An atom that has no encoding stops [stringify]: when a field of
    the root object holds an atom [handleAtom] raises an error for -- an
    ordinary function, an invalid Date -- and the fields before it are
    atoms that do have an encoding, that error is raised and no text is
    returned.  (A function here is one tagged [[object Function]]; async
    and generator functions are not among the values of the model.) *)
Theorem unserializable_field R fuel h a pre k v post msg :
  h !! a = Some (Obj ProtoObject [] (pre ++ (k, v) :: post)) ->
  nodup_keys (pre ++ (k, v) :: post) = true ->
  forallb (free_key R) (pre ++ (k, v) :: post) = true ->
  forallb (fun q => isAtom (snd q) && visitable R 0 (snd q)) pre = true ->
  isAtom v = true -> handleAtom R v = Throw msg -> 2 <= fuel ->
  stringify R fuel h (VRef a) RNull = Throw msg.
Proof.
  intros Ho Hn Hfree Hat Ha Hx Hf.
  destruct fuel as [|[|fuel]]; try lia.
  set (ps := pre ++ (k, v) :: post) in *.
  assert (Hrc : get_prop (refcode R) ps = None)
    by (apply (get_prop_free R); [apply prefix_append | exact Hfree]).
  assert (Hut : isTagged R (Obj ProtoObject [] ps) = false)
    by (unfold isTagged, _getRefcode, read_prop; simpl; rewrite Hrc; auto).
  assert (Ho1 : _setRefcode R (VNum 0) (Obj ProtoObject [] ps) =
                Obj ProtoObject [] (ps ++ [(refcode R, VNum 0)])).
  { unfold _setRefcode, obj_set. simpl. rewrite set_prop_fresh by exact Hrc.
    reflexivity. }
  assert (Hh1 : alter (_setRefcode R (VNum 0)) a h !! a =
                Some (Obj ProtoObject [] (ps ++ [(refcode R, VNum 0)])))
    by (rewrite list_lookup_alter_eq, Ho; simpl; rewrite Ho1; reflexivity).
  assert (Hget : forall k' v', (k', v') ∈ ps ->
            get_prop k' (ps ++ [(refcode R, VNum 0)]) = Some v').
  { intros k' v' Hin. rewrite get_prop_app.
    rewrite (nodup_keys_lookup ps k' v' Hn Hin). reflexivity. }
  unfold stringify, stringify_run. cbv zeta.
  change (isAtom (VRef a)) with false. cbv iota.
  assert (Hv : visit R (handleAtom R) None (S (S fuel)) (VRef a)
                 (State h [] [] []) = Throw msg).
  { rewrite visit_S. change (isAtom (VRef a)) with false. cbv iota.
    erewrite bind_ok by reflexivity.
    erewrite bind_ok by (unfold load; simpl; rewrite Ho; reflexivity).
    rewrite Hut. cbn [negb]. erewrite bind_ok by reflexivity.
    replace (isArray_obj (Obj ProtoObject [] ps)) with false by reflexivity.
    rewrite bind_assoc.
    erewrite bind_ok by (apply tag_plain; reflexivity).
    cbn [table length app]. change (Z.of_nat 0) with 0%Z.
    rewrite bind_assoc.
    erewrite bind_ok by (unfold update; simpl; rewrite Ho; reflexivity).
    rewrite bind_assoc.
    erewrite bind_ok by (unfold load; simpl; rewrite Hh1; reflexivity).
    cbn [o_props]. unfold ps at 1. rewrite <- app_assoc, map_app.
    rewrite for_each_app_bind.
    erewrite bind_ok.
    2:{ eapply (flat_fields R fuel a ProtoObject _ pre [(refcode R, VNum 0)]).
        - exact Hh1.
        - reflexivity.
        - intros k' v' Hin. cbn [o_props]. apply Hget. unfold ps.
          apply elem_of_app. left. exact Hin.
        - exact Hat.
        - eapply nodup_keys_app_l. exact Hn.
        - intros k' v' Hin. simpl.
          destruct (String.eqb (refcode R) k') eqn:E; [|reflexivity].
          apply String.eqb_eq in E. subst k'.
          assert (Hin' : (refcode R, v') ∈ ps)
            by (unfold ps; apply elem_of_app; left; exact Hin).
          rewrite (nodup_keys_lookup ps _ _ Hn Hin') in Hrc. discriminate. }
    cbn [heap invoked user_calls map app for_each fst].
    rewrite bind_assoc. unfold bind at 1.
    erewrite (visit_property_atom_fail R fuel a _ _ k v msg);
      [reflexivity | exact Hh1 | | exact Ha | exact Hx].
    cbn [o_props]. apply Hget. unfold ps. apply elem_of_app. right. left. }
  change (normalize_replacer R RNull) with (@None closure).
  unfold bind. rewrite Hv. reflexivity.
Qed.

Lemma unserializable_field_witness :
  stringify necromancer 2 [Obj ProtoObject [] [("a", VNum 1); ("f", VFun)]]
    (VRef 0) RNull = Throw "Can't serialize functions.".
Proof.
  apply (unserializable_field necromancer 2
           [Obj ProtoObject [] [("a", VNum 1); ("f", VFun)]] 0
           [("a", VNum 1)] "f" VFun []);
    first [reflexivity | lia].
Defined.

(** ** Dates *)

Local Open Scope Z_scope.

Lemma append_cons x (a b : string) :
  (String x a ++ b)%string = String x (a ++ b)%string.
Proof. reflexivity. Qed.

Lemma append_nil (b : string) : (EmptyString ++ b)%string = b.
Proof. reflexivity. Qed.

Lemma string_app_assoc (a b c : string) :
  ((a ++ b) ++ c)%string = (a ++ (b ++ c))%string.
Proof.
  induction a as [|x a IH]; [reflexivity|].
  rewrite !append_cons, IH. reflexivity.
Qed.

Lemma digit_nat n :
  0 <= n <= 9 -> exists k : nat, (k <= 9)%nat /\ n = Z.of_nat k.
Proof. intros H. exists (Z.to_nat n). lia. Qed.

Lemma digit_value_char n : 0 <= n <= 9 -> digit_value (digit_char n) = Some n.
Proof.
  intros H. destruct (digit_nat n H) as (k & Hk & ->).
  do 10 (destruct k as [|k]; [reflexivity|]). lia.
Qed.

Lemma read_pad_digits w : forall n k acc rest,
  0 <= n < 10 ^ Z.of_nat w ->
  read_digits (w + k) acc (pad_digits w n ++ rest)%string =
  read_digits k (acc * 10 ^ Z.of_nat w + n) rest.
Proof.
  induction w as [|w IH]; intros n k acc rest Hn.
  - cbn [pad_digits Nat.add]. rewrite append_nil. f_equal.
    change (10 ^ Z.of_nat 0) with 1 in *. lia.
  - rewrite Nat2Z.inj_succ, Z.pow_succ_r in Hn by lia.
    cbn [pad_digits]. rewrite string_app_assoc.
    replace (S w + k)%nat with (w + S k)%nat by lia.
    rewrite IH by (split; [apply Z.div_pos; lia | apply Z.div_lt_upper_bound; lia]).
    rewrite append_cons, append_nil. cbn [read_digits].
    rewrite digit_value_char
      by (pose proof (Z.mod_pos_bound n 10); lia).
    f_equal. rewrite Nat2Z.inj_succ, Z.pow_succ_r by lia.
    pose proof (Z.div_mod n 10). lia.
Qed.

Lemma read_pad w n rest :
  0 <= n < 10 ^ Z.of_nat w ->
  read_digits w 0 (pad_digits w n ++ rest)%string = Some (n, rest).
Proof.
  intros Hn. replace w with (w + 0)%nat at 1 by lia.
  rewrite read_pad_digits by exact Hn. reflexivity.
Qed.

Lemma civil_roundtrip z :
  let '(y, m, d) := civil_from_days z in
  days_from_civil y m d = z /\ 1 <= m <= 12 /\ 1 <= d <= 31 /\
  (-100000000 <= z <= 100000000 -> -300000 < y < 300000).
Proof.
  unfold civil_from_days, days_from_civil. cbv zeta.
  repeat match goal with
  | |- context [if ?b then _ else _] =>
      let E := fresh "E" in destruct b eqn:E
  end;
  repeat match goal with
  | H : (_ <? _) = true |- _ => apply Z.ltb_lt in H
  | H : (_ <? _) = false |- _ => apply Z.ltb_ge in H
  | H : (_ <=? _) = true |- _ => apply Z.leb_le in H
  | H : (_ <=? _) = false |- _ => apply Z.leb_gt in H
  end;
  Z.div_mod_to_equations; lia.
Qed.

Lemma read_year_digit n s :
  0 <= n <= 9 ->
  read_year (String (digit_char n) s) =
  read_digits 4 0 (String (digit_char n) s).
Proof.
  intros H. destruct (digit_nat n H) as (k & Hk & ->).
  do 10 (destruct k as [|k]; [reflexivity|]). lia.
Qed.

Lemma pad4_head y rest :
  (pad_digits 4 y ++ rest)%string =
  String (digit_char (y / 10 / 10 / 10 mod 10))
    (String (digit_char (y / 10 / 10 mod 10))
       (String (digit_char (y / 10 mod 10))
          (String (digit_char (y mod 10)) rest))).
Proof. reflexivity. Qed.

Lemma read_year_text y rest :
  -300000 < y < 300000 ->
  read_year (year_text y ++ rest)%string = Some (y, rest).
Proof.
  intros Hy. unfold year_text.
  destruct ((0 <=? y) && (y <=? 9999)) eqn:E1.
  - apply andb_true_iff in E1 as [H1 H2].
    apply Z.leb_le in H1. apply Z.leb_le in H2.
    rewrite pad4_head. rewrite read_year_digit
      by (pose proof (Z.mod_pos_bound (y / 10 / 10 / 10) 10); lia).
    rewrite <- pad4_head. apply read_pad. simpl. lia.
  - destruct (y <? 0) eqn:E2.
    + apply Z.ltb_lt in E2.
      change (("-" ++ pad_digits 6 (- y)) ++ rest)%string
        with (String "-" (pad_digits 6 (- y) ++ rest)%string).
      cbn [read_year]. rewrite read_pad by (simpl; lia).
      f_equal. f_equal. lia.
    + apply Z.ltb_ge in E2.
      change (("+" ++ pad_digits 6 y) ++ rest)%string
        with (String "+" (pad_digits 6 y ++ rest)%string).
      cbn [read_year]. apply read_pad. simpl. lia.
Qed.

Lemma expect_head c s : expect c (String c s) = Some s.
Proof. unfold expect. rewrite Ascii.eqb_refl. reflexivity. Qed.

Lemma date_text_roundtrip t :
  - max_time <= t <= max_time ->
  exists s, date_toISOString (Some t) = Some s /\ date_parse s = Some t.
Proof.
  intros Ht. unfold date_toISOString.
  replace ((- max_time <=? t) && (t <=? max_time)) with true
    by (symmetry; apply andb_true_iff; split; apply Z.leb_le; lia).
  pose proof (civil_roundtrip (t / ms_per_day)) as Hc.
  destruct (civil_from_days (t / ms_per_day)) as [[y m] d].
  destruct Hc as (Hd & Hm & Hdd & Hy).
  assert (Hyb : -300000 < y < 300000).
  { apply Hy. unfold max_time, ms_per_day in *.
    split; [apply Z.div_le_lower_bound | apply Z.div_le_upper_bound]; lia. }
  pose proof (Z.mod_pos_bound t ms_per_day eq_refl) as Hr.
  pose proof (Z.div_mod t ms_per_day) as Ht2.
  set (r := t mod ms_per_day) in *.
  set (q := t / ms_per_day) in *.
  unfold ms_per_day in Hr, Ht2.
  assert (Hh : 0 <= r / 3600000 <= 23)
    by (Z.div_mod_to_equations; lia).
  assert (Hmi : 0 <= r / 60000 mod 60 <= 59)
    by (Z.div_mod_to_equations; lia).
  assert (Hs : 0 <= r / 1000 mod 60 <= 59)
    by (Z.div_mod_to_equations; lia).
  assert (Hms : 0 <= r mod 1000 <= 999)
    by (Z.div_mod_to_equations; lia).
  assert (Hsum : r / 3600000 * 3600000 + r / 60000 mod 60 * 60000
                 + r / 1000 mod 60 * 1000 + r mod 1000 = r)
    by (Z.div_mod_to_equations; lia).
  set (hh := r / 3600000) in *. set (mi := r / 60000 mod 60) in *.
  set (ss := r / 1000 mod 60) in *. set (ms := r mod 1000) in *.
  eexists. split; [reflexivity|].
  unfold date_parse.
  rewrite read_year_text by exact Hyb. cbn [mbind option_bind].
  repeat (first
    [ progress change (String ?c EmptyString ++ ?x)%string with (String c x)
    | rewrite expect_head
    | rewrite read_pad by (simpl; lia) ];
    cbn [mbind option_bind]).
  cbv zeta. rewrite Hd.
  replace (q * ms_per_day + hh * 3600000 + mi * 60000 + ss * 1000 + ms)
    with t by (unfold ms_per_day; lia).
  replace (_ && _) with true; [reflexivity|].
  symmetry. repeat (apply andb_true_iff; split);
    first [reflexivity | apply Z.leb_le; lia].
Qed.

(** X16. A Date with a valid time value comes back with the same time
    value, to the millisecond: the text [toISOString] prints for it is
    read back by the Date constructor as the same instant. *)
Theorem date_roundtrip R t :
  - max_time <= t <= max_time ->
  roundtrip_atom R (VDate (Some t)) = Ok (VDate (Some t)).
Proof.
  intros Ht. destruct (date_text_roundtrip t Ht) as (s & Hs & Hp).
  unfold roundtrip_atom, handleAtom. rewrite Hs. simpl res_bind.
  rewrite decode_builder_eval. unfold construct. simpl. rewrite Hp.
  reflexivity.
Qed.

Lemma date_roundtrip_witness :
  roundtrip_atom necromancer (VDate (Some (-62198755200001))) =
    Ok (VDate (Some (-62198755200001))).
Proof.
  apply (date_roundtrip necromancer (-62198755200001)).
  unfold max_time. lia.
Defined.

Local Close Scope Z_scope.

(** ** Writing a decoded graph again *)

Lemma kids_rename phi a a' o :
  kids None a' (rename_obj phi o) = map (rename phi) (kids None a o).
Proof.
  unfold kids, rename_obj, isArray_obj. simpl.
  destruct (o_proto o); try reflexivity;
    rewrite !replaced_fields_none, !map_map; reflexivity.
Qed.

Section Renaming.
Variables (G G2 : list obj) (phi : nat -> nat) (S : list nat).
Hypothesis Hinj : forall a b, a ∈ S -> b ∈ S -> phi a = phi b -> a = b.
Hypothesis HG : forall a, a ∈ S -> exists o,
  G !! a = Some o /\ G2 !! phi a = Some (rename_obj phi o) /\
  forall b, VRef b ∈ kids None a o -> b ∈ S.

Lemma index_of_renamed a vis :
  a ∈ S -> (forall b, b ∈ vis -> b ∈ S) ->
  index_of (phi a) (map phi vis) = index_of a vis.
Proof.
  intros Ha. induction vis as [|b vis IH]; intros Hv; [reflexivity|].
  simpl. rewrite IH by (intros c Hc; apply Hv; right; exact Hc).
  destruct (Nat.eqb a b) eqn:E.
  - apply Nat.eqb_eq in E. subst b. rewrite Nat.eqb_refl. reflexivity.
  - replace (Nat.eqb (phi a) (phi b)) with false; [reflexivity|].
    symmetry. apply Nat.eqb_neq. intros E'. apply Nat.eqb_neq in E.
    apply E. apply Hinj; auto. apply Hv. left.
Qed.

Lemma discover_within fuel vis v b :
  (forall c, v = VRef c -> c ∈ S) ->
  b ∈ discover None fuel G vis v -> b ∈ S.
Proof.
  intros Hv Hb. destruct (discover_reach None fuel G vis v b Hb)
    as (c & -> & Hc).
  eapply (reach_visited None G S c b); eauto.
  intros a Ha. destruct (HG a Ha) as (o & Ho & _ & Hk). eauto.
Qed.

Lemma discover_renamed fuel : forall vis v,
  (forall b, b ∈ vis -> b ∈ S) -> (forall c, v = VRef c -> c ∈ S) ->
  discover None fuel G2 (map phi vis) (rename phi v) =
  map phi (discover None fuel G vis v).
Proof.
  induction fuel as [|fuel IH]; intros vis v Hvis Hv; [reflexivity|].
  destruct v; try reflexivity. simpl.
  assert (Ha : a ∈ S) by (apply Hv; reflexivity).
  rewrite (index_of_renamed a vis Ha Hvis).
  destruct (index_of a vis); [reflexivity|].
  destruct (HG a Ha) as (o & Ho & Ho2 & Hk). rewrite Ho, Ho2.
  rewrite (kids_rename phi a (phi a) o). simpl. f_equal.
  assert (Hfold : forall xs acc,
    (forall x, x ∈ xs -> x ∈ kids None a o) ->
    (forall b, b ∈ acc -> b ∈ S) ->
    fold_left
      (fun nw x => nw ++ discover None fuel G2 (map phi vis ++ phi a :: nw) x)
      (map (rename phi) xs) (map phi acc) =
    map phi
      (fold_left
         (fun nw x => nw ++ discover None fuel G (vis ++ a :: nw) x) xs acc)).
  { induction xs as [|x xs IHxs]; intros acc Hxs Hacc; [reflexivity|].
    simpl.
    replace (map phi vis ++ phi a :: map phi acc)
      with (map phi (vis ++ a :: acc)) by (rewrite map_app; reflexivity).
    assert (Hx : forall c, x = VRef c -> c ∈ S).
    { intros c ->. apply Hk. apply Hxs. left. }
    rewrite IH; auto.
    - rewrite <- map_app. apply IHxs.
      + intros y Hy. apply Hxs. right. exact Hy.
      + intros b Hb. apply elem_of_app in Hb as [Hb|Hb]; auto.
        eapply discover_within; eauto.
    - intros b Hb. apply elem_of_app in Hb as [Hb|Hb]; auto.
      apply elem_of_cons in Hb as [->|Hb]; auto. }
  apply (Hfold (kids None a o) []); auto.
  intros b Hb. inversion Hb.
Qed.

End Renaming.

Lemma map_node_index ord :
  NoDup ord -> map (node_index ord) ord = seq 0 (length ord).
Proof.
  intros Hnd. apply list_eq. intros i. rewrite list_lookup_fmap.
  destruct (ord !! i) as [a|] eqn:Ha; simpl.
  - unfold node_index. rewrite (index_of_nodup a ord i Hnd Ha).
    symmetry. apply lookup_seq_lt. eapply lookup_lt_Some; eauto.
  - symmetry. apply lookup_ge_None_2. rewrite length_seq.
    apply lookup_ge_None_1 in Ha. exact Ha.
Qed.

Lemma index_of_seq i n : i < n -> index_of i (seq 0 n) = Some i.
Proof.
  intros Hi. apply index_of_nodup; [apply NoDup_seq|].
  apply lookup_seq_lt. exact Hi.
Qed.

Lemma node_index_bound ord a : a ∈ ord -> node_index ord a < length ord.
Proof.
  intros Ha. eapply lookup_lt_Some. apply node_index_lookup. exact Ha.
Qed.

Lemma enc_renamed R ord v :
  NoDup ord -> (forall b, v = VRef b -> b ∈ ord) ->
  enc R (seq 0 (length ord)) (rename (node_index ord) v) = enc R ord v.
Proof.
  intros Hnd Hv. destruct v; try reflexivity. simpl.
  assert (Ha : a ∈ ord) by (apply Hv; reflexivity).
  rewrite (index_of_seq _ _ (node_index_bound ord a Ha)).
  destruct (index_of_elem a ord Ha) as [i Hi].
  unfold node_index. rewrite Hi. reflexivity.
Qed.

Lemma get_prop_renamed phi k ps :
  get_prop k (map (fun p : string * value => (fst p, rename phi (snd p))) ps) =
  rename phi <$> get_prop k ps.
Proof.
  induction ps as [|[k' v'] ps IH]; simpl; [reflexivity|].
  destruct (String.eqb k' k); [reflexivity | exact IH].
Qed.

Lemma nodup_keys_renamed phi ps :
  nodup_keys (map (fun p : string * value => (fst p, rename phi (snd p))) ps) =
  nodup_keys ps.
Proof.
  induction ps as [|[k v] ps IH]; simpl; [reflexivity|]. rewrite IH.
  unfold has_prop. rewrite get_prop_renamed.
  destruct (get_prop k ps); reflexivity.
Qed.

Lemma free_keys_renamed R phi ps :
  forallb (free_key R)
    (map (fun p : string * value => (fst p, rename phi (snd p))) ps) =
  forallb (free_key R) ps.
Proof.
  induction ps as [|[k v] ps IH]; simpl; [reflexivity|]. rewrite IH.
  reflexivity.
Qed.

Lemma visitable_renamed R n n2 phi v :
  visitable R n v = true -> (forall b, v = VRef b -> phi b < n2) ->
  visitable R n2 (rename phi v) = true.
Proof.
  destruct v; simpl; auto. intros _ H. apply Nat.ltb_lt. apply H. reflexivity.
Qed.

Lemma wf_content_renamed R n n2 a a2 phi o :
  wf_content R None n a o = true ->
  (forall b, VRef b ∈ kids None a o -> phi b < n2) ->
  wf_content R None n2 a2 (rename_obj phi o) = true.
Proof.
  unfold wf_content. intros H Hk.
  repeat (apply andb_true_iff in H as [H ?]).
  rewrite (kids_rename phi a a2 o).
  unfold rename_obj, plain, isArray_obj in *. simpl.
  rewrite nodup_keys_renamed, free_keys_renamed.
  repeat (apply andb_true_iff; split); auto.
  - destruct (o_proto o); destruct (o_props o), (o_items o);
      simpl in *; auto; discriminate.
  - rewrite forallb_forall. intros x Hx.
    apply in_map_iff in Hx as (y & <- & Hy).
    match goal with Hv : forallb (visitable R n) _ = true |- _ =>
      rewrite forallb_forall in Hv; specialize (Hv y Hy) end.
    eapply visitable_renamed; eauto.
    intros b ->. apply Hk. apply list_elem_of_In. exact Hy.
Qed.

Lemma deleteRefcode_fresh R o :
  get_prop (refcode R) (o_props o) = None -> _deleteRefcode R o = o.
Proof.
  intros H. unfold _deleteRefcode, obj_del. rewrite del_prop_fresh by exact H.
  destruct o; reflexivity.
Qed.

Lemma renamed_no_refcode R phi o :
  get_prop (refcode R) (o_props o) = None ->
  get_prop (refcode R) (o_props (rename_obj phi o)) = None.
Proof. intros H. unfold rename_obj. simpl. rewrite get_prop_renamed, H. reflexivity. Qed.

Lemma encode_node_renamed R ord a a2 o :
  NoDup ord -> (forall b, VRef b ∈ kids None a o -> b ∈ ord) ->
  encode_node R None (seq 0 (length ord)) a2 (rename_obj (node_index ord) o) =
  encode_node R None ord a o.
Proof.
  intros Hnd Hk. unfold encode_node, kids in *.
  replace (isArray_obj (rename_obj (node_index ord) o)) with (isArray_obj o)
    by reflexivity.
  rewrite !replaced_fields_none in *.
  destruct (isArray_obj o); unfold rename_obj; simpl; f_equal.
  - rewrite map_map. apply map_ext_in. intros x Hx. apply enc_renamed; auto.
    intros b ->. apply Hk. apply list_elem_of_In. exact Hx.
  - rewrite map_map. apply map_ext_in. intros [k x] Hx.
    unfold enc_field. simpl. f_equal. apply enc_renamed; auto.
    intros b ->. apply Hk. apply list_elem_of_In.
    apply in_map_iff. exists (k, VRef b). auto.
Qed.

Lemma visited_length ord (h : list obj) :
  NoDup ord -> (forall a, a ∈ ord -> a < length h) -> length ord <= length h.
Proof.
  intros Hnd Hb.
  replace (length h) with (length (seq 0 (length h))) by apply length_seq.
  apply submseteq_length. apply NoDup_submseteq; [exact Hnd|].
  intros a Ha. apply elem_of_seq. specialize (Hb a Ha). lia.
Qed.

(** X17. The text of a graph is a fixed point of decoding and encoding
    again: for a graph of plain objects, arrays and exactly reproduced
    atoms, [stringify] of the graph [resurrect] built from a text gives
    that text back. *)
Theorem reencode_same_text R fuel h root :
  wf_heap R None h = true -> exact_heap R h = true ->
  root < length h -> enough_fuel h fuel ->
  exists text h1 D h2,
    stringify R fuel h (VRef root) RNull = Ok (Some text, h1) /\
    resurrect R text = Ok (VRef 0, D) /\
    stringify R fuel (entry_heap D) (VRef 0) RNull = Ok (Some text, h2).
Proof.
  intros Hwf Hex Hr Hfuel.
  destruct (roundtrip_spec R fuel h root RNull Hwf
              (exact_decodable_heap R h Hex) Hr Hfuel)
    as (Hs & Hd & Hnd & [rest Hrest] & Hc).
  simpl in Hs, Hd, Hc.
  assert (Hvo : visit_order R RNull fuel h (VRef root) =
                discover None fuel (user_view R h) [] (VRef root))
    by reflexivity.
  set (ord := visit_order R RNull fuel h (VRef root)) in *.
  set (G := user_view R h) in *.
  set (phi := node_index ord).
  set (D := decode_table R None G ord) in *.
  assert (Hroot : root ∈ ord) by (rewrite Hrest; left).
  (* the objects of the decoded heap *)
  assert (HF : forall a, a ∈ ord -> exists o,
            G !! a = Some o /\
            wf_content R None (length G) a o = true /\
            node_image R None G ord a = EObj (rename_obj phi o) /\
            get_prop (refcode R) (o_props o) = None /\
            (forall b, VRef b ∈ kids None a o -> b ∈ ord)).
  { intros a Ha. destruct (Hc a Ha) as (o & Ho & Hw & _ & Hk).
    exists o. csplit; auto.
    - unfold node_image. rewrite Ho. f_equal.
      unfold G in Ho. rewrite user_view_lookup in Ho.
      destruct (h !! a) as [oh|] eqn:E; [|discriminate]. inversion Ho; subst o.
      pose proof (exact_heap_lookup R h a oh Hex E) as Hx.
      unfold exact_node in Hx. apply andb_true_iff in Hx as [Hx1 Hx2].
      eapply decode_node_exact; eauto.
    - unfold G in Ho. rewrite user_view_lookup in Ho.
      destruct (h !! a) as [oh|]; [|discriminate]. inversion Ho.
      unfold _deleteRefcode, obj_del. simpl. apply get_del_prop_eq. }
  assert (Hlen : length (entry_heap D) = length ord)
    by (unfold entry_heap, D, decode_table; rewrite !length_map; reflexivity).
  assert (Hh2 : forall a, a ∈ ord -> exists o,
            G !! a = Some o /\
            entry_heap D !! phi a = Some (rename_obj phi o)).
  { intros a Ha. destruct (HF a Ha) as (o & Ho & _ & Hi & _).
    exists o. split; [exact Ho|]. unfold entry_heap.
    rewrite list_lookup_fmap. unfold D, phi.
    rewrite (decode_table_lookup R None G ord a Ha), Hi. reflexivity. }
  assert (Hbound : forall a, a ∈ ord -> a < length h).
  { intros a Ha. destruct (HF a Ha) as (o & Ho & _).
    apply lookup_lt_Some in Ho. unfold G in Ho.
    rewrite length_user_view in Ho. exact Ho. }
  (* the decoded heap is well formed *)
  assert (Hwf2 : wf_heap R None (entry_heap D) = true).
  { unfold wf_heap. apply wf_nodes_intro. intros i o2 Hi. simpl.
    assert (Hil : i < length ord)
      by (rewrite <- Hlen; eapply lookup_lt_Some; eauto).
    destruct (lookup_lt_is_Some_2 ord i Hil) as [a Ha].
    assert (Hin : a ∈ ord) by (eapply list_elem_of_lookup_2; eauto).
    destruct (HF a Hin) as (o & Ho & Hw & _ & Hfr & Hk).
    destruct (Hh2 a Hin) as (o' & Ho' & Hl).
    assert (o' = o) by congruence. subst o'.
    assert (Hpi : phi a = i)
      by (unfold phi, node_index; rewrite (index_of_nodup a ord i Hnd Ha);
          reflexivity).
    rewrite Hpi, Hi in Hl. inversion Hl; subst o2.
    pose proof (renamed_no_refcode R phi o Hfr) as Hfr2.
    unfold wf_node. rewrite (deleteRefcode_fresh R _ Hfr2).
    unfold isTagged, _getRefcode, read_prop. rewrite Hfr2. simpl.
    rewrite (wf_content_renamed R (length G) (length (entry_heap D)) a i phi o Hw).
    - rewrite andb_true_r. unfold rename_obj. simpl.
      rewrite nodup_keys_renamed. unfold wf_content in Hw.
      repeat (apply andb_true_iff in Hw as [Hw ?]).
      rewrite andb_true_r. assumption.
    - intros b Hb. rewrite Hlen. apply node_index_bound. auto. }
  (* the walk over the decoded heap visits its objects in order *)
  assert (Hord2 : visit_order R RNull fuel (entry_heap D) (VRef 0) =
                  seq 0 (length ord)).
  { assert (Hdr : discover None fuel (user_view R (entry_heap D)) (map phi [])
                    (rename phi (VRef root)) =
                  map phi (discover None fuel G [] (VRef root))).
    { apply (discover_renamed G (user_view R (entry_heap D)) phi ord).
      - intros a b Ha Hb E. eapply node_index_inj; eauto.
      - intros a Ha. destruct (HF a Ha) as (o & Ho & _ & _ & Hfr & Hk).
        destruct (Hh2 a Ha) as (o' & Ho' & Hl).
        assert (o' = o) by congruence. subst o'.
        exists o. csplit; auto.
        rewrite user_view_lookup, Hl. simpl.
        rewrite (deleteRefcode_fresh R _ (renamed_no_refcode R phi o Hfr)).
        reflexivity.
      - intros b Hb. inversion Hb.
      - intros c E. inversion E; subst. exact Hroot. }
    assert (Hp0 : phi root = 0)
      by (unfold phi; rewrite Hrest; apply node_index_head).
    simpl in Hdr. rewrite Hp0, <- Hvo in Hdr.
    unfold visit_order. simpl normalize_replacer. rewrite Hdr.
    apply map_node_index. exact Hnd. }
  assert (Hfuel2 : enough_fuel (entry_heap D) fuel).
  { destruct Hfuel as [Hf1 Hf2]. split; [|exact Hf2]. rewrite Hlen.
    pose proof (visited_length ord h Hnd Hbound). lia. }
  assert (Hr2 : 0 < length (entry_heap D))
    by (rewrite Hlen, Hrest; simpl; lia).
  pose proof (stringify_composite R fuel (entry_heap D) 0 RNull Hwf2 Hr2 Hfuel2)
    as Hs2.
  simpl normalize_replacer in Hs2. rewrite Hord2 in Hs2.
  exists (table_json R None G ord), (release_heap R ord h), D. eexists.
  csplit; [exact Hs | exact Hd |]. rewrite Hs2. do 3 f_equal.
  unfold table_json. f_equal. f_equal. unfold encode_table.
  assert (Hm : forall f : nat -> obj,
            map f (seq 0 (length ord)) = map (fun a => f (phi a)) ord).
  { intros f. rewrite <- (map_node_index ord Hnd) at 1. apply map_map. }
  rewrite Hm. apply map_ext_in. intros a Ha. apply list_elem_of_In in Ha.
  destruct (HF a Ha) as (o & Ho & _ & _ & Hfr & Hk).
  destruct (Hh2 a Ha) as (o' & Ho' & Hl).
  assert (o' = o) by congruence. subst o'.
  unfold node_entry. rewrite Ho, user_view_lookup, Hl.
  simpl. rewrite (deleteRefcode_fresh R _ (renamed_no_refcode R phi o Hfr)).
  apply encode_node_renamed; auto.
Qed.

Lemma reencode_same_text_witness :
  exists text h1 D h2,
    stringify necromancer 5 shared_pair (VRef 0) RNull = Ok (Some text, h1) /\
    resurrect necromancer text = Ok (VRef 0, D) /\
    stringify necromancer 5 (entry_heap D) (VRef 0) RNull =
      Ok (Some text, h2).
Proof.
  apply (reencode_same_text necromancer 5 shared_pair 0).
  - reflexivity.
  - reflexivity.
  - simpl. lia.
  - split; simpl; lia.
Defined.

(** ** What a replacer function returns *)

Lemma get_prop_replaced rep a k v ps :
  nodup_keys ps = true -> get_prop k ps = Some v ->
  get_prop k (replaced_fields rep a ps) = replaced rep a k v.
Proof.
  induction ps as [|[k' v'] ps IH]; simpl; [discriminate|].
  intros Hn Hk. apply andb_true_iff in Hn as [Hn1 Hn2].
  destruct (String.eqb k' k) eqn:E.
  - apply String.eqb_eq in E. subst k'. inversion Hk; subst v'.
    destruct (replaced rep a k v) eqn:Er; simpl.
    + rewrite String.eqb_refl. reflexivity.
    + apply get_prop_replaced_None. apply has_prop_false.
      apply negb_true_iff. exact Hn1.
  - destruct (replaced rep a k' v'); simpl; [rewrite E|]; auto.
Qed.

Lemma get_prop_In k v (ps : list (string * value)) :
  get_prop k ps = Some v -> (k, v) ∈ ps.
Proof.
  induction ps as [|[k' v'] ps IH]; simpl; [discriminate|].
  destruct (String.eqb k' k) eqn:E.
  - apply String.eqb_eq in E. intros H. inversion H; subst. left.
  - intros H. right. auto.
Qed.

(** X18. The value a replacer function returns for a field is the value
    that is written: for every reachable object and every own field whose
    value is not [undefined] and for which the function answers a value
    other than [undefined], the entry of the object carries, under the
    key of the field, the encoding of the answer. *)
Theorem replacer_result_is_written R fuel h root f :
  wf_heap R (normalize_replacer R (RFn f)) h = true ->
  root < length h -> enough_fuel h fuel ->
  exists ord js h',
    stringify R fuel h (VRef root) (RFn f) = Ok (Some (JArr js), h') /\
    NoDup ord /\ ord !! 0 = Some root /\
    (forall a, a ∈ ord <->
       reach (normalize_replacer R (RFn f)) (user_view R h) root a) /\
    forall i a o k v,
      ord !! i = Some a -> user_view R h !! a = Some o ->
      isArray_obj o = false ->
      get_prop k (o_props o) = Some v -> v <> VUndef ->
      f (VRef a) k v <> VUndef ->
      exists fs,
        js !! i = Some (JObj fs) /\
        (k, to_json (enc R ord (f (VRef a) k v))) ∈ fs.
Proof.
  intros Hwf Hr Hfuel.
  destruct (visit_order_facts R fuel h root (RFn f) Hwf Hr Hfuel)
    as (Hs & Hnd & H0 & Hreach & Hw).
  exists (visit_order R (RFn f) fuel h (VRef root)).
  eexists _, _. split; [exact Hs|]. csplit; auto.
  intros i a o k v Hi Ho Harr Hk Hv Hfv. unfold encode_table.
  rewrite !list_lookup_fmap, Hi. simpl. unfold node_entry. rewrite Ho.
  rewrite entry_json_object
    by (unfold encode_node; rewrite Harr; unfold isArray_obj in *; auto).
  eexists. split; [reflexivity|].
  unfold encode_node. rewrite Harr. simpl. rewrite map_map.
  destruct (Hw a) as (o' & Ho' & Hwo);
    [eapply list_elem_of_lookup_2; eauto|].
  assert (o' = o) by congruence. subst o'.
  unfold wf_content in Hwo. repeat (apply andb_true_iff in Hwo as [Hwo ?]).
  assert (Hp : String.prefix (prefix R) k = false).
  { match goal with H : forallb (free_key R) _ = true |- _ =>
      rewrite forallb_forall in H;
      specialize (H (k, v) (proj1 (list_elem_of_In _ _) (get_prop_In k v _ Hk)));
      unfold free_key in H; simpl in H; apply negb_true_iff in H; exact H end. }
  assert (Hrep : get_prop k (replaced_fields (Some (replacerWrapper R f)) a
                               (o_props o)) = Some (f (VRef a) k v)).
  { rewrite (get_prop_replaced _ a k v) by assumption.
    unfold replaced, replacerWrapper. rewrite Hp. simpl.
    replace (isUndefined v) with false
      by (destruct v; try reflexivity; congruence).
    replace (isUndefined (f (VRef a) k v)) with false
      by (destruct (f (VRef a) k v); try reflexivity; congruence).
    reflexivity. }
  apply get_prop_In in Hrep.
  apply (list_elem_of_fmap_2
           (fun q : string * value =>
              (fst q,
               to_json (enc R (visit_order R (RFn f) fuel h (VRef root))
                          (snd q))))) in Hrep.
  exact Hrep.
Qed.

Lemma replacer_result_is_written_witness :
  exists ord js h',
    stringify necromancer 5 two_fields (VRef 0) (RFn double_numbers) =
      Ok (Some (JArr js), h') /\
    NoDup ord /\ ord !! 0 = Some 0 /\
    (forall a, a ∈ ord <->
       reach (normalize_replacer necromancer (RFn double_numbers))
         (user_view necromancer two_fields) 0 a) /\
    forall i a o k v,
      ord !! i = Some a -> user_view necromancer two_fields !! a = Some o ->
      isArray_obj o = false ->
      get_prop k (o_props o) = Some v -> v <> VUndef ->
      double_numbers (VRef a) k v <> VUndef ->
      exists fs,
        js !! i = Some (JObj fs) /\
        (k, to_json (enc necromancer ord (double_numbers (VRef a) k v))) ∈ fs.
Proof.
  apply (replacer_result_is_written necromancer 5 two_fields 0 double_numbers).
  - reflexivity.
  - simpl. lia.
  - split; simpl; lia.
Defined.

(** The scenario of X18: [{a: 1, b: 2}] with the doubling replacer. *)
Example doubled_fields :
  stringify necromancer 5 two_fields (VRef 0) (RFn double_numbers) =
    Ok (Some (JArr [JObj [("a", JNum 2); ("b", JNum 4)]]),
        [Obj ProtoObject [] [("a", VNum 1); ("b", VNum 2); ("#id", VNull)]]).
Proof. vm_compute. reflexivity. Qed.

(** ** Graphs with dates and patterns *)

Lemma decodable_nodes_intro R rep h : forall a0,
  (forall i o, h !! i = Some o -> decodable_node R rep (a0 + i) o = true) ->
  decodable_nodes R rep a0 h = true.
Proof.
  induction h as [|x h IH]; intros a0 H; simpl; [reflexivity|].
  apply andb_true_iff. split.
  - specialize (H 0 x eq_refl). rewrite Nat.add_0_r in H. exact H.
  - apply IH. intros i o Hi. specialize (H (S i) o Hi).
    rewrite Nat.add_succ_r in H. exact H.
Qed.

Lemma reproduced_decodable R v : reproduced R v -> decodable R v = true.
Proof.
  unfold reproduced, decodable. destruct v; auto; intros ->; reflexivity.
Qed.

Lemma reproduced_back R ord v :
  reproduced R v -> back R ord v = rename (node_index ord) v.
Proof.
  unfold reproduced, back. destruct v; try (intros ->; reflexivity).
  intros _. reflexivity.
Qed.

Lemma decode_node_reproduced R ord a o n :
  wf_content R None n a o = true ->
  (forall v, v ∈ kids None a o -> reproduced R v) ->
  decode_node R None ord a o = rename_obj (node_index ord) o.
Proof.
  intros Hw Hk. unfold wf_content in Hw. rewrite !andb_true_iff in Hw.
  destruct Hw as ((((Hpl & _) & _) & Hs) & _).
  unfold decode_node, rename_obj, kids in *.
  rewrite replaced_fields_none in *.
  destruct (isArray_obj o) eqn:Ha.
  - rewrite (isArray_proto o Ha).
    destruct (o_props o); [|discriminate]. simpl. f_equal.
    apply map_ext_in. intros x Hx. apply reproduced_back.
    apply Hk. apply list_elem_of_In. exact Hx.
  - destruct (o_items o); [|discriminate]. simpl. f_equal.
    apply map_ext_in. intros [k x] Hx. unfold back_field. simpl.
    rewrite reproduced_back; auto. apply Hk. apply list_elem_of_In.
    apply in_map_iff. exists (k, x). auto.
Qed.

(** X19. Dates and patterns inside a graph of plain objects and arrays,
    none of whose keys is [__proto__] or [hasOwnProperty]: when every atom
    of the graph is one whose encoding decodes to the atom itself -- a Date
    with a valid time value and a RegExp with flags among g, i, m, y are,
    by X16 and X11 -- [resurrect (stringify G)] is an isomorphic copy of
    the graph, as for the graphs of plain atoms of C1.  The nodes of the
    graph are its objects and arrays: their sharing and their cycles are
    kept.  A Date or a RegExp is an atom, equal to the original by its
    value; each place it occurs at is decoded by a construction of its
    own. *)
Theorem reproduced_graph_roundtrip R fuel h root :
  wf_heap R None h = true ->
  (forall a o v, user_view R h !! a = Some o -> v ∈ kids None a o ->
                 reproduced R v) ->
  ordinary_keys h = true ->
  root < length h -> enough_fuel h fuel ->
  exists text h' D phi,
    stringify R fuel h (VRef root) RNull = Ok (Some text, h') /\
    resurrect R text = Ok (VRef (phi root), D) /\
    (forall a b,
       reach None (user_view R h) root a -> reach None (user_view R h) root b ->
       phi a = phi b -> a = b) /\
    (forall a, reach None (user_view R h) root a ->
       exists o, user_view R h !! a = Some o /\
                 D !! phi a = Some (EObj (rename_obj phi o))).
Proof.
  intros Hwf Hrep _ Hr Hfuel.
  assert (Hdec : decodable_heap R None h = true).
  { apply decodable_nodes_intro. intros i o Hi. simpl.
    unfold decodable_node. rewrite forallb_forall. intros v Hv.
    apply reproduced_decodable.
    apply (Hrep i (_deleteRefcode R o) v).
    - rewrite user_view_lookup, Hi. reflexivity.
    - apply list_elem_of_In. exact Hv. }
  destruct (roundtrip_spec R fuel h root RNull Hwf Hdec Hr Hfuel)
    as (Hs & Hd & Hnd & [rest Hrest] & Hc).
  simpl in Hs, Hd, Hc.
  set (ord := visit_order R RNull fuel h (VRef root)) in *.
  set (G := user_view R h) in *.
  assert (Hroot : root ∈ ord) by (rewrite Hrest; left).
  exists (table_json R None G ord), (release_heap R ord h),
    (decode_table R None G ord), (node_index ord).
  csplit.
  - exact Hs.
  - rewrite Hd, Hrest, node_index_head. reflexivity.
  - intros a b Ha Hb E.
    eapply node_index_inj; eauto; eapply reach_closed; eauto.
  - intros a Ha. pose proof (reach_closed _ _ _ _ _ _ Hc Hroot Ha) as Hin.
    destruct (Hc a Hin) as (o & Ho & Hw & _). exists o. split; [exact Ho|].
    rewrite decode_table_lookup by exact Hin. unfold node_image. rewrite Ho.
    do 2 f_equal. eapply decode_node_reproduced; eauto.
Qed.

Lemma reproduced_graph_roundtrip_witness :
  exists text h' D phi,
    stringify necromancer 5 dated_record (VRef 0) RNull =
      Ok (Some text, h') /\
    resurrect necromancer text = Ok (VRef (phi 0), D) /\
    (forall a b,
       reach None (user_view necromancer dated_record) 0 a ->
       reach None (user_view necromancer dated_record) 0 b ->
       phi a = phi b -> a = b) /\
    (forall a, reach None (user_view necromancer dated_record) 0 a ->
       exists o, user_view necromancer dated_record !! a = Some o /\
                 D !! phi a = Some (EObj (rename_obj phi o))).
Proof.
  apply (reproduced_graph_roundtrip necromancer 5 dated_record 0).
  - reflexivity.
  - intros [|a] o v Ho Hv; simpl in Ho; inversion Ho; subst o.
    unfold kids in Hv. simpl in Hv.
    rewrite !elem_of_cons, elem_of_nil in Hv.
    destruct Hv as [->|[->|[->|[]]]]; vm_compute; reflexivity.
  - reflexivity.
  - simpl. lia.
  - split; simpl; lia.
Defined.

(** The scenario of X19 in full. *)
Example dated_record_roundtrip :
  stringify necromancer 5 dated_record (VRef 0) RNull =
    Ok (Some (JArr [JObj
          [("when", JObj [("#.", JStr "Date");
                          ("#v", JArr [JStr "2023-11-14T22:13:20.123Z"])]);
           ("re", JObj [("#.", JStr "RegExp");
                        ("#v", JArr [JStr "a+"; JStr "gi"])]);
           ("big", JObj [("#.", JStr "BigInt");
                         ("#v", JArr [JStr "1180591620717411303424"])])]]),
        [Obj ProtoObject []
           [("when", VDate (Some 1700000000123%Z)); ("re", VRegExp "a+" "gi");
            ("big", VBigInt (2 ^ 70)%Z); ("#id", VNull)]]) /\
  resurrect necromancer
    (JArr [JObj
          [("when", JObj [("#.", JStr "Date");
                          ("#v", JArr [JStr "2023-11-14T22:13:20.123Z"])]);
           ("re", JObj [("#.", JStr "RegExp");
                        ("#v", JArr [JStr "a+"; JStr "gi"])]);
           ("big", JObj [("#.", JStr "BigInt");
                         ("#v", JArr [JStr "1180591620717411303424"])])]]) =
    Ok (VRef 0,
        [EObj (Obj ProtoObject []
                 [("when", VDate (Some 1700000000123%Z));
                  ("re", VRegExp "a+" "gi"); ("big", VBigInt (2 ^ 70)%Z)])]).
Proof. split; vm_compute; reflexivity. Qed.
